(** * Batched ARIMA (cuml/ts/arima.py): a shallow embedding and its properties

    The Python module [arima.py] is embedded function by function.  Python
    exceptions are values of [exn]; code that neither prints, nor touches the
    numpy floating-point trap mode, nor reads or writes a model object is a
    function into [res]; the rest lives in the state-and-error monad [M]. *)

From Stdlib Require Import ZArith Floats Lia.
From stdpp Require Import base list strings.

Set Default Proof Using "Type*".

(** ** Exceptions and results *)

Inductive exn : Type :=
| IndexError
| ValueError
| AssertionError
| NotImplementedError
| FloatingPointError
| ZeroDivisionError.

Inductive res (A : Type) : Type :=
| Ok (a : A)
| Err (e : exn).
Arguments Ok {A} a.
Arguments Err {A} e.

#[global] Instance res_ret : MRet res := fun A a => Ok a.
#[global] Instance res_bind : MBind res := fun A B f m =>
  match m with
  | Ok a => f a
  | Err e => Err e
  end.

(** [for i in l: s = body(i, s)], stopping at the first exception. *)
Fixpoint for_each {S : Type} (body : nat -> S -> res S) (l : list nat) (s : S)
  : res S :=
  match l with
  | [] => Ok s
  | i :: l' =>
      match body i s with
      | Ok s' => for_each body l' s'
      | Err e => Err e
      end
  end.

(** [for i in range(n)] *)
Definition for_range {S : Type} (n : nat) (body : nat -> S -> res S) (s : S)
  : res S :=
  for_each body (seq 0 n) s.

(** ** Numbers

    The arrays of the module hold numpy scalars.  The embedding is generic in
    the scalar type: [Numeric] collects the operations the module applies to
    them.  [float64] is numpy's default dtype (IEEE binary64); [int_exact] is
    an integer dtype, used where a law of exact arithmetic is needed. *)

Class Numeric (R : Type) : Type := {
  num_zero : R;
  num_one : R;
  num_add : R -> R -> R;
  num_sub : R -> R -> R;
  num_mul : R -> R -> R;
  num_div : R -> R -> R;
  num_neg : R -> R;
  num_ltb : R -> R -> bool;
  num_isnan : R -> bool;
  num_isinf : R -> bool;
  (** conversion of a Python [int] *)
  num_of_Z : Z -> R
}.

(** The two floating-point constants of the module. *)
Class FloatConsts (R : Type) : Type := {
  (** [np.finfo(np.float64).max] *)
  num_finfo_max : R;
  (** the literal [1e-9], default step [h] of [fit] *)
  num_1e_9 : R
}.

Inductive ArithOp : Type := OpAdd | OpSub | OpMul | OpDiv.

Definition apply_op {R} {NR : Numeric R} (op : ArithOp) : R -> R -> R :=
  match op with
  | OpAdd => num_add
  | OpSub => num_sub
  | OpMul => num_mul
  | OpDiv => num_div
  end.

(** Whether evaluating [op a b] signals one of the IEEE conditions numpy
    traps under [np.seterr(all='raise')] (overflow, underflow, invalid,
    divide by zero).  Which operations signal is left to the instance. *)
Class FpFlags (R : Type) : Type := {
  signals : ArithOp -> R -> R -> bool
}.

(** ** Python sequences *)

Section Sequences.
Context {A : Type}.

(** [l[a:b]] for [0 <= a] and [0 <= b]: bounds are clamped. *)
Definition py_slice (a b : nat) (l : list A) : list A :=
  take (b - a) (drop a l).

(** [l[a:]] *)
Definition py_slice_from (a : nat) (l : list A) : list A := drop a l.

(** [l[-n:]] for [n > 0]: the last [n] elements, all of [l] if shorter. *)
Definition py_last (n : nat) (l : list A) : list A :=
  drop (length l - n) l.

(** [l[i]] for [0 <= i] *)
Definition py_index (l : list A) (i : nat) : res A :=
  match l !! i with
  | Some v => Ok v
  | None => Err IndexError
  end.

(** [l[i] = v] *)
Definition np_setitem (i : nat) (v : A) (l : list A) : res (list A) :=
  if decide (i < length l) then Ok (<[i:=v]> l) else Err IndexError.

(** [l[a:b] = v] on a 1-d numpy array: [v] must have the length of the
    slice, or length one (it is then broadcast). *)
Definition np_set_slice (a b : nat) (v : list A) (l : list A)
  : res (list A) :=
  let n := length (py_slice a b l) in
  if decide (length v = n) then Ok (take a l ++ v ++ drop (a + n) l)
  else
    match v with
    | [c] => Ok (take a l ++ replicate n c ++ drop (a + n) l)
    | _ => Err ValueError
    end.

(** The indices [i, i+step, i+2*step, ...] below [len]: those of
    [l[i::step]]. *)
Definition strided_slots (i step len : nat) : list nat :=
  filter (fun k => i ≤ k ∧ (k - i) `mod` step = 0) (seq 0 len).
End Sequences.

Section Codec.
Context {R : Type} {NR : Numeric R}.

(** [np.zeros(n)] *)
Definition np_zeros (n : nat) : list R := replicate n num_zero.

(** [unpack(p, q, nb, x)], lines 341-353. *)
Definition unpack (p q nb : nat) (x : list R)
  : res (list R * list (list R) * list (list R)) :=
  let num_parameters := 1 + p + q in
  for_range nb
    (fun i '(mu, ar, ma) =>
       let xi := py_slice (i * num_parameters) ((i + 1) * num_parameters) x in
       v ← py_index xi 0;
       mu' ← np_setitem i v mu;
       Ok (mu', ar ++ [py_slice 1 (p + 1) xi], ma ++ [py_slice_from (p + 1) xi]))
    (np_zeros nb, [], []).

(** [pack(p, q, nb, mu, ar, ma)], lines 355-364. *)
Definition pack (p q nb : nat) (mu : list R) (ar ma : list (list R))
  : res (list R) :=
  let num_parameters := 1 + p + q in
  for_range nb
    (fun i x =>
       m ← py_index mu i;
       a ← py_index ar i;
       b ← py_index ma i;
       let xi := ([m] ++ a) ++ b in
       np_set_slice (i * num_parameters) ((i + 1) * num_parameters) xi x)
    (np_zeros (num_parameters * nb)).
End Codec.

(** ** Arrays, models and the world *)

(** A 2-d numpy array, stored by columns (one column per batch member);
    its shape is [(n_rows, length columns)]. *)
Record Matrix (R : Type) : Type := mkMatrix {
  n_rows : nat;
  columns : list (list R)
}.
Arguments mkMatrix {R} n_rows columns.
Arguments n_rows {R} m.
Arguments columns {R} m.

Definition n_cols {R} (m : Matrix R) : nat := length (columns m).

(** Every column of a numpy array has [n_rows] entries. *)
Definition wf_matrix {R} (m : Matrix R) : Prop :=
  Forall (fun c => length c = n_rows m) (columns m).

(** One entry of [model.order]: a tuple [(p, d, q)], or the empty list that
    [grid_search] puts into its placeholder model. *)
Inductive PyOrder : Type :=
| OrderEmpty
| OrderTuple (p : nat) (d : Z) (q : nat).

(** [class ARIMAModel], lines 13-37. *)
Record ARIMAModel (R : Type) : Type := mkARIMAModel {
  order : list PyOrder;
  mu : list R;
  ar_params : list (list R);
  ma_params : list (list R);
  y : Matrix R;
  num_samples : nat;
  num_batches : nat;
  yp : option (Matrix R);
  niter : option Z
}.
Arguments mkARIMAModel {R}.
Arguments order {R} a.
Arguments mu {R} a.
Arguments ar_params {R} a.
Arguments ma_params {R} a.
Arguments y {R} a.
Arguments num_samples {R} a.
Arguments num_batches {R} a.
Arguments yp {R} a.
Arguments niter {R} a.

(** [np.seterr(all=...)]: the process-wide floating-point trap mode. *)
Inductive FpMode : Type := FpRaise | FpWarn.

(** The numeric routines whose calls are observed. *)
Inductive Routine : Type :=
| CallArTrans
| CallMaTrans
| CallArInvTrans
| CallMaInvTrans
| CallKalmanInit
| CallKalmanFilter
| CallOptimizer
| CallCentralDiff.

#[global] Instance FpMode_eq_dec : EqDecision FpMode.
Proof. solve_decision. Defined.
#[global] Instance Routine_eq_dec : EqDecision Routine.
Proof. solve_decision. Defined.
#[global] Instance exn_eq_dec : EqDecision exn.
Proof. solve_decision. Defined.

(** The state the module acts on: the trap mode, the log of observed calls
    (each with the trap mode in force when it was made, oldest first), the
    lines printed, and the model objects (a reference is an index). *)
Record World (R : Type) : Type := mkWorld {
  fp_mode : FpMode;
  calls : list (Routine * FpMode);
  stdout : list string;
  heap : list (ARIMAModel R)
}.
Arguments mkWorld {R}.
Arguments fp_mode {R} w.
Arguments calls {R} w.
Arguments stdout {R} w.
Arguments heap {R} w.

Definition ModelRef : Type := nat.

(** Computations: a result or an exception, and the world left behind. *)
Definition M (R A : Type) : Type := World R -> res A * World R.

#[global] Instance M_ret {R} : MRet (M R) := fun A a w => (Ok a, w).
#[global] Instance M_bind {R} : MBind (M R) := fun A B f m w =>
  match m w with
  | (Ok a, w') => f a w'
  | (Err e, w') => (Err e, w')
  end.

Section Monad.
Context {R : Type}.

Definition raise {A} (e : exn) : M R A := fun w => (Err e, w).

Definition lift {A} (r : res A) : M R A := fun w => (r, w).

Definition get_mode : M R FpMode := fun w => (Ok (fp_mode w), w).

(** [np.seterr(all=m)] *)
Definition np_seterr (m : FpMode) : M R unit := fun w =>
  (Ok tt, mkWorld m (calls w) (stdout w) (heap w)).

(** Record a call of [r] under the current trap mode. *)
Definition observe (r : Routine) : M R unit := fun w =>
  (Ok tt, mkWorld (fp_mode w) (calls w ++ [(r, fp_mode w)]) (stdout w) (heap w)).

(** [print(s)] *)
Definition print (s : string) : M R unit := fun w =>
  (Ok tt, mkWorld (fp_mode w) (calls w) (stdout w ++ [s]) (heap w)).

(** Object creation: the new model gets the next free reference. *)
Definition new_model (m : ARIMAModel R) : M R ModelRef := fun w =>
  (Ok (length (heap w)), mkWorld (fp_mode w) (calls w) (stdout w) (heap w ++ [m])).

(** Reading the object behind a reference. *)
Definition get_model (r : ModelRef) : M R (ARIMAModel R) := fun w =>
  match heap w !! r with
  | Some m => (Ok m, w)
  | None => (Err ValueError, w)
  end.

(** In-place update of the object behind a reference. *)
Definition update_model (r : ModelRef) (f : ARIMAModel R -> ARIMAModel R)
  : M R unit := fun w =>
  match heap w !! r with
  | Some m => (Ok tt, mkWorld (fp_mode w) (calls w) (stdout w) (<[r:=f m]> (heap w)))
  | None => (Err ValueError, w)
  end.

(** [for i in l: s = body(i, s)] with effects. *)
Fixpoint forM {S : Type} (body : nat -> S -> M R S) (l : list nat) (s : S)
  : M R S :=
  match l with
  | [] => mret s
  | i :: l' => s' ← body i s; forM body l' s'
  end.

Definition for_rangeM {S : Type} (n : nat) (body : nat -> S -> M R S) (s : S)
  : M R S :=
  forM body (seq 0 n) s.
End Monad.

(** ** Arithmetic under the trap mode

    A numpy call computes its result and then consults the IEEE flags.  [Fp]
    pairs a value with whether computing it signalled; [fp_run] is the numpy
    call: it raises [FloatingPointError] when something signalled and the
    mode is [FpRaise]. *)

Definition Fp (A : Type) : Type := (A * bool)%type.

#[global] Instance Fp_ret : MRet Fp := fun A a => (a, false).
#[global] Instance Fp_bind : MBind Fp := fun A B f m =>
  let '(a, s1) := m in
  let '(b, s2) := f a in
  (b, s1 || s2).

Section Arithmetic.
Context {R : Type} {NR : Numeric R} {FR : FpFlags R}.

Definition fp_op (op : ArithOp) (a b : R) : Fp R :=
  (apply_op op a b, signals op a b).

Definition fp_run {A} (c : Fp A) : M R A := fun w =>
  match fp_mode w with
  | FpRaise => if snd c then (Err FloatingPointError, w) else (Ok (fst c), w)
  | FpWarn => (Ok (fst c), w)
  end.

(** Elementwise map over a list, flags accumulated. *)
Fixpoint fp_map {A B} (f : A -> Fp B) (l : list A) : Fp (list B) :=
  match l with
  | [] => mret []
  | a :: l' => b ← f a; bs ← fp_map f l'; mret (b :: bs)
  end.

(** [a op b] on 1-d arrays: equal lengths, or one operand of length one. *)
Definition np_vec_op (op : ArithOp) (a b : list R) : M R (list R) :=
  if decide (length a = length b)
  then fp_run (fp_map (fun '(u, v) => fp_op op u v) (zip a b))
  else
    match a, b with
    | [u], _ => fp_run (fp_map (fun v => fp_op op u v) b)
    | _, [v] => fp_run (fp_map (fun u => fp_op op u v) a)
    | _, _ => raise ValueError
    end.

(** [a op s] for a 1-d array and a scalar. *)
Definition np_vec_scalar (op : ArithOp) (a : list R) (s : R) : M R (list R) :=
  fp_run (fp_map (fun u => fp_op op u s) a).

(** [-a] *)
Definition np_neg (a : list R) : list R := num_neg <$> a.

(** [a.sum()], accumulated left to right from zero. *)
Definition fp_sum (a : list R) : Fp R :=
  foldl (fun acc v => s ← acc; fp_op OpAdd s v) (mret num_zero) a.

(** [np.dot(a, b)] for 1-d arrays of one length. *)
Definition fp_dot (a b : list R) : Fp R :=
  foldl (fun acc '(u, v) => s ← acc; t ← fp_op OpMul u v; fp_op OpAdd s t)
        (mret num_zero) (zip a b).

Definition np_dot (a b : list R) : M R R :=
  if decide (length a = length b) then fp_run (fp_dot a b)
  else raise ValueError.

(** [np.cumsum(a)]: the running sums, the first one being [a[0]]. *)
Fixpoint fp_cumsum_from (acc : R) (l : list R) : Fp (list R) :=
  match l with
  | [] => mret []
  | v :: l' => s ← fp_op OpAdd acc v; rest ← fp_cumsum_from s l'; mret (s :: rest)
  end.

Definition fp_cumsum (a : list R) : Fp (list R) :=
  match a with
  | [] => mret []
  | v :: l => rest ← fp_cumsum_from v l; mret (v :: rest)
  end.

(** [np.diff(a)] on a 1-d array: [a[k+1] - a[k]]. *)
Fixpoint fp_diff (a : list R) : Fp (list R) :=
  match a with
  | u :: ((v :: _) as l) => d ← fp_op OpSub v u; rest ← fp_diff l; mret (d :: rest)
  | _ => mret []
  end.
End Arithmetic.

(** ** 2-d arrays *)

Section Matrices.
Context {R : Type} {NR : Numeric R} {FR : FpFlags R}.

(** [np.zeros((r, c))] *)
Definition mat_zeros (r c : nat) : Matrix R :=
  mkMatrix r (replicate c (np_zeros r)).

(** [m[:, j]] *)
Definition mat_column (m : Matrix R) (j : nat) : res (list R) :=
  py_index (columns m) j.

(** [m[-1, j]] *)
Definition mat_last_at (m : Matrix R) (j : nat) : res R :=
  c ← mat_column m j;
  match last c with
  | Some v => Ok v
  | None => Err IndexError
  end.

(** [m[-1, :]] *)
Definition mat_last_row (m : Matrix R) : res (list R) :=
  if decide (n_rows m = 0) then Err IndexError
  else Ok ((fun c => default num_zero (last c)) <$> columns m).

(** [m[0:-1, :]] *)
Definition mat_init_rows (m : Matrix R) : Matrix R :=
  mkMatrix (n_rows m - 1) ((fun c => take (length c - 1) c) <$> columns m).

(** [m[:, j] = v]: [v] has the length of a column, or length one. *)
Definition mat_set_column (j : nat) (v : list R) (m : Matrix R)
  : res (Matrix R) :=
  if decide (j < n_cols m) then
    if decide (length v = n_rows m)
    then Ok (mkMatrix (n_rows m) (<[j:=v]> (columns m)))
    else
      match v with
      | [c] => Ok (mkMatrix (n_rows m) (<[j:=replicate (n_rows m) c]> (columns m)))
      | _ => Err ValueError
      end
  else Err IndexError.

(** Numpy broadcasting of one dimension. *)
Definition bcast_dim (a b : nat) : res nat :=
  if decide (a = b) then Ok a
  else if decide (a = 1) then Ok b
  else if decide (b = 1) then Ok a
  else Err ValueError.

(** The entry a broadcast operand contributes at [(i, j)]. *)
Definition mat_entry (m : Matrix R) (i j : nat) : R :=
  let j' := if decide (n_cols m = 1) then 0 else j in
  let i' := if decide (n_rows m = 1) then 0 else i in
  default num_zero (columns m !! j' ≫= (fun c => c !! i')).

Definition fp_mat_op (op : ArithOp) (a b : Matrix R) (r c : nat)
  : Fp (Matrix R) :=
  cols ← fp_map (fun j =>
                   fp_map (fun i => fp_op op (mat_entry a i j) (mat_entry b i j))
                          (seq 0 r))
                (seq 0 c);
  mret (mkMatrix r cols).

(** [a op b] on 2-d arrays, with broadcasting. *)
Definition np_mat_op (op : ArithOp) (a b : Matrix R) : M R (Matrix R) :=
  r ← lift (bcast_dim (n_rows a) (n_rows b));
  c ← lift (bcast_dim (n_cols a) (n_cols b));
  fp_run (fp_mat_op op a b r c).

(** A 1-d array as an operand of a 2-d operation: shape [(1, n)]. *)
Definition row_matrix (v : list R) : Matrix R :=
  mkMatrix 1 ((fun x => [x]) <$> v).

(** [np.diff(m, axis=0)] *)
Definition fp_mat_diff (m : Matrix R) : Fp (Matrix R) :=
  cols ← fp_map fp_diff (columns m);
  mret (mkMatrix (n_rows m - 1) cols).

(** [temp[:-1, :] = a; temp[-1, :] = v] on [temp = zeros((r+1, c))] where
    [(r, c)] is the shape of [a]: [v] has length [c], or length one. *)
Definition mat_append_row (a : Matrix R) (v : list R) : res (Matrix R) :=
  if decide (length v = n_cols a)
  then Ok (mkMatrix (n_rows a + 1) ((fun '(c, x) => c ++ [x]) <$> zip (columns a) v))
  else
    match v with
    | [x] => Ok (mkMatrix (n_rows a + 1) ((fun c => c ++ [x]) <$> columns a))
    | _ => Err ValueError
    end.
End Matrices.

(** ** External collaborators

    The routines the module imports: the statsmodels coefficient transforms,
    the batched Kalman kernel and the batched L-BFGS-B minimizer.  Each
    numeric routine is given the trap mode in force when it is called. *)

(** The minimizer calls back the objective [f] and the gradient [gf] and in
    the end returns [(x, niter, flags)] or raises.  One strategy of the
    minimizer is a tree; a continuation is given the value of the callback
    and the trap mode the callback left behind. *)
Inductive OptTree (R : Type) : Type :=
| OptReturn (x : list R) (n : Z) (flags : list Z)
| OptRaise (e : exn)
| OptEvalF (x : list R) (k : FpMode -> list R -> OptTree R)
| OptEvalG (x : list R) (k : FpMode -> list R -> OptTree R).
Arguments OptReturn {R} x n flags.
Arguments OptRaise {R} e.
Arguments OptEvalF {R} x k.
Arguments OptEvalG {R} x k.

Class Externals (R : Type) : Type := {
  kalman_matrices : Type;
  sm_ar_transparams : FpMode -> list R -> res (list R);
  sm_ma_transparams : FpMode -> list R -> res (list R);
  sm_ar_invtransparams : FpMode -> list R -> res (list R);
  sm_ma_invtransparams : FpMode -> list R -> res (list R);
  init_batched_kalman_matrices :
    FpMode -> list (list R) -> list (list R) -> res kalman_matrices;
  (** [batched_kfilter(y, Zb, Rb, Tb, r, gpu, initP_kalman_iterations)]
      returns the log-likelihood of each series and the innovations. *)
  batched_kfilter :
    FpMode -> Matrix R -> kalman_matrices -> bool -> bool ->
    res (list R * Matrix R);
  (** [batched_fmin_lbfgs_b(f, x0, num_batches, gf, iprint=..., factr=1000)] *)
  batched_fmin_lbfgs_b : FpMode -> list R -> nat -> Z -> OptTree R;
  np_log : R -> Fp R
}.

Section Calls.
Context {R : Type}.

(** A call of an external numeric routine: observed, then run under the
    trap mode in force. *)
Definition call {A} (r : Routine) (f : FpMode -> res A) : M R A :=
  _ ← observe r;
  m ← get_mode;
  lift (f m).

(** Running a strategy of the minimizer against the two callbacks. *)
Fixpoint run_opt (t : OptTree R) (f gf : list R -> M R (list R))
  : M R (list R * Z * list Z) :=
  match t with
  | OptReturn x n flags => mret (x, n, flags)
  | OptRaise e => raise e
  | OptEvalF x k => v ← f x; m ← get_mode; run_opt (k m v) f gf
  | OptEvalG x k => v ← gf x; m ← get_mode; run_opt (k m v) f gf
  end.
End Calls.

(** ** The module *)

Section Program.
Context {R : Type} {NR : Numeric R} {FR : FpFlags R} {ER : Externals R}.

(** An order as the functions take it: the tuple [(p, d, q)]. *)
Definition Order : Type := (nat * Z * nat)%type.

(** [(p, d, q) = o] *)
Definition order_tuple (o : PyOrder) : res Order :=
  match o with
  | OrderTuple p d q => Ok (p, d, q)
  | OrderEmpty => Err ValueError
  end.

(** [o[1]] *)
Definition order_d (o : PyOrder) : res Z :=
  match o with
  | OrderTuple _ d _ => Ok d
  | OrderEmpty => Err IndexError
  end.

(** [assert c] *)
Definition py_assert (c : bool) : res unit :=
  if c then Ok tt else Err AssertionError.

(** [bool(a)] of a numpy array of booleans. *)
Definition py_truth (a : list bool) : res bool :=
  match a with
  | [] => Ok false
  | [b] => Ok b
  | _ => Err ValueError
  end.

(** [np.tile(a, n)] *)
Definition np_tile (a : list R) (n : nat) : list R :=
  concat (replicate n a).

(** [l[i::step] = v] where [v] has as many entries as the slice. *)
Definition np_set_strided (i step : nat) (v l : list R) : list R :=
  foldl (fun acc '(k, c) => <[k:=c]> acc) l (zip (strided_slots i step (length l)) v).

(** [ARIMAModel.__init__], lines 24-37. *)
Definition ARIMAModel_init (order : list PyOrder) (mu : list R)
    (ar_params ma_params : list (list R)) (y : Matrix R) : M R ModelRef :=
  new_model (mkARIMAModel order mu ar_params ma_params y
                          (n_rows y) (n_cols y) None None).

Definition set_yp (v : option (Matrix R)) (m : ARIMAModel R) : ARIMAModel R :=
  mkARIMAModel (order m) (mu m) (ar_params m) (ma_params m) (y m)
               (num_samples m) (num_batches m) v (niter m).

Definition set_niter (v : option Z) (m : ARIMAModel R) : ARIMAModel R :=
  mkARIMAModel (order m) (mu m) (ar_params m) (ma_params m) (y m)
               (num_samples m) (num_batches m) (yp m) v.

Definition set_order (v : list PyOrder) (m : ARIMAModel R) : ARIMAModel R :=
  mkARIMAModel v (mu m) (ar_params m) (ma_params m) (y m)
               (num_samples m) (num_batches m) (yp m) (niter m).

Definition set_mu (v : list R) (m : ARIMAModel R) : ARIMAModel R :=
  mkARIMAModel (order m) v (ar_params m) (ma_params m) (y m)
               (num_samples m) (num_batches m) (yp m) (niter m).

Definition set_ar_params (v : list (list R)) (m : ARIMAModel R) : ARIMAModel R :=
  mkARIMAModel (order m) (mu m) v (ma_params m) (y m)
               (num_samples m) (num_batches m) (yp m) (niter m).

Definition set_ma_params (v : list (list R)) (m : ARIMAModel R) : ARIMAModel R :=
  mkARIMAModel (order m) (mu m) (ar_params m) v (y m)
               (num_samples m) (num_batches m) (yp m) (niter m).

(** [_model_complexity(order)], lines 59-62. *)
Definition _model_complexity (o : PyOrder) : res nat :=
  '(p, _, q) ← order_tuple o;
  Ok (1 + p + q).

(** [assert_same_d(b_order)], lines 407-410. *)
Definition assert_same_d (b_order : list PyOrder) : res unit :=
  b_d ← for_each (fun i acc => o ← py_index b_order i;
                               '(_, d, _) ← order_tuple o;
                               Ok (acc ++ [d]))
                 (seq 0 (length b_order)) [];
  d0 ← py_index b_d 0;
  py_assert (forallb (fun d => bool_decide (d = d0)) b_d).

(** [diffAndCenter(y, num_batches, mu, ar_params)], lines 200-210. *)
Definition diffAndCenter (y : Matrix R) (num_batches : nat) (mu : list R)
    (ar_params : list (list R)) : M R (Matrix R) :=
  y_diff ← fp_run (fp_mat_diff y);
  B0 ← lift (for_each (fun i B0 => m ← py_index mu i; np_setitem i m B0)
                      (seq 0 (length mu `min` length ar_params))
                      (np_zeros num_batches));
  np_mat_op OpSub y_diff (row_matrix B0).

(** [run_kalman(model, gpu, initP_kalman_iterations)], lines 213-244. *)
Definition run_kalman (model : ModelRef) (gpu initP_kalman_iterations : bool)
  : M R (list R * Matrix R) :=
  m ← get_model model;
  km ← call CallKalmanInit
         (fun fm => init_batched_kalman_matrices fm (ar_params m) (ma_params m));
  _ ← lift (assert_same_d (order m));
  o ← lift (py_index (order m) 0);
  '(_, d, _) ← lift (order_tuple o);
  if decide (d = 0%Z) then
    call CallKalmanFilter
         (fun fm => batched_kfilter fm (y m) km gpu initP_kalman_iterations)
  else if decide (d = 1%Z) then
    y_diff_centered ← diffAndCenter (y m) (num_batches m) (mu m) (ar_params m);
    call CallKalmanFilter
         (fun fm => batched_kfilter fm y_diff_centered km gpu initP_kalman_iterations)
  else raise NotImplementedError.

(** [loglike(model, gpu)], lines 247-250. *)
Definition loglike (model : ModelRef) (gpu : bool) : M R (list R) :=
  '(ll_b, _) ← run_kalman model gpu false;
  mret ll_b.

(** [batch_trans(p, q, nb, x)], lines 366-382. *)
Definition batch_trans (p q nb : nat) (x : list R) : M R (list R) :=
  '(mu, ar, ma) ← lift (unpack p q nb x);
  _ ← np_seterr FpRaise;
  '(ar2, ma2) ← for_rangeM nb
      (fun ib '(ar2, ma2) =>
         a ← lift (py_index ar ib);
         ari ← call CallArTrans (fun fm => sm_ar_transparams fm a);
         b ← lift (py_index ma ib);
         mai ← call CallMaTrans (fun fm => sm_ma_transparams fm b);
         mret (ar2 ++ [ari], ma2 ++ [mai]))
      ([], []);
  _ ← np_seterr FpWarn;
  lift (pack p q nb mu ar2 ma2).

(** [assert ((not t(ari)) and (not t(mai)))] for an elementwise test [t]. *)
Definition assert_neither (t : R -> bool) (ari mai : list R) : res unit :=
  c1 ← py_truth (t <$> ari);
  c ← (if negb c1 then c2 ← py_truth (t <$> mai); Ok (negb c2) else Ok false);
  py_assert c.

(** [batch_invtrans(p, q, nb, x)], lines 384-400. *)
Definition batch_invtrans (p q nb : nat) (x : list R) : M R (list R) :=
  '(mu, ar, ma) ← lift (unpack p q nb x);
  '(ar2, ma2) ← for_rangeM nb
      (fun ib '(ar2, ma2) =>
         a ← lift (py_index ar ib);
         ari ← call CallArInvTrans (fun fm => sm_ar_invtransparams fm a);
         b ← lift (py_index ma ib);
         mai ← call CallMaInvTrans (fun fm => sm_ma_invtransparams fm b);
         _ ← lift (assert_neither num_isinf ari mai);
         _ ← lift (assert_neither num_isnan ari mai);
         mret (ar2 ++ [ari], ma2 ++ [mai]))
      ([], []);
  lift (pack p q nb mu ar2 ma2).

(** [ll_f(num_batches, num_parameters, order, y, x, gpu=gpu, trans=trans)],
    lines 65-90, with [return_negative_sum] at its default [False] (no
    caller passes it). *)
Definition ll_f (num_batches num_parameters : nat) (order : Order)
    (y : Matrix R) (x : list R) (gpu trans : bool) : M R (list R) :=
  let '(p, d, q) := order in
  x ← (if trans then batch_trans p q num_batches x else mret x);
  '(mu, arparams, maparams) ← lift (unpack p q num_batches x);
  b_model ← ARIMAModel_init (replicate num_batches (OrderTuple p d q))
                            mu arparams maparams y;
  loglike b_model gpu.

(** [ll_gf(num_batches, num_parameters, order, y, x, h, gpu=gpu,
    trans=trans)], lines 92-127. *)
Definition ll_gf (num_batches num_parameters : nat) (order : Order)
    (y : Matrix R) (x : list R) (h : R) (gpu trans : bool) : M R (list R) :=
  let fd := np_zeros num_parameters in
  let grad := np_zeros (length x) in
  _ ← (if decide (num_parameters = 0) then raise ZeroDivisionError
       else lift (py_assert (bool_decide (length x = num_batches * num_parameters))));
  '(_, grad) ← for_rangeM num_parameters
      (fun i '(fd, grad) =>
         fd ← lift (np_setitem i h fd);
         let fdph := np_tile fd num_batches in
         fd ← lift (np_setitem i num_zero fd);
         xp ← np_vec_op OpAdd x fdph;
         ll_b_ph ← ll_f num_batches num_parameters order y xp gpu trans;
         xm ← np_vec_op OpSub x fdph;
         ll_b_mh ← ll_f num_batches num_parameters order y xm gpu trans;
         _ ← np_seterr FpRaise;
         _ ← observe CallCentralDiff;
         dl ← np_vec_op OpSub ll_b_ph ll_b_mh;
         grad_i_b ← np_vec_scalar OpDiv dl (num_mul (num_of_Z 2) h);
         if decide (num_batches = 1) then
           match grad_i_b with
           | [g] => grad ← lift (np_setitem i g grad); mret (fd, grad)
           | _ => raise ValueError
           end
         else
           _ ← lift (py_assert (bool_decide
                      (length (strided_slots i num_parameters (length grad))
                       = length grad_i_b)));
           mret (fd, np_set_strided i num_parameters grad_i_b grad))
      (fd, grad);
  mret grad.

(** The initial parameters of [fit]: [mu0] is a scalar and the coefficients
    one vector each, or [mu0] is an [ndarray] and the coefficients are
    given per batch member. *)
Inductive InitParams : Type :=
| InitScalar (mu0 : R) (ar_params0 ma_params0 : list R)
| InitBatched (mu0 : list R) (ar_params0 ma_params0 : list (list R)).

(** The closure [f] of [fit], lines 151-156. *)
Definition fit_f (y : Matrix R) (order : Order) (gpu : bool)
    (num_batches num_parameters num_samples : nat) (x : list R)
  : M R (list R) :=
  ll ← ll_f num_batches num_parameters order y x gpu true;
  np_vec_scalar OpDiv (np_neg ll) (num_of_Z (Z.of_nat num_samples - 1)).

(** The closure [gf] of [fit], lines 160-164. *)
Definition fit_gf (y : Matrix R) (order : Order) (h : R) (gpu : bool)
    (num_batches num_parameters num_samples : nat) (x : list R)
  : M R (list R) :=
  g ← ll_gf num_batches num_parameters order y x h gpu true;
  np_vec_scalar OpDiv (np_neg g) (num_of_Z (Z.of_nat num_samples - 1)).

(** The set-up of [x0] in [fit], lines 167-181. *)
Definition fit_x0 (p q num_batches : nat) (init : InitParams)
  : M R (list R) :=
  x0 ← match init with
       | InitScalar mu0 ar_params0 ma_params0 =>
           ar0_2 ← call CallArInvTrans (fun fm => sm_ar_invtransparams fm ar_params0);
           ma0_2 ← call CallMaInvTrans (fun fm => sm_ma_invtransparams fm ma_params0);
           mret (np_tile (([mu0] ++ ar0_2) ++ ma0_2) num_batches)
       | InitBatched mu0 ar_params0 ma_params0 =>
           x0 ← lift (pack p q num_batches mu0 ar_params0 ma_params0);
           batch_invtrans p q num_batches x0
       end;
  if existsb num_isnan x0 || existsb num_isinf x0
  then raise FloatingPointError
  else mret x0.

Definition fit_warning : string :=
  "WARNING(`fit()`): Some batch members had optimizer problems.".

(** [fit(y, order, mu0, ar_params0, ma_params0, opt_disp, h, gpu)],
    lines 130-197. *)
Definition fit (y : Matrix R) (order : Order) (init : InitParams)
    (opt_disp : Z) (h : R) (gpu : bool) : M R ModelRef :=
  _ ← np_seterr FpRaise;
  let '(p, d, q) := order in
  let num_parameters := 1 + p + q in
  let num_samples := n_rows y in
  let num_batches := n_cols y in
  x0 ← fit_x0 p q num_batches init;
  _ ← observe CallOptimizer;
  fm ← get_mode;
  '(x, n, flags) ←
    run_opt (batched_fmin_lbfgs_b fm x0 num_batches opt_disp)
            (fit_f y order gpu num_batches num_parameters num_samples)
            (fit_gf y order h gpu num_batches num_parameters num_samples);
  _ ← (if existsb (fun fl => negb (bool_decide (fl = 0%Z))) flags
       then print fit_warning else mret tt);
  Tx ← batch_trans p q num_batches x;
  '(mu, ar, ma) ← lift (unpack p q num_batches Tx);
  fit_model ← ARIMAModel_init (replicate num_batches (OrderTuple p d q)) mu ar ma y;
  _ ← update_model fit_model (set_niter (Some n));
  mret fit_model.

(** [fc_single(num_steps, order, y_diff, vs, mu, ma_params, ar_params)],
    lines 294-317. *)
Definition fc_single (num_steps : nat) (order : PyOrder) (y_diff vs : list R)
    (mu : R) (ma_params ar_params : list R) : M R (list R) :=
  '(p, _, q) ← lift (order_tuple order);
  let y_ := np_zeros (p + num_steps) in
  let vs_ := np_zeros (q + num_steps) in
  y_ ← (if decide (0 < p) then lift (np_set_slice 0 p (py_last p y_diff) y_)
        else mret y_);
  vs_ ← (if decide (0 < q) then lift (np_set_slice 0 q (py_last q vs) vs_)
         else mret vs_);
  let fcast := np_zeros num_steps in
  '(_, fcast) ← for_rangeM num_steps
      (fun i '(y_, fcast) =>
         s ← fp_run (fp_sum ar_params);
         t ← fp_run (fp_op OpSub num_one s);
         mu_star ← fp_run (fp_op OpMul mu t);
         f ← (if decide (0 < p) then
                d ← np_dot ar_params (py_slice i (i + p) y_);
                fp_run (fp_op OpAdd mu_star d)
              else mret mu_star);
         f ← (if decide (0 < q ∧ i < q) then
                d ← np_dot ma_params (py_slice i (i + q) vs_);
                fp_run (fp_op OpAdd f d)
              else mret f);
         fcast ← lift (np_setitem i f fcast);
         y_ ← (if decide (0 < p) then lift (np_setitem (i + p) f y_)
               else mret y_);
         mret (y_, fcast))
      (y_, fcast);
  mret fcast.

(** [undifference(x, x0)], lines 402-405. *)
Definition undifference (x : list R) (x0 : R) : M R (list R) :=
  let xi := x0 :: x in
  fp_run (fp_cumsum xi).

(** [forecast(model, nsteps)], lines 320-339. *)
Definition forecast (model : ModelRef) (nsteps : nat) : M R (Matrix R) :=
  m ← get_model model;
  let y_fc_b := mat_zeros nsteps (num_batches m) in
  '(_, vs) ← run_kalman model true false;
  for_rangeM (num_batches m)
    (fun i y_fc_b =>
       o ← lift (py_index (order m) i);
       '(p, d, q) ← lift (order_tuple o);
       vsi ← lift (mat_column vs i);
       yi ← lift (mat_column (y m) i);
       ydiff_i ← fp_run (fp_diff yi);
       mu_i ← lift (py_index (mu m) i);
       ma_i ← lift (py_index (ma_params m) i);
       ar_i ← lift (py_index (ar_params m) i);
       fc ← fc_single nsteps (OrderTuple p d q) ydiff_i vsi mu_i ma_i ar_i;
       fc ← (if decide (0 < d)%Z then
               y_last ← lift (mat_last_at (y m) i);
               u ← undifference fc y_last;
               mret (py_slice_from 1 u)
             else mret fc);
       lift (mat_set_column i fc y_fc_b))
    y_fc_b.

(** [predict_in_sample(model, gpu)], lines 253-292.  The variable [y_diff]
    is bound only when [d == 1], the one case in which it is read. *)
Definition predict_in_sample (model : ModelRef) (gpu : bool)
  : M R (Matrix R) :=
  '(_, vs) ← run_kalman model gpu false;
  m ← get_model model;
  _ ← lift (assert_same_d (order m));
  o ← lift (py_index (order m) 0);
  '(_, d, _) ← lift (order_tuple o);
  '(y_p, y_diff) ←
    (if decide (d = 0%Z) then
       y_p ← np_mat_op OpSub (y m) vs;
       mret (y_p, mat_zeros 0 0)
     else if decide (d = 1%Z) then
       y_diff ← fp_run (fp_mat_diff (y m));
       predict ← np_mat_op OpSub y_diff vs;
       y_p ← np_mat_op OpAdd (mat_init_rows (y m)) predict;
       mret (y_p, y_diff)
     else raise NotImplementedError);
  y_p ← (if decide (d = 1%Z) then
           fc1 ← for_rangeM (num_batches m)
               (fun i fc1 =>
                  oi ← lift (py_index (order m) i);
                  ydi ← lift (mat_column y_diff i);
                  vsi ← lift (mat_column vs i);
                  mu_i ← lift (py_index (mu m) i);
                  ma_i ← lift (py_index (ma_params m) i);
                  ar_i ← lift (py_index (ar_params m) i);
                  fc ← fc_single 1 oi ydi vsi mu_i ma_i ar_i;
                  match fc with
                  | [v] => lift (np_setitem i v fc1)
                  | _ => raise ValueError
                  end)
               (np_zeros (num_batches m));
           y_last ← lift (mat_last_row (y m));
           final_term ← np_vec_op OpAdd y_last fc1;
           lift (mat_append_row y_p final_term)
         else mret y_p);
  _ ← update_model model (set_yp (Some y_p));
  mret y_p.

(** The elements of [[... for (i, lli) in enumerate(llb)]]. *)
Definition list_comp (llb : list R) (f : nat -> R -> M R R) : M R (list R) :=
  for_rangeM (length llb)
    (fun i acc => lli ← lift (py_index llb i); v ← f i lli; mret (acc ++ [v]))
    [].

(** The property [ARIMAModel.bic], lines 46-50. *)
Definition bic (self : ModelRef) : M R (list R) :=
  llb ← loglike self true;
  list_comp llb (fun i lli =>
    a ← fp_run (fp_op OpMul (num_of_Z (-2)) lli);
    m ← get_model self;
    l ← fp_run (np_log (num_of_Z (Z.of_nat (n_rows (y m)))));
    o ← lift (py_index (order m) i);
    c ← lift (_model_complexity o);
    b ← fp_run (fp_op OpMul l (num_of_Z (Z.of_nat c)));
    fp_run (fp_op OpAdd a b)).

(** The property [ARIMAModel.aic], lines 52-56. *)
Definition aic (self : ModelRef) : M R (list R) :=
  llb ← loglike self true;
  list_comp llb (fun i lli =>
    a ← fp_run (fp_op OpMul (num_of_Z (-2)) lli);
    m ← get_model self;
    o ← lift (py_index (order m) i);
    c ← lift (_model_complexity o);
    fp_run (fp_op OpAdd a (num_of_Z (2 * Z.of_nat c)))).

Context {FC : FloatConsts R}.

(** The replace-if-better step of [grid_search] for member [i],
    lines 468-473. *)
Definition grid_search_update (best_model b_model : ModelRef) (o : PyOrder)
    (ic : list R) (i : nat) (best_ic : list R) : M R (list R) :=
  ic_i ← lift (py_index ic i);
  b ← lift (py_index best_ic i);
  if num_ltb ic_i b then
    bm ← get_model best_model;
    v ← lift (np_setitem i o (order bm));
    _ ← update_model best_model (set_order v);
    fm ← get_model b_model;
    c ← lift (py_index (mu fm) i);
    bm ← get_model best_model;
    v ← lift (np_setitem i c (mu bm));
    _ ← update_model best_model (set_mu v);
    fm ← get_model b_model;
    c ← lift (py_index (ar_params fm) i);
    bm ← get_model best_model;
    v ← lift (np_setitem i c (ar_params bm));
    _ ← update_model best_model (set_ar_params v);
    fm ← get_model b_model;
    c ← lift (py_index (ma_params fm) i);
    bm ← get_model best_model;
    v ← lift (np_setitem i c (ma_params bm));
    _ ← update_model best_model (set_ma_params v);
    lift (np_setitem i ic_i best_ic)
  else mret best_ic.

(** One candidate [(p, q)] of [grid_search], lines 455-473. *)
Definition grid_search_cell (y_b : Matrix R) (d : Z) (method : string)
    (best_model : ModelRef) (p q : nat) (best_ic : list R) : M R (list R) :=
  if decide (p = 0 ∧ q = 0) then mret best_ic
  else
    b_model ← fit y_b (p, d, q) (InitScalar num_zero (np_zeros p) (np_zeros q))
                  (-1) num_1e_9 true;
    ic ← (if decide (method = "aic") then aic b_model
          else if decide (method = "bic") then bic b_model
          else raise NotImplementedError);
    for_rangeM (length ic)
      (grid_search_update best_model b_model (OrderTuple p d q) ic) best_ic.

(** [grid_search(y_b, d, max_p, max_q, method)], lines 435-475. *)
Definition grid_search (y_b : Matrix R) (d : Z) (max_p max_q : nat)
    (method : string) : M R (ModelRef * list R) :=
  let num_batches := n_cols y_b in
  bound ← fp_run (fp_op OpDiv num_finfo_max (num_of_Z 2));
  let best_ic := replicate num_batches bound in
  best_model ← ARIMAModel_init (replicate num_batches OrderEmpty)
                               (np_zeros num_batches)
                               (replicate num_batches [])
                               (replicate num_batches []) y_b;
  best_ic ← for_rangeM max_p
      (fun p best_ic =>
         for_rangeM max_q (grid_search_cell y_b d method best_model p) best_ic)
      best_ic;
  mret (best_model, best_ic).
End Program.

(** ** Instances *)

(** numpy's [float64]. *)
#[global] Instance float64 : Numeric float := {
  num_zero := 0%float;
  num_one := 1%float;
  num_add := PrimFloat.add;
  num_sub := PrimFloat.sub;
  num_mul := PrimFloat.mul;
  num_div := PrimFloat.div;
  num_neg := PrimFloat.opp;
  num_ltb := PrimFloat.ltb;
  num_isnan := PrimFloat.is_nan;
  num_isinf := PrimFloat.is_infinity;
  num_of_Z := fun z => match z with
                       | Z0 => 0%float
                       | Zpos _ => PrimFloat.of_uint63 (Uint63.of_Z z)
                       | Zneg _ => PrimFloat.opp (PrimFloat.of_uint63 (Uint63.of_Z (- z)))
                       end
}.

#[global] Instance float64_consts : FloatConsts float := {
  num_finfo_max := 0x1.fffffffffffffp+1023%float;
  num_1e_9 := 0x1.12e0be826d695p-30%float
}.

Definition float_finite (x : float) : bool :=
  negb (PrimFloat.is_nan x || PrimFloat.is_infinity x).

(** The flags of a [float64] operation as they can be read off its operands
    and its result: invalid (a NaN out of numbers) and overflow or divide by
    zero (an infinity out of finite numbers).  Underflow, whose detection
    depends on the platform, is not represented. *)
#[global] Instance float64_flags : FpFlags float := {
  signals := fun op a b =>
    let r := apply_op op a b in
    (PrimFloat.is_nan r && negb (PrimFloat.is_nan a) && negb (PrimFloat.is_nan b))
    || (PrimFloat.is_infinity r && float_finite a && float_finite b)
}.

(** Exact integers (an integer dtype away from its bounds).  Division, which
    numpy computes in floating point, has no exact counterpart: [num_div] is
    the floor quotient and no statement below relies on it. *)
#[global] Instance int_exact : Numeric Z := {
  num_zero := 0%Z;
  num_one := 1%Z;
  num_add := Z.add;
  num_sub := Z.sub;
  num_mul := Z.mul;
  num_div := Z.div;
  num_neg := Z.opp;
  num_ltb := Z.ltb;
  num_isnan := fun _ => false;
  num_isinf := fun _ => false;
  num_of_Z := fun z => z
}.

(** Integer arithmetic sets no IEEE flag. *)
#[global] Instance int_flags : FpFlags Z := {
  signals := fun _ _ _ => false
}.

(** A small instance of the collaborators, for concrete runs: identity
    transforms, a kernel that reports log-likelihood [ll] and innovations 0
    for every series, and a minimizer that evaluates [f] and then [gf] at
    [x0] and returns [x0] after 3 iterations with status 1 for every batch
    member.  The logarithm is not evaluated in the runs below. *)
Definition demo_externals (ll : float) : Externals float := {|
  kalman_matrices := unit;
  sm_ar_transparams := fun _ a => Ok a;
  sm_ma_transparams := fun _ a => Ok a;
  sm_ar_invtransparams := fun _ a => Ok a;
  sm_ma_invtransparams := fun _ a => Ok a;
  init_batched_kalman_matrices := fun _ _ _ => Ok tt;
  batched_kfilter := fun _ y _ _ _ =>
    Ok (replicate (n_cols y) ll, mat_zeros (n_rows y) (n_cols y));
  batched_fmin_lbfgs_b := fun _ x0 nb _ =>
    OptEvalF x0 (fun _ _ => OptEvalG x0 (fun _ _ => OptReturn x0 3 (replicate nb 1%Z)));
  np_log := fun x => (x, false)
|}.

(** The world a fresh Python process starts in. *)
Definition world0 {R} : World R := mkWorld FpWarn [] [] [].

(** ** Notions used in the statements *)

Section Notions.
Context {R : Type} {NR : Numeric R}.

(** The block of batch member [i] in the flat parameter vector. *)
Definition member_block (mu : list R) (ar ma : list (list R)) (i : nat) : list R :=
  (default num_zero (mu !! i) :: default [] (ar !! i)) ++ default [] (ma !! i).

(** The first [n] blocks, one after the other. *)
Definition member_blocks (mu : list R) (ar ma : list (list R)) (n : nat) : list R :=
  concat (member_block mu ar ma <$> seq 0 n).
End Notions.

Section Triples.
Context {R : Type}.

(** [hoare P m Q E]: from a world in [P], [m] ends in [Q] when it returns
    and in [E] when it raises. *)
Definition hoare {A} (P : World R -> Prop) (m : M R A)
    (Q : A -> World R -> Prop) (E : exn -> World R -> Prop) : Prop :=
  forall w, P w ->
    match m w with
    | (Ok a, w') => Q a w'
    | (Err e, w') => E e w'
    end.

(** [m] keeps the world in [I], whether it returns or raises. *)
Definition preserves {A} (I : World R -> Prop) (m : M R A) : Prop :=
  hoare I m (fun _ => I) (fun _ => I).

(** [w] differs from [w0] at most in the log of observed calls. *)
Definition frame (w0 w : World R) : Prop :=
  fp_mode w = fp_mode w0 /\ stdout w = stdout w0 /\ heap w = heap w0.
End Triples.

(** The numpy call [c] does not trap in world [w]. *)
Definition quiet {R A} (w : World R) (c : Fp A) : Prop :=
  fp_mode w = FpWarn \/ snd c = false.

(** The running sums of [l] on top of [acc]: [acc + l0], [acc + l0 + l1],
    ... *)
Fixpoint running_sums {R} {NR : Numeric R} (acc : R) (l : list R) : list R :=
  match l with
  | [] => []
  | v :: l' => num_add acc v :: running_sums (num_add acc v) l'
  end.

(** Exact arithmetic: adding a difference back gives the minuend. *)
Definition exact_add_sub (R : Type) {NR : Numeric R} : Prop :=
  forall a b : R, num_add a (num_sub b a) = b.

Section ForecastNotions.
Context {R : Type} {NR : Numeric R} {FR : FpFlags R}.

(** The value [fc_single] gives to the next step, [prev] being the forecasts
    made so far: [mu * (1 - sum(ar))], plus the dot product of [ar] with the
    trailing [p] values of the history followed by [prev], plus, while the
    step index is below [q], the dot product of [ma] with the window of the
    last [q] innovations (zero beyond them). *)
Definition fc_step (p q n : nat) (y_diff vs : list R) (mu : R)
    (ma ar : list R) (prev : list R) : R :=
  let i := length prev in
  let mu_star := num_mul mu (num_sub num_one (fst (fp_sum ar))) in
  let y_buf := py_last p y_diff ++ prev in
  let vs_buf := py_last q vs ++ np_zeros n in
  let f := if decide (0 < p)
           then num_add mu_star (fst (fp_dot ar (py_last p y_buf)))
           else mu_star in
  if decide (0 < q /\ i < q)
  then num_add f (fst (fp_dot ma (py_slice i (i + q) vs_buf)))
  else f.
End ForecastNotions.

Section ForecastLaw.
Context {R : Type} {NR : Numeric R}.

(** [a.sum()]: the entries added up from zero, left to right. *)
Definition sum_of (a : list R) : R := foldl num_add num_zero a.

(** The dot product of [a] and [b]: the products added up from zero, left
    to right. *)
Definition dot_of (a b : list R) : R :=
  foldl num_add num_zero (zip_with num_mul a b).

(** The forecast of the next step, [prev] being the forecasts of the steps
    before it: [mu * (1 - sum(ar))]; plus, if [p > 0], the dot product of
    [ar] with the trailing [p] values of the history followed by [prev];
    plus, if [q > 0] and the step index is below [q], the dot product of
    [ma] with the innovations from the step index on, padded with zeros. *)
Definition forecast_law (p q : nat) (y_diff vs : list R) (mu : R)
    (ar ma : list R) (prev : list R) : R :=
  let i := length prev in
  let base := num_mul mu (num_sub num_one (sum_of ar)) in
  let with_ar :=
    if decide (0 < p)
    then num_add base (dot_of ar (py_last p (py_last p y_diff ++ prev)))
    else base in
  if decide (0 < q /\ i < q)
  then num_add with_ar (dot_of ma (drop i (py_last q vs) ++ replicate i num_zero))
  else with_ar.

(** [n] more steps of a law, each new value appended to [prev]. *)
Fixpoint forecasts_from (law : list R -> R) (n : nat) (prev : list R) : list R :=
  match n with
  | 0 => prev
  | S n' => forecasts_from law n' (prev ++ [law prev])
  end.

(** The forecasts of [n] steps. *)
Definition forecast_values (n p q : nat) (y_diff vs : list R) (mu : R)
    (ar ma : list R) : list R :=
  forecasts_from (forecast_law p q y_diff vs mu ar ma) n [].
End ForecastLaw.

Section TrapOnly.
Context {R : Type}.

(** [w] with permissive trapping. *)
Definition warned (w : World R) : World R :=
  mkWorld FpWarn (calls w) (stdout w) (heap w).

(** [c] leaves the world alone, and the trap mode matters to it only in
    that strict trapping can turn a run into a [FloatingPointError]. *)
Definition trap_only {A} (c : M R A) : Prop :=
  forall w,
    match c w with
    | (Ok a, w') => w' = w /\ c (warned w) = (Ok a, warned w)
    | (Err e, w') =>
        w' = w /\
        ((e = FloatingPointError /\ fp_mode w = FpRaise) \/
         c (warned w) = (Err e, warned w))
    end.
End TrapOnly.

Section RunNotions.
Context {R : Type}.

(** The world after a call of [r] has been observed. *)
Definition logged (r : Routine) (w : World R) : World R :=
  mkWorld (fp_mode w) (calls w ++ [(r, fp_mode w)]) (stdout w) (heap w).

(** [m] raises in world [w]. *)
Definition fails {A} (m : M R A) (w : World R) : Prop :=
  exists e w', m w = (Err e, w').

(** Every entry of [os] is a tuple with differencing order [d], and there
    is at least one. *)
Definition uniform_d (os : list PyOrder) (d : Z) : Prop :=
  os <> [] /\ Forall (fun o => exists p q, o = OrderTuple p d q) os.
End RunNotions.

(** A batch of two constant series of three samples. *)
Definition demo_y : Matrix float := mkMatrix 3 [[5; 5; 5]; [5; 5; 5]]%float.

(** The all-mean model with [mu = 5] on [demo_y], differencing order [d]. *)
Definition demo_model (d : Z) : ARIMAModel float :=
  mkARIMAModel [OrderTuple 0 d 0; OrderTuple 0 d 0] [5; 5]%float [[]; []] [[]; []]
               demo_y 3 2 None None.

(** A world whose only object is [demo_model d]. *)
Definition demo_world (d : Z) : World float := mkWorld FpWarn [] [] [demo_model d].

(** [m'] is [m] up to the cached prediction [yp]. *)
Definition same_but_yp {R} (m m' : ARIMAModel R) : Prop :=
  order m' = order m /\ mu m' = mu m /\ ar_params m' = ar_params m /\
  ma_params m' = ma_params m /\ y m' = y m /\ num_samples m' = num_samples m /\
  num_batches m' = num_batches m /\ niter m' = niter m.

(** The trap mode each observed call is made under, as the code has it:
    the coefficient transforms, the minimizer and the central difference
    run under [FpRaise], the Kalman routines under [FpWarn]. *)
Definition observed_as_coded (ev : Routine * FpMode) : Prop :=
  match fst ev with
  | CallKalmanInit | CallKalmanFilter => snd ev = FpWarn
  | _ => snd ev = FpRaise
  end.

(** The trap mode each observed call would be made under if trapping were
    strict throughout and permissive exactly around the forward transform
    (the inverse transform is left free). *)
Definition observed_as_claimed (ev : Routine * FpMode) : Prop :=
  match fst ev with
  | CallArTrans | CallMaTrans => snd ev = FpWarn
  | CallArInvTrans | CallMaInvTrans => True
  | _ => snd ev = FpRaise
  end.

(** [w] extends the log of [w0] by calls made as coded. *)
Definition extends_coded {R} (w0 w : World R) : Prop :=
  exists t, calls w = calls w0 ++ t /\ Forall observed_as_coded t.

(** ... and is in trap mode [m]. *)
Definition extends_coded_in {R} (w0 : World R) (m : FpMode) (w : World R) : Prop :=
  extends_coded w0 w /\ fp_mode w = m.

(** The forward transform of the second instance below: the identity, but
    under strict trapping it raises [FloatingPointError] when a coefficient
    is below -709, where [exp(-x)] overflows. *)
Definition probe_transparams (fm : FpMode) (a : list float) : res (list float) :=
  match fm with
  | FpRaise =>
      if existsb (fun v => PrimFloat.ltb v (-709)%float) a
      then Err FloatingPointError else Ok a
  | FpWarn => Ok a
  end.

(** A second instance of the collaborators, for runs that depend on the
    parameters: forward transforms as above, identity inverse transforms, a
    kernel that reports for every series its first AR coefficient (0 if it
    has none) and innovations 0, and a minimizer that returns [x_opt] at
    once, after 3 iterations with status 1 for every batch member. *)
Definition probe_externals (x_opt : list float) : Externals float := {|
  kalman_matrices := list (list float);
  sm_ar_transparams := probe_transparams;
  sm_ma_transparams := probe_transparams;
  sm_ar_invtransparams := fun _ a => Ok a;
  sm_ma_invtransparams := fun _ a => Ok a;
  init_batched_kalman_matrices := fun _ ar _ => Ok ar;
  batched_kfilter := fun _ y km _ _ =>
    Ok ((fun a => default 0%float (head a)) <$> km, mat_zeros (n_rows y) (n_cols y));
  batched_fmin_lbfgs_b := fun _ _ nb _ => OptReturn x_opt 3 (replicate nb 1%Z);
  np_log := fun x => (x, false)
|}.

(** The perturbation of parameter [i] by [h], duplicated across the batch:
    [fdph = np.tile(fd, num_batches)] with [fd[i] = h]. *)
Definition perturbation {R} {NR : Numeric R} (num_parameters num_batches i : nat) (h : R)
  : list R :=
  np_tile (<[i:=h]> (np_zeros num_parameters)) num_batches.
(** No pair of entries of [a] and [b] at one index raises a floating-point
    flag under [op]. *)
Definition flagless {R} {FR : FpFlags R} (op : ArithOp) (a b : list R) : Prop :=
  forall k u v, a !! k = Some u -> b !! k = Some v -> signals op u v = false.

(** The world in which iteration [i] of the loop of [ll_gf] starts: the
    world left by the two evaluations and the central difference of each
    earlier iteration. *)
Fixpoint gradient_world {R} {NR : Numeric R} {FR : FpFlags R} {ER : Externals R}
    (nb np : nat) (o : Order) (y : Matrix R) (x : list R) (h : R) (gpu trans : bool)
    (w : World R) (i : nat) : World R :=
  match i with
  | 0 => w
  | S j =>
      let d := perturbation np nb j h in
      let wj := gradient_world nb np o y x h gpu trans w j in
      let wp := snd (ll_f nb np o y (zip_with num_add x d) gpu trans wj) in
      let wm := snd (ll_f nb np o y (zip_with num_sub x d) gpu trans wp) in
      logged CallCentralDiff (snd (np_seterr FpRaise wm))
  end.

(** Member [i] of model [m] is as [grid_search] creates it: the order [[]],
    mean 0 and no coefficients. *)
Definition placeholder_at {R} {NR : Numeric R} (i : nat) (m : ARIMAModel R) : Prop :=
  order m !! i = Some OrderEmpty /\ mu m !! i = Some num_zero /\
  ar_params m !! i = Some [] /\ ma_params m !! i = Some [].

(** The initial best score of [grid_search]:
    [np.finfo(np.float64).max / 2]. *)
Definition grid_search_bound {R} {NR : Numeric R} {FC : FloatConsts R} : R :=
  num_div num_finfo_max (num_of_Z 2).

(** The information criterion [grid_search] reads off a fitted model. *)
Definition grid_search_criterion {R} {NR : Numeric R} {FR : FpFlags R} {ER : Externals R}
    (method : string) (b_model : ModelRef) : M R (list R) :=
  if decide (method = "aic") then aic b_model
  else if decide (method = "bic") then bic b_model
  else raise NotImplementedError.

Section Criteria.
Context {R : Type} {NR : Numeric R} {ER : Externals R}.

(** Akaike's criterion of one member: [-2 * ll + 2 * (1 + p + q)]. *)
Definition aic_value (ll : R) (p q : nat) : R :=
  num_add (num_mul (num_of_Z (-2)) ll) (num_of_Z (2 * Z.of_nat (1 + p + q))).

(** The Bayesian criterion of one member:
    [-2 * ll + log(num_samples) * (1 + p + q)]. *)
Definition bic_value (num_samples : nat) (ll : R) (p q : nat) : R :=
  num_add (num_mul (num_of_Z (-2)) ll)
          (num_mul (fst (np_log (num_of_Z (Z.of_nat num_samples))))
                   (num_of_Z (Z.of_nat (1 + p + q)))).
End Criteria.

(** The calls [batch_trans] makes for [nb] members, with the trap mode they
    are made under. *)
Definition transform_calls (nb : nat) : list (Routine * FpMode) :=
  concat (replicate nb [(CallArTrans, FpRaise); (CallMaTrans, FpRaise)]).

(** Collaborators whose filter reports half of every observation as its
    innovation (and log-likelihood 0); the transforms are identities and
    the minimizer returns its starting point. *)
Definition halving_externals : Externals float := {|
  kalman_matrices := unit;
  sm_ar_transparams := fun _ a => Ok a;
  sm_ma_transparams := fun _ a => Ok a;
  sm_ar_invtransparams := fun _ a => Ok a;
  sm_ma_invtransparams := fun _ a => Ok a;
  init_batched_kalman_matrices := fun _ _ _ => Ok tt;
  batched_kfilter := fun _ y _ _ _ =>
    Ok (replicate (n_cols y) 0%float,
        mkMatrix (n_rows y) ((fun c : list float => (fun v => PrimFloat.mul v 0.5) <$> c) <$> columns y));
  batched_fmin_lbfgs_b := fun _ x0 nb _ => OptReturn x0 0 (replicate nb 0%Z);
  np_log := fun x => (x, false)
|}.

Section ForecastMember.
Context {R : Type} {NR : Numeric R}.

(** [np.diff(c)] without its flags: [c[k+1] - c[k]]. *)
Definition differences (c : list R) : list R := zip_with num_sub (tail c) c.

(** The forecast of one batch member: the values of [fc_single] on the
    differenced series, summed up from the last observation when the
    member is differenced ([d > 0]). *)
Definition forecast_member (nsteps : nat) (o : PyOrder) (c cv : list R) (mu_i : R)
    (ar ma : list R) : list R :=
  match o with
  | OrderTuple p d q =>
      let fv := forecast_values nsteps p q (differences c) cv mu_i ar ma in
      if decide (0 < d)%Z then running_sums (default num_zero (last c)) fv else fv
  | OrderEmpty => []
  end.
End ForecastMember.

(** * Properties *)

(** * Properties *)

(** ** Loops *)

Section Loops.
Context {S : Type}.

Lemma for_each_seq_inv (P : nat -> S -> Prop) (body : nat -> S -> res S) k a s :
  P a s ->
  (forall i s, a <= i < a + k -> P i s -> exists s', body i s = Ok s' /\ P (1 + i) s') ->
  exists s', for_each body (seq a k) s = Ok s' /\ P (a + k) s'.
Proof.
  revert a s. induction k as [|k IH]; intros a s HP Hstep; simpl.
  - exists s. by rewrite Nat.add_0_r.
  - destruct (Hstep a s) as (s1 & -> & HP1); [lia | done |].
    destruct (IH (1 + a) s1) as (s2 & Hs2 & HP2); [done | |].
    + intros i s' Hi. apply Hstep. lia.
    + exists s2. split; [done|]. by replace (a + Datatypes.S k) with (1 + a + k) by lia.
Qed.

Lemma for_range_inv (P : nat -> S -> Prop) n (body : nat -> S -> res S) s :
  P 0 s ->
  (forall i s, i < n -> P i s -> exists s', body i s = Ok s' /\ P (1 + i) s') ->
  exists s', for_range n body s = Ok s' /\ P n s'.
Proof.
  intros HP Hstep. unfold for_range.
  destruct (for_each_seq_inv P body n 0 s) as (s' & ? & ?); [done | | by exists s'].
  intros i s' Hi. apply Hstep. lia.
Qed.

(** A loop whose body can only raise [e] and does raise at some index
    raises [e]. *)
Lemma for_each_raises (body : nat -> S -> res S) (e : exn) l s i :
  (forall j s e', body j s = Err e' -> e' = e) ->
  i ∈ l -> (forall s, body i s = Err e) ->
  for_each body l s = Err e.
Proof.
  intros Honly Hin Hi. revert s. induction l as [|j l IH]; intros s.
  - by apply elem_of_nil in Hin.
  - simpl. destruct (body j s) as [s'|e'] eqn:Hb.
    + apply elem_of_cons in Hin as [->|Hin]; [by rewrite Hi in Hb | by apply IH].
    + by rewrite (Honly _ _ _ Hb).
Qed.
End Loops.

(** ** Python sequences *)

Section SequenceFacts.
Context {A : Type}.

Lemma res_bind_ok {B C} (a : B) (f : B -> res C) : (Ok a ≫= f) = f a.
Proof. done. Qed.

Lemma np_set_slice_app (pre old post v : list A) a b :
  length pre = a -> length old = b - a -> length v = length old ->
  np_set_slice a b v (pre ++ old ++ post) = Ok (pre ++ v ++ post).
Proof.
  intros Hpre Hold Hv. unfold np_set_slice, py_slice.
  rewrite drop_app_length' by done.
  rewrite take_app_length' by done.
  rewrite decide_True by done.
  rewrite take_app_length' by done.
  rewrite drop_app_add' by done.
  by rewrite drop_app_length' by done.
Qed.

(** The [i]-th of consecutive member_blocks of one length. *)
Lemma slice_concat (bs : list (list A)) n i b :
  Forall (fun c => length c = n) bs -> bs !! i = Some b ->
  py_slice (i * n) ((i + 1) * n) (concat bs) = b.
Proof.
  intros Hall. revert i b. induction Hall as [|c bs Hc Hall IH]; intros i b Hi; [done|].
  unfold py_slice in *. replace ((i + 1) * n - i * n) with n by lia.
  destruct i as [|i]; simpl in *.
  - injection Hi as ->. by rewrite drop_0, take_app_length'.
  - rewrite drop_app_add' by done. specialize (IH i b Hi).
    by replace ((i + 1) * n - i * n) with n in IH by lia.
Qed.
End SequenceFacts.

(** ** The parameter codec *)

Section CodecFacts.
Context {R : Type} {NR : Numeric R}.

Lemma blocks_S mu ar ma n :
  member_blocks mu ar ma (Datatypes.S n) = member_blocks mu ar ma n ++ member_block mu ar ma n.
Proof.
  unfold member_blocks. rewrite seq_S, fmap_app, concat_app. simpl. by rewrite app_nil_r.
Qed.

Lemma length_np_zeros n : length (np_zeros (R:=R) n) = n.
Proof. apply length_replicate. Qed.

Section Shapes.
Variables (p q nb : nat) (mu : list R) (ar ma : list (list R)).
Hypothesis Hmu : length mu = nb.
Hypothesis Har : length ar = nb.
Hypothesis Hma : length ma = nb.
Hypothesis Harp : Forall (fun a => length a = p) ar.
Hypothesis Hmaq : Forall (fun b => length b = q) ma.

Lemma block_lookup i :
  i < nb ->
  exists m a b, mu !! i = Some m /\ ar !! i = Some a /\ ma !! i = Some b /\
    length a = p /\ length b = q /\ member_block mu ar ma i = (m :: a) ++ b.
Proof.
  intros Hi.
  destruct (lookup_lt_is_Some_2 mu i) as [m Hm]; [lia|].
  destruct (lookup_lt_is_Some_2 ar i) as [a Ha]; [lia|].
  destruct (lookup_lt_is_Some_2 ma i) as [b Hb]; [lia|].
  exists m, a, b. unfold member_block. rewrite Hm, Ha, Hb. simpl.
  repeat split; try done.
  - exact (Forall_lookup_1 _ _ _ _ Harp Ha).
  - exact (Forall_lookup_1 _ _ _ _ Hmaq Hb).
Qed.

Lemma length_block i : i < nb -> length (member_block mu ar ma i) = 1 + p + q.
Proof.
  intros Hi. destruct (block_lookup i Hi) as (m & a & b & _ & _ & _ & Ha & Hb & ->).
  rewrite length_app. simpl. lia.
Qed.

Lemma length_blocks n : n <= nb -> length (member_blocks mu ar ma n) = n * (1 + p + q).
Proof.
  induction n as [|n IH]; intros Hn; [done|].
  rewrite blocks_S, length_app, IH, length_block by lia. lia.
Qed.

(** [pack] writes the member_blocks one after the other. *)
Lemma pack_blocks : pack p q nb mu ar ma = Ok (member_blocks mu ar ma nb).
Proof.
  unfold pack. cbv zeta. set (n := 1 + p + q).
  destruct (for_range_inv
    (fun i x => x = member_blocks mu ar ma i ++ np_zeros (n * (nb - i)))
    nb
    (fun i x =>
       m ← py_index mu i; a ← py_index ar i; b ← py_index ma i;
       np_set_slice (i * n) ((i + 1) * n) (([m] ++ a) ++ b) x)
    (np_zeros (n * nb))) as (x & Hx & HP).
  - by rewrite Nat.sub_0_r.
  - intros i x Hi ->.
    destruct (block_lookup i Hi) as (m & a & b & Hm & Ha & Hb & Hla & Hlb & Hblk).
    unfold py_index. rewrite Hm, Ha, Hb, !res_bind_ok.
    pose proof (length_blocks i ltac:(lia)) as Hlen. fold n in Hlen.
    replace (nb - i) with (1 + (nb - (1 + i))) by lia.
    rewrite Nat.mul_add_distr_l, Nat.mul_1_r.
    unfold np_zeros at 1. rewrite replicate_add. fold (np_zeros (R:=R) (n * (nb - (1 + i)))).
    rewrite np_set_slice_app.
    + eexists. split; [done|]. by rewrite blocks_S, Hblk, <- !app_assoc.
    + done.
    + rewrite length_replicate. lia.
    + rewrite length_replicate, length_app. simpl. lia.
  - rewrite Hx. f_equal. rewrite HP, Nat.sub_diag, Nat.mul_0_r. apply app_nil_r.
Qed.

Lemma blocks_lookup i :
  i < nb -> (member_block mu ar ma <$> seq 0 nb) !! i = Some (member_block mu ar ma i).
Proof. intros Hi. by rewrite list_lookup_fmap, lookup_seq_lt. Qed.

Lemma blocks_Forall :
  Forall (fun c => length c = 1 + p + q) (member_block mu ar ma <$> seq 0 nb).
Proof.
  apply Forall_fmap, Forall_forall. intros i Hi%elem_of_seq. apply length_block. lia.
Qed.

(** [unpack] reads the member_blocks back. *)
Lemma unpack_blocks : unpack p q nb (member_blocks mu ar ma nb) = Ok (mu, ar, ma).
Proof.
  unfold unpack. cbv zeta. set (n := 1 + p + q).
  match goal with |- for_range _ ?body ?s = _ =>
    destruct (for_range_inv
      (fun i '(mu', ar', ma') =>
         mu' = take i mu ++ np_zeros (nb - i) /\ ar' = take i ar /\ ma' = take i ma)
      nb body s) as ([[mu' ar'] ma'] & Hx & Hmu' & Har' & Hma')
  end.
  - by rewrite Nat.sub_0_r.
  - intros i [[mu' ar'] ma'] Hi (-> & -> & ->).
    destruct (block_lookup i Hi) as (m & a & b & Hm & Ha & Hb & Hla & Hlb & Hblk).
    unfold member_blocks. rewrite (slice_concat _ n i _ blocks_Forall (blocks_lookup i Hi)), Hblk.
    unfold py_index. simpl. unfold np_setitem.
    rewrite decide_True by (rewrite length_app, length_take, length_np_zeros; lia).
    simpl. eexists. split; [done|]. simpl.
    rewrite !(take_S_r _ _ _ Hm), !(take_S_r _ _ _ Ha), !(take_S_r _ _ _ Hb).
    split; [|split].
    + rewrite insert_app_r_alt by (rewrite length_take; lia).
      rewrite length_take, <- app_assoc. f_equal.
      replace (nb - i) with (1 + (nb - Datatypes.S i)) by lia.
      replace (i - i `min` length mu) with 0 by lia. done.
    + f_equal. f_equal. unfold py_slice. replace (p + 1 - 1) with p by lia.
      simpl. rewrite drop_0. by rewrite take_app_length'.
    + f_equal. f_equal. unfold py_slice_from. replace (p + 1) with (Datatypes.S p) by lia.
      simpl. by rewrite drop_app_length'.
  - rewrite Hx. subst. rewrite Nat.sub_diag. simpl. rewrite app_nil_r.
    by rewrite !firstn_all2 by lia.
Qed.
End Shapes.

(** Every exception of a step of [unpack] is an [IndexError]. *)
Lemma unpack_body_raises p q (x : list R) j s e :
  (let '(mu, ar, ma) := s in
   let xi := py_slice (j * (1 + p + q)) ((j + 1) * (1 + p + q)) x in
   v ← py_index xi 0; mu' ← np_setitem j v mu;
   Ok (mu', ar ++ [py_slice 1 (p + 1) xi], ma ++ [py_slice_from (p + 1) xi])) = Err e ->
  e = IndexError.
Proof.
  destruct s as [[mu ar] ma]. cbv zeta. unfold py_index, np_setitem.
  destruct (_ !! 0); simpl; [|congruence].
  case_decide; simpl; congruence.
Qed.

Lemma unpack_raises p q nb (x : list R) i :
  i < nb -> length x <= i * (1 + p + q) -> unpack p q nb x = Err IndexError.
Proof.
  intros Hi Hlen. unfold unpack, for_range. cbv zeta.
  eapply (for_each_raises _ IndexError _ _ i).
  - intros j s e. apply (unpack_body_raises p q x j s e).
  - apply elem_of_seq. lia.
  - intros [[mu ar] ma]. unfold py_slice, py_index.
    by rewrite (drop_ge x), take_nil by lia.
Qed.

Lemma unpack_returns p q nb (x : list R) :
  (forall i, i < nb -> i * (1 + p + q) < length x) ->
  exists r, unpack p q nb x = Ok r.
Proof.
  intros Hall. unfold unpack. cbv zeta.
  match goal with |- context [for_range _ ?body ?s] =>
    destruct (for_range_inv (fun _ '(mu', _, _) => length mu' = nb) nb body s)
      as (r & Hr & _)
  end.
  - apply length_np_zeros.
  - intros i [[mu' ar'] ma'] Hi Hmu'. specialize (Hall i Hi).
    unfold py_slice, py_index.
    replace ((i + 1) * (1 + p + q) - i * (1 + p + q)) with (Datatypes.S (p + q)) by lia.
    destruct (lookup_lt_is_Some_2 x (i * (1 + p + q)) Hall) as [v Hv].
    rewrite lookup_take_lt, lookup_drop, Nat.add_0_r, Hv by lia.
    rewrite res_bind_ok. unfold np_setitem. rewrite decide_True by lia.
    rewrite res_bind_ok. eexists. split; [done|]. simpl. by rewrite length_insert.
  - by exists r.
Qed.

Lemma length_np_set_slice a b (v l l' : list R) :
  np_set_slice a b v l = Ok l' -> length l' = length l.
Proof.
  unfold np_set_slice, py_slice. intros Hs.
  assert (Hgen : forall w : list R,
    length w = length (take (b - a) (drop a l)) ->
    length (take a l ++ w ++ drop (a + length (take (b - a) (drop a l))) l) = length l).
  { intros w Hw. rewrite !length_app, Hw.
    repeat rewrite ?length_take, ?length_drop. lia. }
  case_decide as Hd.
  - injection Hs as <-. by apply Hgen.
  - destruct v as [|c [|? ?]]; try done. injection Hs as <-.
    apply Hgen. by rewrite length_replicate.
Qed.

Lemma length_pack p q nb (mu : list R) ar ma x :
  pack p q nb mu ar ma = Ok x -> length x = nb * (1 + p + q).
Proof.
  unfold pack, for_range. cbv zeta.
  assert (Hgen : forall l (s s' : list R),
    for_each (fun i x => m ← py_index mu i; a ← py_index ar i; b ← py_index ma i;
                         np_set_slice (i * (1 + p + q)) ((i + 1) * (1 + p + q))
                                      (([m] ++ a) ++ b) x) l s = Ok s' ->
    length s' = length s).
  { induction l as [|i l IH]; intros s s' Hs; simpl in Hs.
    - by injection Hs as <-.
    - destruct (py_index mu i) as [m|]; [|done].
      destruct (py_index ar i) as [a|]; [|done].
      destruct (py_index ma i) as [b|]; [|done].
      rewrite !res_bind_ok in Hs.
      destruct (np_set_slice _ _ _ s) as [s1|] eqn:Hs1; [|done].
      rewrite (IH _ _ Hs). by apply length_np_set_slice in Hs1. }
  intros Hx. rewrite (Hgen _ _ _ Hx), length_np_zeros. lia.
Qed.
End CodecFacts.

(** C1: for batch-shaped inputs ([mu] of length [nb], [nb] AR vectors of
    length [p], [nb] MA vectors of length [q]) [pack] returns a flat vector
    of length [nb * (1 + p + q)] and [unpack] maps it back to exactly
    [(mu, ar, ma)]. *)
Theorem unpack_pack_roundtrip {R} {NR : Numeric R} (p q nb : nat) (mu : list R)
    (ar ma : list (list R)) :
  length mu = nb -> length ar = nb -> length ma = nb ->
  Forall (fun a => length a = p) ar -> Forall (fun b => length b = q) ma ->
  exists x, pack p q nb mu ar ma = Ok x /\ length x = nb * (1 + p + q) /\
            unpack p q nb x = Ok (mu, ar, ma).
Proof.
  intros Hmu Har Hma Hp Hq. exists (member_blocks mu ar ma nb). split; [|split].
  - by apply pack_blocks.
  - by apply (length_blocks p q nb).
  - by apply unpack_blocks.
Qed.

Lemma unpack_pack_roundtrip_witness :
  exists x, pack 1 2 2 [1; 4]%float [[2]; [5]]%float [[3; 3.5]; [6; 6.5]]%float = Ok x /\
            length x = 2 * (1 + 1 + 2) /\
            unpack 1 2 2 x = Ok ([1; 4], [[2]; [5]], [[3; 3.5]; [6; 6.5]])%float.
Proof.
  apply (unpack_pack_roundtrip 1 2 2); try reflexivity; repeat constructor.
Defined.

(** C8 (as stated): [unpack] does not raise on every vector whose length
    differs from [nb * (1 + p + q)]; a surplus entry is ignored. *)
Lemma unpack_surplus_no_error :
  length [1; 2]%float <> 1 * (1 + 0 + 0) /\
  unpack 0 0 1 [1; 2]%float = Ok ([1], [[]], [[]])%float.
Proof. split; [simpl; lia | reflexivity]. Qed.

(** C8 (amended): [unpack] raises [IndexError] exactly when some member's
    member_block starts at or beyond the end of [x]; otherwise it returns.  [pack]
    takes no flat vector; whenever it returns, its result has length
    [nb * (1 + p + q)]. *)
Theorem unpack_index_error_iff {R} {NR : Numeric R} (p q nb : nat) (x : list R) :
  (unpack p q nb x = Err IndexError <->
     0 < nb /\ length x <= (nb - 1) * (1 + p + q)) /\
  ((exists r, unpack p q nb x = Ok r) <->
     nb = 0 \/ (nb - 1) * (1 + p + q) < length x) /\
  (forall mu ar ma x', pack p q nb mu ar ma = Ok x' -> length x' = nb * (1 + p + q)).
Proof.
  assert (Hok : nb = 0 \/ (nb - 1) * (1 + p + q) < length x ->
                exists r, unpack p q nb x = Ok r).
  { intros Hc. apply unpack_returns. intros i Hi.
    destruct Hc as [->|Hc]; [lia|].
    eapply Nat.le_lt_trans; [|exact Hc]. apply Nat.mul_le_mono_r. lia. }
  assert (Herr : 0 < nb /\ length x <= (nb - 1) * (1 + p + q) ->
                 unpack p q nb x = Err IndexError).
  { intros [Hnb Hlen]. apply (unpack_raises p q nb x (nb - 1)); [lia | done]. }
  split; [|split].
  - split; [|done]. intros He.
    destruct (decide (nb = 0 \/ (nb - 1) * (1 + p + q) < length x)) as [Hc|Hc]; [|lia].
    destruct (Hok Hc) as [r Hr]. congruence.
  - split; [|done]. intros [r Hr].
    destruct (decide (0 < nb /\ length x <= (nb - 1) * (1 + p + q))) as [Hc|Hc]; [|lia].
    rewrite (Herr Hc) in Hr. done.
  - intros mu ar ma x'. apply length_pack.
Qed.

Section TripleFacts.
Context {R : Type}.
Implicit Types (P I : World R -> Prop) (E : exn -> World R -> Prop).

Lemma M_bind_unfold {A B} (m : M R A) (f : A -> M R B) w :
  (m ≫= f) w = match m w with (Ok a, w') => f a w' | (Err e, w') => (Err e, w') end.
Proof. done. Qed.

Lemma hoare_bind {A B} P (m : M R A) (f : A -> M R B) Q S E :
  hoare P m Q E -> (forall a, hoare (Q a) (f a) S E) -> hoare P (m ≫= f) S E.
Proof.
  intros Hm Hf w HP. rewrite M_bind_unfold. specialize (Hm w HP).
  destruct (m w) as [[a|e] w']; [by apply Hf | done].
Qed.

Lemma hoare_conseq {A} P P' (m : M R A) (Q Q' : A -> World R -> Prop) E E' :
  hoare P' m Q' E' -> (forall w, P w -> P' w) -> (forall a w, Q' a w -> Q a w) ->
  (forall e w, E' e w -> E e w) -> hoare P m Q E.
Proof.
  intros Hm HP HQ HE w Hw. specialize (Hm w (HP w Hw)).
  destruct (m w) as [[a|e] w']; auto.
Qed.

Lemma hoare_ret {A} P (a : A) (Q : A -> World R -> Prop) E :
  (forall w, P w -> Q a w) -> hoare P (mret a : M R A) Q E.
Proof. intros H w HP. by apply H. Qed.

Lemma hoare_raise {A} P (e : exn) (Q : A -> World R -> Prop) E :
  (forall w, P w -> E e w) -> hoare P (raise e : M R A) Q E.
Proof. intros H w HP. by apply H. Qed.

Lemma hoare_lift {A} P (r : res A) (Q : A -> World R -> Prop) E :
  (forall a w, r = Ok a -> P w -> Q a w) -> (forall e w, r = Err e -> P w -> E e w) ->
  hoare P (lift r) Q E.
Proof. intros HQ HE w HP. unfold lift. destruct r; auto. Qed.

Lemma hoare_forM {S} (Inv : nat -> S -> World R -> Prop) (body : nat -> S -> M R S) E a k s P
    (Q : S -> World R -> Prop) :
  (forall w, P w -> Inv a s w) ->
  (forall i s, a <= i < a + k -> hoare (Inv i s) (body i s) (Inv (1 + i)) E) ->
  (forall s w, Inv (a + k) s w -> Q s w) ->
  hoare P (forM body (seq a k) s) Q E.
Proof.
  revert a s P. induction k as [|k IH]; intros a s P HP Hbody HQ; simpl.
  - apply hoare_ret. intros w Hw. apply HQ. rewrite Nat.add_0_r. auto.
  - eapply hoare_bind.
    + eapply hoare_conseq; [apply (Hbody a s); lia | auto | intros ? ? Hx; exact Hx | auto].
    + intros s'. apply IH; [done | |].
      * intros i s0 Hi. apply Hbody. lia.
      * intros s0 w Hx. apply HQ. by replace (a + Datatypes.S k) with (Datatypes.S a + k) by lia.
Qed.

Lemma hoare_for_rangeM {S} (Inv : nat -> S -> World R -> Prop) n (body : nat -> S -> M R S) s P
    (Q : S -> World R -> Prop) E :
  (forall w, P w -> Inv 0 s w) ->
  (forall i s, i < n -> hoare (Inv i s) (body i s) (Inv (1 + i)) E) ->
  (forall s w, Inv n s w -> Q s w) ->
  hoare P (for_rangeM n body s) Q E.
Proof.
  intros HP Hbody HQ. unfold for_rangeM. eapply hoare_forM; [exact HP | | exact HQ].
  intros i s' Hi. apply Hbody. lia.
Qed.

(** *** Invariants *)

Lemma preserves_bind {A B} I (m : M R A) (f : A -> M R B) :
  preserves I m -> (forall a, preserves I (f a)) -> preserves I (m ≫= f).
Proof. intros Hm Hf. eapply hoare_bind; [exact Hm | exact Hf]. Qed.

Lemma preserves_ret {A} I (a : A) : preserves I (mret a : M R A).
Proof. by apply hoare_ret. Qed.

Lemma preserves_raise {A} I e : preserves I (raise e : M R A).
Proof. by apply hoare_raise. Qed.

Lemma preserves_lift {A} I (r : res A) : preserves I (lift r).
Proof. by apply hoare_lift. Qed.

Lemma preserves_get_mode I : preserves I (get_mode (R:=R)).
Proof. intros w HI. done. Qed.

Lemma preserves_forM {S} I (body : nat -> S -> M R S) l s :
  (forall i s, preserves I (body i s)) -> preserves I (forM body l s).
Proof.
  intros Hbody. revert s. induction l as [|i l IH]; intros s; simpl.
  - apply preserves_ret.
  - apply preserves_bind; [apply Hbody | apply IH].
Qed.

Lemma preserves_for_rangeM {S} I n (body : nat -> S -> M R S) s :
  (forall i s, preserves I (body i s)) -> preserves I (for_rangeM n body s).
Proof. apply preserves_forM. Qed.

Lemma preserves_get_model I r : preserves I (get_model (R:=R) r).
Proof. intros w HI. unfold get_model. by destruct (heap w !! r). Qed.

Lemma preserves_fp_run {NR : Numeric R} {FR : FpFlags R} {A} I (c : Fp A) :
  preserves I (fp_run c).
Proof. intros w HI. unfold fp_run. destruct (fp_mode w); [destruct (snd c)|]; done. Qed.

Lemma frame_refl (w : World R) : frame w w.
Proof. done. Qed.

Lemma preserves_frame_observe w0 r : preserves (frame w0) (observe (R:=R) r).
Proof. intros w HI. exact HI. Qed.

Lemma preserves_frame_call {A} w0 r (f : FpMode -> res A) :
  preserves (frame w0) (call (R:=R) r f).
Proof.
  unfold call. apply preserves_bind; [apply preserves_frame_observe|]. intros _.
  apply preserves_bind; [apply preserves_get_mode|]. intros fm. apply preserves_lift.
Qed.
End TripleFacts.

(** *** Stepping through a computation *)

Create HintDb preserves discriminated.

Ltac preserves_step :=
  lazymatch goal with
  | |- preserves _ (_ ≫= _) => apply preserves_bind; [|intros ?]
  | |- preserves _ (mret _) => apply preserves_ret
  | |- preserves _ (raise _) => apply preserves_raise
  | |- preserves _ (lift _) => apply preserves_lift
  | |- preserves _ (fp_run _) => apply preserves_fp_run
  | |- preserves _ get_mode => apply preserves_get_mode
  | |- preserves _ (get_model _) => apply preserves_get_model
  | |- preserves _ (for_rangeM _ _ _) => apply preserves_for_rangeM; intros ? ?
  | |- preserves _ (match ?x with _ => _ end) => destruct x
  | |- preserves _ (let (_, _) := ?x in _) => destruct x
  end.

Ltac preserves_auto :=
  repeat first [ solve [auto with preserves] | preserves_step ].

Section PureSteps.
Context {R : Type} {NR : Numeric R} {FR : FpFlags R}.
Variable I : World R -> Prop.

Lemma preserves_np_vec_op op (a b : list R) : preserves I (np_vec_op op a b).
Proof. unfold np_vec_op. preserves_auto. Qed.

Lemma preserves_np_vec_scalar op (a : list R) s : preserves I (np_vec_scalar op a s).
Proof. unfold np_vec_scalar. preserves_auto. Qed.

Lemma preserves_np_dot (a b : list R) : preserves I (np_dot a b).
Proof. unfold np_dot. preserves_auto. Qed.

Lemma preserves_np_mat_op op (a b : Matrix R) : preserves I (np_mat_op op a b).
Proof. unfold np_mat_op. preserves_auto. Qed.

Lemma preserves_undifference (x : list R) x0 : preserves I (undifference x x0).
Proof. unfold undifference. preserves_auto. Qed.

Hint Resolve preserves_np_vec_op preserves_np_vec_scalar preserves_np_dot
  preserves_np_mat_op preserves_undifference : preserves.

Lemma preserves_fc_single n o (y_diff vs : list R) mu ma ar :
  preserves I (fc_single n o y_diff vs mu ma ar).
Proof. unfold fc_single. preserves_auto. Qed.

Lemma preserves_diffAndCenter (y : Matrix R) nb mu ar :
  preserves I (diffAndCenter y nb mu ar).
Proof. unfold diffAndCenter. preserves_auto. Qed.
End PureSteps.

#[export] Hint Resolve preserves_np_vec_op preserves_np_vec_scalar preserves_np_dot
  preserves_np_mat_op preserves_undifference preserves_fc_single
  preserves_diffAndCenter : preserves.

Section ObservedSteps.
Context {R : Type} {NR : Numeric R} {FR : FpFlags R} {ER : Externals R}.
Variable I : World R -> Prop.
Hypothesis Hobs : forall r, preserves I (observe r).

Lemma preserves_call {A} r (f : FpMode -> res A) : preserves I (call r f).
Proof using Hobs. unfold call. preserves_auto. Qed.
Hint Resolve preserves_call : preserves.

Lemma preserves_run_kalman model gpu ip : preserves I (run_kalman model gpu ip).
Proof using Hobs. unfold run_kalman. preserves_auto. Qed.
Hint Resolve preserves_run_kalman : preserves.

Lemma preserves_loglike model gpu : preserves I (loglike model gpu).
Proof using Hobs. unfold loglike. preserves_auto. Qed.
Hint Resolve preserves_loglike : preserves.

Lemma preserves_list_comp llb (f : nat -> R -> M R R) :
  (forall i v, preserves I (f i v)) -> preserves I (list_comp llb f).
Proof using Hobs. intros Hf. unfold list_comp. preserves_auto. Qed.

Lemma preserves_aic self : preserves I (aic self).
Proof using Hobs. unfold aic. preserves_auto. apply preserves_list_comp. intros. preserves_auto. Qed.

Lemma preserves_bic self : preserves I (bic self).
Proof using Hobs. unfold bic. preserves_auto. apply preserves_list_comp. intros. preserves_auto. Qed.

Lemma preserves_forecast model n : preserves I (forecast model n).
Proof using Hobs. unfold forecast. preserves_auto. Qed.

Hypothesis Hseterr : forall m, preserves I (np_seterr m).

Lemma preserves_batch_trans p q nb x : preserves I (batch_trans p q nb x).
Proof using Hobs Hseterr. unfold batch_trans. preserves_auto. Qed.

Lemma preserves_batch_invtrans p q nb x : preserves I (batch_invtrans p q nb x).
Proof using Hobs. unfold batch_invtrans. preserves_auto. Qed.
Hint Resolve preserves_batch_trans preserves_batch_invtrans : preserves.

Lemma preserves_fit_x0 p q nb init : preserves I (fit_x0 p q nb init).
Proof using Hobs. unfold fit_x0. preserves_auto. Qed.

Hypothesis Halloc : forall m, preserves I (new_model m).

Lemma preserves_ll_f nb np o y x gpu trans : preserves I (ll_f nb np o y x gpu trans).
Proof using Hobs Hseterr Halloc. unfold ll_f, ARIMAModel_init. preserves_auto. Qed.
Hint Resolve preserves_ll_f : preserves.

Lemma preserves_ll_gf nb np o y x h gpu trans : preserves I (ll_gf nb np o y x h gpu trans).
Proof using Hobs Hseterr Halloc. unfold ll_gf. preserves_auto. Qed.
Hint Resolve preserves_ll_gf : preserves.

Lemma preserves_fit_f y o gpu nb np ns x : preserves I (fit_f y o gpu nb np ns x).
Proof using Hobs Hseterr Halloc. unfold fit_f. preserves_auto. Qed.

Lemma preserves_fit_gf y o h gpu nb np ns x : preserves I (fit_gf y o h gpu nb np ns x).
Proof using Hobs Hseterr Halloc. unfold fit_gf. preserves_auto. Qed.

Lemma preserves_run_opt t (f gf : list R -> M R (list R)) :
  (forall x, preserves I (f x)) -> (forall x, preserves I (gf x)) ->
  preserves I (run_opt t f gf).
Proof using Type.
  intros Hf Hgf. induction t as [x n fl|e|x k IH|x k IH]; simpl.
  - apply preserves_ret.
  - apply preserves_raise.
  - apply preserves_bind; [apply Hf|]. intros v.
    apply preserves_bind; [apply preserves_get_mode|]. intros fm. apply IH.
  - apply preserves_bind; [apply Hgf|]. intros v.
    apply preserves_bind; [apply preserves_get_mode|]. intros fm. apply IH.
Qed.
End ObservedSteps.

Section RunFacts.
Context {R : Type} {NR : Numeric R} {FR : FpFlags R}.

Lemma run_bind_ok {A B} (m : M R A) (f : A -> M R B) w a w' :
  m w = (Ok a, w') -> (m ≫= f) w = f a w'.
Proof. intros Hm. by rewrite M_bind_unfold, Hm. Qed.

Lemma run_bind_err {A B} (m : M R A) (f : A -> M R B) w e w' :
  m w = (Err e, w') -> (m ≫= f) w = (Err e, w').
Proof. intros Hm. by rewrite M_bind_unfold, Hm. Qed.

Lemma run_fp_run {A} (c : Fp A) (w : World R) : quiet w c -> fp_run c w = (Ok (fst c), w).
Proof.
  unfold fp_run. intros [Hw|Hc].
  - by rewrite Hw.
  - rewrite Hc. by destruct (fp_mode w).
Qed.

Lemma run_fp_run_warn {A} (c : Fp A) (w : World R) :
  fp_mode w = FpWarn -> fp_run c w = (Ok (fst c), w).
Proof. intros Hw. apply run_fp_run. by left. Qed.

(** A loop that leaves the world alone. *)
Lemma forM_seq_inv {S} (P : nat -> S -> Prop) (body : nat -> S -> M R S) w k a s :
  P a s ->
  (forall i s, a <= i < a + k -> P i s -> exists s', body i s w = (Ok s', w) /\ P (1 + i) s') ->
  exists s', forM body (seq a k) s w = (Ok s', w) /\ P (a + k) s'.
Proof.
  revert a s. induction k as [|k IH]; intros a s HP Hstep; simpl.
  - exists s. by rewrite Nat.add_0_r.
  - destruct (Hstep a s) as (s1 & Hs1 & HP1); [lia | done |].
    destruct (IH (1 + a) s1) as (s2 & Hs2 & HP2); [done | |].
    + intros i s' Hi. apply Hstep. lia.
    + exists s2. rewrite (run_bind_ok _ _ _ _ _ Hs1). split; [done|].
      by replace (a + Datatypes.S k) with (1 + a + k) by lia.
Qed.

Lemma for_rangeM_inv {S} (P : nat -> S -> Prop) n (body : nat -> S -> M R S) w s :
  P 0 s ->
  (forall i s, i < n -> P i s -> exists s', body i s w = (Ok s', w) /\ P (1 + i) s') ->
  exists s', for_rangeM n body s w = (Ok s', w) /\ P n s'.
Proof.
  intros HP Hstep. unfold for_rangeM.
  destruct (forM_seq_inv P body w n 0 s) as (s' & ? & ?); [done | | by exists s'].
  intros i s' Hi. apply Hstep. lia.
Qed.
End RunFacts.

(** ** Differencing *)

Section Differencing.
Context {R : Type} {NR : Numeric R} {FR : FpFlags R}.

Lemma fp_bind_fst {A B} (m : Fp A) (f : A -> Fp B) : fst (m ≫= f) = fst (f (fst m)).
Proof. destruct m as [a s]. unfold mbind, Fp_bind. simpl. by destruct (f a). Qed.

Lemma fst_fp_cumsum_from_cons acc v (l : list R) :
  fst (fp_cumsum_from acc (v :: l))
  = num_add acc v :: fst (fp_cumsum_from (num_add acc v) l).
Proof.
  change (fp_cumsum_from acc (v :: l))
    with (s ← fp_op OpAdd acc v; rest ← fp_cumsum_from s l; mret (s :: rest)).
  by rewrite !fp_bind_fst.
Qed.

Lemma fst_fp_cumsum_cons v (l : list R) :
  fst (fp_cumsum (v :: l)) = v :: fst (fp_cumsum_from v l).
Proof.
  change (fp_cumsum (v :: l)) with (rest ← fp_cumsum_from v l; mret (v :: rest)).
  by rewrite fp_bind_fst.
Qed.

Lemma fst_fp_diff_cons u v (l : list R) :
  fst (fp_diff (u :: v :: l)) = num_sub v u :: fst (fp_diff (v :: l)).
Proof.
  change (fp_diff (u :: v :: l))
    with (d ← fp_op OpSub v u; rest ← fp_diff (v :: l); mret (d :: rest)).
  by rewrite !fp_bind_fst.
Qed.

Lemma length_fp_cumsum_from acc (l : list R) :
  length (fst (fp_cumsum_from acc l)) = length l.
Proof.
  revert acc. induction l as [|v l IH]; intros acc; [done|].
  rewrite fst_fp_cumsum_from_cons. simpl. by rewrite IH.
Qed.

Lemma length_fp_cumsum (l : list R) : length (fst (fp_cumsum l)) = length l.
Proof.
  destruct l as [|v l]; [done|].
  rewrite fst_fp_cumsum_cons. simpl. by rewrite length_fp_cumsum_from.
Qed.

Lemma head_fp_cumsum x0 (x : list R) : head (fst (fp_cumsum (x0 :: x))) = Some x0.
Proof. by rewrite fst_fp_cumsum_cons. Qed.

(** In exact arithmetic the running sum of the differences, started at the
    first value, gives the series back. *)
Lemma fp_cumsum_from_diff (Hex : exact_add_sub R) y0 (rest : list R) :
  fst (fp_cumsum_from y0 (fst (fp_diff (y0 :: rest)))) = rest.
Proof.
  revert y0. induction rest as [|y1 rest IH]; intros y0; [done|].
  by rewrite fst_fp_diff_cons, fst_fp_cumsum_from_cons, Hex, IH.
Qed.
Lemma fst_fp_cumsum_from_running acc (l : list R) :
  fst (fp_cumsum_from acc l) = running_sums acc l.
Proof.
  revert acc. induction l as [|v l IH]; intros acc; [done|].
  rewrite fst_fp_cumsum_from_cons. simpl. by rewrite IH.
Qed.

Lemma length_running_sums acc (l : list R) : length (running_sums acc l) = length l.
Proof. revert acc. induction l as [|v l IH]; intros acc; simpl; [done | by rewrite IH]. Qed.

Lemma fst_fp_diff_zip y0 (rest : list R) :
  fst (fp_diff (y0 :: rest)) = zip_with num_sub rest (y0 :: rest).
Proof.
  revert y0. induction rest as [|y1 rest IH]; intros y0; [done|].
  by rewrite fst_fp_diff_cons, IH.
Qed.

Lemma running_sums_diff (Hex : exact_add_sub R) y0 (rest : list R) :
  running_sums y0 (zip_with num_sub rest (y0 :: rest)) = rest.
Proof.
  revert y0. induction rest as [|y1 rest IH]; intros y0; [done|].
  simpl. by rewrite Hex, IH.
Qed.
End Differencing.

(** C4 (as stated): [undifference] does not discard the seed; what it
    returns for [x = [1; 2]] and [x0 = 10] has three entries, the first of
    them the seed. *)
Lemma undifference_keeps_seed :
  fst (undifference (FR:=float64_flags) [1; 2]%float 10%float world0)
    = Ok [10; 11; 13]%float /\
  Ok [10; 11; 13]%float <> Ok (py_slice_from 1 [10; 11; 13]%float).
Proof. split; [reflexivity | discriminate]. Qed.

(** In [float64] the differences do not add back up. *)
Remark undifference_float_inexact :
  let y := [1e16; 1]%float in
  fst (undifference (FR:=float64_flags) (fst (fp_diff y)) 1e16%float world0)
    = Ok [1e16; 0]%float.
Proof. reflexivity. Qed.

(** C4 (amended): in every trap mode [undifference(x, x0)] either returns
    the whole running sum of [x0] followed by [x] ([len(x) + 1] values, the
    first being the seed: dropping it is left to the caller, [forecast]) or,
    under strict trapping only, raises [FloatingPointError]; under
    permissive trapping it returns.  In exact arithmetic
    [undifference(np.diff(y), y[0])] therefore gives back every non-empty
    series [y]. *)
Theorem undifference_spec {R} {NR : Numeric R} {FR : FpFlags R}
    (x : list R) (x0 : R) (rest : list R) (w : World R) :
  match undifference x x0 w with
  | (Ok u, w') =>
      w' = w /\ u = x0 :: running_sums x0 x /\ length u = 1 + length x /\
      head u = Some x0
  | (Err e, w') => w' = w /\ e = FloatingPointError /\ fp_mode w = FpRaise
  end /\
  (fp_mode w = FpWarn -> undifference x x0 w = (Ok (x0 :: running_sums x0 x), w)) /\
  fst (fp_diff (x0 :: rest)) = zip_with num_sub rest (x0 :: rest) /\
  (exact_add_sub R -> fp_mode w = FpWarn ->
   undifference (zip_with num_sub rest (x0 :: rest)) x0 w = (Ok (x0 :: rest), w)).
Proof.
  assert (Hval : forall l, fst (fp_cumsum (x0 :: l)) = x0 :: running_sums x0 l).
  { intros l. by rewrite fst_fp_cumsum_cons, fst_fp_cumsum_from_running. }
  assert (Hwarn : forall l, fp_mode w = FpWarn ->
            undifference l x0 w = (Ok (x0 :: running_sums x0 l), w)).
  { intros l Hw. unfold undifference. by rewrite (run_fp_run_warn _ _ Hw), Hval. }
  split; [|split; [|split]].
  - unfold undifference, fp_run. rewrite Hval.
    destruct (fp_mode w) eqn:Hm; [destruct (snd _)|].
    + done.
    + split; [done|]. split; [done|]. split; [|done]. simpl. by rewrite length_running_sums.
    + split; [done|]. split; [done|]. split; [|done]. simpl. by rewrite length_running_sums.
  - apply Hwarn.
  - apply fst_fp_diff_zip.
  - intros Hex Hw. rewrite (Hwarn _ Hw). by rewrite running_sums_diff.
Qed.

Lemma undifference_spec_witness :
  undifference (FR:=float64_flags) [1; 2]%float 10%float world0
    = (Ok [10; 11; 13]%float, world0) /\
  undifference (zip_with num_sub [11; 13]%Z [10; 11; 13]%Z) 10%Z world0
    = (Ok [10; 11; 13]%Z, world0).
Proof.
  split.
  - exact (proj1 (proj2 (undifference_spec (FR:=float64_flags) [1; 2]%float 10%float []
                           world0)) eq_refl).
  - apply (proj2 (proj2 (proj2 (undifference_spec [1; 2]%Z 10%Z [11; 13]%Z world0)))).
    + intros a b. simpl. lia.
    + reflexivity.
Defined.

Ltac run_step Hw :=
  lazymatch goal with
  | |- context [(fp_run ?c ≫= ?f) ?w] =>
      rewrite (run_bind_ok (fp_run c) f w _ _ (run_fp_run_warn c w Hw))
  | |- context [(lift (Ok ?a) ≫= ?f) ?w] =>
      change ((lift (Ok a) ≫= f) w) with (f a w)
  | |- context [(mret ?a ≫= ?f) ?w] =>
      change ((mret a ≫= f) w) with (f a w)
  | |- context [fp_run ?c ?w] =>
      rewrite (run_fp_run_warn c w Hw)
  end; cbv beta iota.

Section ForecastFacts.
Context {R : Type} {NR : Numeric R} {FR : FpFlags R}.

Lemma length_py_last {A} n (l : list A) : n <= length l -> length (py_last n l) = n.
Proof. intros Hn. unfold py_last. rewrite length_drop. lia. Qed.

Lemma py_last_app_length {A} n (h l : list A) :
  length h = n -> py_last n (h ++ l) = drop (length l) (h ++ l).
Proof. intros Hh. unfold py_last. rewrite length_app. f_equal. lia. Qed.

Lemma np_set_slice_prefix (v : list R) n k :
  length v = n -> np_set_slice 0 n v (np_zeros (n + k)) = Ok (v ++ np_zeros k).
Proof.
  intros Hv. unfold np_zeros. rewrite replicate_add.
  apply (np_set_slice_app [] (replicate n num_zero) (replicate k num_zero) v 0 n);
    rewrite ?length_replicate; simpl; lia.
Qed.

Lemma fc_single_spec n p d q (y_diff vs : list R) mu ma ar (w : World R) :
  length ar = p -> length ma = q -> p <= length y_diff -> q <= length vs ->
  fp_mode w = FpWarn ->
  exists fcast,
    fc_single n (OrderTuple p d q) y_diff vs mu ma ar w = (Ok fcast, w) /\
    length fcast = n /\
    forall i, i < n ->
      fcast !! i = Some (fc_step p q n y_diff vs mu ma ar (take i fcast)).
Proof.
  intros Har Hma Hy Hv Hw. unfold fc_single.
  change (order_tuple (OrderTuple p d q)) with (Ok (p, d, q)).
  run_step Hw.
  set (hist := py_last p y_diff). set (vhist := py_last q vs).
  assert (Hhist : length hist = p) by (by apply length_py_last).
  assert (Hvhist : length vhist = q) by (by apply length_py_last).
  set (y0 := if decide (0 < p) then hist ++ np_zeros n else np_zeros (p + n)).
  set (vs_ := if decide (0 < q) then vhist ++ np_zeros n else np_zeros (q + n)).
  assert (Hvs : vs_ = vhist ++ np_zeros n).
  { unfold vs_. destruct (decide (0 < q)); [done|]. destruct vhist; [|simpl in *; lia].
    by replace q with 0 by lia. }
  assert (Hy0 : (if decide (0 < p)
                 then lift (np_set_slice 0 p hist (np_zeros (p + n)))
                 else mret (np_zeros (p + n))) = (mret y0 : M R _)).
  { unfold y0. destruct (decide (0 < p)); [|done]. by rewrite np_set_slice_prefix. }
  assert (Hvs0 : (if decide (0 < q)
                  then lift (np_set_slice 0 q vhist (np_zeros (q + n)))
                  else mret (np_zeros (q + n))) = (mret vs_ : M R _)).
  { unfold vs_. destruct (decide (0 < q)); [|done]. by rewrite np_set_slice_prefix. }
  rewrite Hy0. run_step Hw. rewrite Hvs0. run_step Hw.
  match goal with |- context [for_rangeM n ?body ?s] =>
    destruct (for_rangeM_inv
      (fun i '(y_, fcast) =>
         length fcast = n /\
         (0 < p -> length y_ = p + n /\ take (p + i) y_ = hist ++ take i fcast) /\
         forall j, j < i ->
           fcast !! j = Some (fc_step p q n y_diff vs mu ma ar (take j fcast)))
      n body w s) as ([y_ fcast] & Hrun & Hlen & _ & Hall)
  end.
  - split; [apply length_np_zeros|]. split; [|intros; lia].
    intros Hp. unfold y0. rewrite decide_True by done.
    rewrite length_app, length_np_zeros, Nat.add_0_r.
    split; [lia|]. rewrite take_0, app_nil_r. by apply take_app_length'.
  - intros i [y_ fcast] Hi (Hlen & Hbuf & Hprev).
    repeat run_step Hw.
    set (mu_star := num_mul mu (num_sub num_one (fst (fp_sum ar)))).
    (* the value of this step *)
    set (fi := fc_step p q n y_diff vs mu ma ar (take i fcast)).
    set (f1 := if decide (0 < p)
               then num_add mu_star (fst (fp_dot ar (py_last p (hist ++ take i fcast))))
               else mu_star).
    assert (Hf1 :
      (if decide (0 < p)
       then d ← np_dot ar (py_slice i (i + p) y_); fp_run (fp_op OpAdd mu_star d)
       else mret mu_star) w
      = (Ok f1, w)).
    { unfold f1. destruct (decide (0 < p)) as [Hp|Hp]; [|done]. destruct (Hbuf Hp) as [Hly Htk].
      assert (Hwin : py_slice i (i + p) y_ = py_last p (hist ++ take i fcast)).
      { unfold py_slice, py_last. replace (i + p - i) with p by lia.
        rewrite <- Htk, length_take. replace (((p + i) `min` length y_) - p) with i by lia.
        rewrite take_drop_commute. do 2 f_equal. lia. }
      unfold np_dot. rewrite Hwin.
      rewrite decide_True.
      2:{ rewrite length_py_last; [done|]. rewrite length_app. lia. }
      by repeat run_step Hw. }
    rewrite (run_bind_ok _ _ _ _ _ Hf1).
    assert (Hf2 :
      (if decide (0 < q /\ i < q)
       then d ← np_dot ma (py_slice i (i + q) vs_); fp_run (fp_op OpAdd f1 d)
       else mret f1) w = (Ok fi, w)).
    { unfold fi, fc_step. cbv zeta.
      rewrite length_take, Hlen. replace (i `min` n) with i by lia.
      fold hist vhist mu_star f1. rewrite <- Hvs.
      destruct (decide (0 < q /\ i < q)) as [Hq|Hq]; [|done].
      unfold np_dot. rewrite decide_True.
      2:{ unfold py_slice. rewrite Hvs, length_take, length_drop, length_app, length_np_zeros. lia. }
      by repeat run_step Hw. }
    rewrite (run_bind_ok _ _ _ _ _ Hf2).
    assert (Hset : np_setitem i fi fcast = Ok (<[i:=fi]> fcast)).
    { unfold np_setitem. by rewrite decide_True by lia. }
    rewrite Hset. run_step Hw.
    assert (Hy' : exists y_',
      (if decide (0 < p) then lift (np_setitem (i + p) fi y_) else mret y_) = (mret y_' : M R _) /\
      (0 < p -> length y_' = p + n /\
                take (p + (1 + i)) y_' = hist ++ take (1 + i) (<[i:=fi]> fcast))).
    { destruct (decide (0 < p)) as [Hp|Hp]; [|exists y_; split; [done | lia]].
      destruct (Hbuf Hp) as [Hly Htk]. exists (<[i + p:=fi]> y_). split.
      - unfold np_setitem. by rewrite decide_True by lia.
      - intros _. rewrite length_insert. split; [done|].
        replace (p + (1 + i)) with (Datatypes.S (p + i)) by lia.
        rewrite (take_S_r _ _ fi).
        2:{ replace (i + p) with (p + i) by lia. apply list_lookup_insert_eq. lia. }
        rewrite take_insert_ge by lia. rewrite Htk, <- app_assoc. f_equal.
        change (1 + i) with (Datatypes.S i).
        rewrite (take_S_r _ _ fi) by (apply list_lookup_insert_eq; lia).
        by rewrite take_insert_ge by lia. }
    destruct Hy' as (y_' & -> & Hbuf'). run_step Hw.
    eexists. split; [reflexivity|]. cbv beta iota.
    split; [by rewrite length_insert|]. split; [done|].
    intros j Hj. destruct (decide (j = i)) as [->|Hne].
    + rewrite list_lookup_insert_eq by lia. by rewrite take_insert_ge by lia.
    + rewrite list_lookup_insert_ne by done. rewrite take_insert_ge by lia.
      apply Hprev. lia.
  - exists fcast. rewrite (run_bind_ok _ _ _ _ _ Hrun). done.
Qed.
End ForecastFacts.

Section ForecastRun.
Context {R : Type} {NR : Numeric R} {FR : FpFlags R} {ER : Externals R}.

Lemma preserves_run {A} (I : World R -> Prop) (m : M R A) w r w' :
  preserves I m -> I w -> m w = (r, w') -> I w'.
Proof. intros Hm HI Hrun. specialize (Hm w HI). rewrite Hrun in Hm. by destruct r. Qed.

Lemma run_get_model ref (m : ARIMAModel R) w :
  heap w !! ref = Some m -> get_model ref w = (Ok m, w).
Proof. intros Hm. unfold get_model. by rewrite Hm. Qed.

Lemma run_kalman_frame model gpu ip (w : World R) r w' :
  run_kalman model gpu ip w = (r, w') -> frame w w'.
Proof.
  apply preserves_run; [|done]. apply preserves_run_kalman. apply preserves_frame_observe.
Qed.

Lemma py_index_replicate {A} n (a : A) i : i < n -> py_index (replicate n a) i = Ok a.
Proof. intros Hi. unfold py_index. by rewrite lookup_replicate_2. Qed.

Lemma py_index_lt {A} (l : list A) i : i < length l -> exists a, l !! i = Some a /\ py_index l i = Ok a.
Proof.
  intros Hi. destruct (lookup_lt_is_Some_2 l i Hi) as [a Ha]. exists a.
  unfold py_index. by rewrite Ha.
Qed.

(** With [p = q = 0] every forecast is [mu * (1 - 0)]. *)
Lemma fc_single_all_mean n d (y_diff vs : list R) mu (w : World R) :
  fp_mode w = FpWarn ->
  fc_single n (OrderTuple 0 d 0) y_diff vs mu [] [] w
  = (Ok (replicate n (num_mul mu (num_sub num_one num_zero))), w).
Proof.
  intros Hw.
  destruct (fc_single_spec n 0 d 0 y_diff vs mu [] [] w) as (fcast & -> & Hlen & Hall);
    [done | done | lia | lia | done |].
  do 2 f_equal. apply list_eq. intros i.
  destruct (decide (i < n)) as [Hi|Hi].
  - rewrite (Hall i Hi), lookup_replicate_2 by done. f_equal.
  - rewrite !lookup_ge_None_2; [done | rewrite length_replicate; lia | lia].
Qed.

Lemma forecast_all_mean (w : World R) ref m nb nsteps ll vs w' :
  heap w !! ref = Some m ->
  order m = replicate nb (OrderTuple 0 0 0) ->
  ar_params m = replicate nb [] -> ma_params m = replicate nb [] ->
  length (mu m) = nb -> num_batches m = nb -> n_cols (y m) = nb ->
  n_cols vs = nb -> fp_mode w = FpWarn ->
  run_kalman ref true false w = (Ok (ll, vs), w') ->
  forecast ref nsteps w
  = (Ok (mkMatrix nsteps
           ((fun c => replicate nsteps (num_mul c (num_sub num_one num_zero))) <$> mu m)),
     w').
Proof.
  intros Hm Ho Har Hma Hmu Hnb Hy Hvs Hw Hk.
  assert (Hw' : fp_mode w' = FpWarn).
  { destruct (run_kalman_frame _ _ _ _ _ _ Hk) as (-> & _). done. }
  unfold forecast.
  rewrite (run_bind_ok _ _ _ _ _ (run_get_model _ _ _ Hm)).
  rewrite (run_bind_ok _ _ _ _ _ Hk). cbv beta iota.
  set (target := (fun c => replicate nsteps (num_mul c (num_sub num_one num_zero))) <$> mu m).
  match goal with |- for_rangeM _ ?body ?s w' = _ =>
    destruct (for_rangeM_inv
      (fun i yfc => yfc = mkMatrix nsteps (take i target ++ replicate (nb - i) (np_zeros nsteps)))
      (num_batches m) body w' s) as (yfc & Hrun & HP)
  end.
  - unfold mat_zeros. by rewrite Hnb, Nat.sub_0_r.
  - intros i yfc Hi ->. rewrite Hnb in Hi.
    rewrite Ho, py_index_replicate by done. run_step Hw'.
    change (order_tuple (OrderTuple 0 0 0)) with (Ok (0, 0%Z, 0)). run_step Hw'.
    unfold mat_column.
    destruct (py_index_lt (columns vs) i) as (vsi & _ & ->); [unfold n_cols in Hvs; lia|].
    run_step Hw'.
    destruct (py_index_lt (columns (y m)) i) as (yi & _ & ->); [unfold n_cols in Hy; lia|].
    run_step Hw'. run_step Hw'.
    destruct (py_index_lt (mu m) i) as (mu_i & Hmui & ->); [lia|].
    run_step Hw'.
    rewrite Hma, Har, !py_index_replicate by done. run_step Hw'. run_step Hw'.
    rewrite (run_bind_ok _ _ _ _ _ (fc_single_all_mean nsteps 0 _ _ mu_i w' Hw')).
    rewrite decide_False by lia. run_step Hw'.
    unfold mat_set_column, n_cols. cbn [columns n_rows].
    rewrite decide_True.
    2:{ rewrite length_app, length_take, length_replicate. unfold target.
        rewrite length_fmap. lia. }
    rewrite decide_True by (by rewrite length_replicate).
    eexists. split; [reflexivity|]. f_equal.
    assert (Ht : target !! i = Some (replicate nsteps (num_mul mu_i (num_sub num_one num_zero)))).
    { unfold target. by rewrite list_lookup_fmap, Hmui. }
    change (1 + i) with (Datatypes.S i). rewrite (take_S_r _ _ _ Ht), <- app_assoc.
    rewrite insert_app_r_alt by (rewrite length_take; lia).
    f_equal. rewrite length_take. unfold target. rewrite length_fmap.
    replace (i - i `min` length (mu m)) with 0 by lia.
    replace (nb - i) with (Datatypes.S (nb - Datatypes.S i)) by lia. done.
  - rewrite Hrun, HP. do 2 f_equal. rewrite Hnb, Nat.sub_diag. simpl.
    rewrite app_nil_r. f_equal. apply take_ge. unfold target. rewrite length_fmap. lia.
Qed.
End ForecastRun.

Section TrapOnlyFacts.
Context {R : Type} {NR : Numeric R} {FR : FpFlags R}.

Lemma trap_only_ret {A} (a : A) : trap_only (mret a : M R A).
Proof. by intros w. Qed.

Lemma trap_only_raise {A} e : trap_only (raise e : M R A).
Proof. intros w. split; [done|]. by right. Qed.

Lemma trap_only_lift {A} (r : res A) : trap_only (lift r : M R A).
Proof. intros w. unfold lift. destruct r; [done|]. split; [done|]. by right. Qed.

Lemma trap_only_fp_run {A} (c : Fp A) : trap_only (fp_run c : M R A).
Proof.
  intros w. unfold fp_run. simpl.
  destruct (fp_mode w) eqn:Hm; [destruct (snd c)|]; try done.
  split; [done|]. by left.
Qed.

Lemma trap_only_bind {A B} (c : M R A) (f : A -> M R B) :
  trap_only c -> (forall a, trap_only (f a)) -> trap_only (c ≫= f).
Proof.
  intros Hc Hf w. rewrite !M_bind_unfold. specialize (Hc w).
  destruct (c w) as [[a|e] w1].
  - destruct Hc as [-> Hc]. rewrite Hc. apply Hf.
  - destruct Hc as [-> [Hc|Hc]]; [by split; [|left]|].
    rewrite Hc. split; [done|]. by right.
Qed.

Lemma trap_only_forM {S} (body : nat -> S -> M R S) l s :
  (forall i s, trap_only (body i s)) -> trap_only (forM body l s).
Proof.
  intros Hb. revert s. induction l as [|i l IH]; intros s; simpl.
  - apply trap_only_ret.
  - apply trap_only_bind; [apply Hb | apply IH].
Qed.

Lemma trap_only_np_dot (a b : list R) : trap_only (np_dot a b).
Proof.
  unfold np_dot. destruct (decide _); [apply trap_only_fp_run | apply trap_only_raise].
Qed.

Lemma trap_only_fc_single n o (y_diff vs : list R) mu ma ar :
  trap_only (fc_single n o y_diff vs mu ma ar).
Proof.
  unfold fc_single.
  apply trap_only_bind; [apply trap_only_lift | intros [[p d] q]].
  apply trap_only_bind.
  { destruct (decide _); [apply trap_only_lift | apply trap_only_ret]. }
  intros y_. apply trap_only_bind.
  { destruct (decide _); [apply trap_only_lift | apply trap_only_ret]. }
  intros vs_. apply trap_only_bind; [|intros [? fcast]; apply trap_only_ret].
  apply trap_only_forM. intros i [y0 fcast].
  apply trap_only_bind; [apply trap_only_fp_run | intros s].
  apply trap_only_bind; [apply trap_only_fp_run | intros t].
  apply trap_only_bind; [apply trap_only_fp_run | intros mu_star].
  apply trap_only_bind.
  { destruct (decide _); [|apply trap_only_ret].
    apply trap_only_bind; [apply trap_only_np_dot | intros ?; apply trap_only_fp_run]. }
  intros f. apply trap_only_bind.
  { destruct (decide _); [|apply trap_only_ret].
    apply trap_only_bind; [apply trap_only_np_dot | intros ?; apply trap_only_fp_run]. }
  intros f'. apply trap_only_bind; [apply trap_only_lift | intros fc'].
  apply trap_only_bind; [|intros ?; apply trap_only_ret].
  destruct (decide _); [apply trap_only_lift | apply trap_only_ret].
Qed.
End TrapOnlyFacts.

Section ForecastLawFacts.
Context {R : Type} {NR : Numeric R} {FR : FpFlags R}.

Lemma fst_fp_sum_foldl (a : list R) (acc : Fp R) :
  fst (foldl (fun acc v => s ← acc; fp_op OpAdd s v) acc a)
  = foldl num_add (fst acc) a.
Proof.
  revert acc. induction a as [|v a IH]; intros acc; [done|].
  simpl. rewrite IH. f_equal. by destruct acc.
Qed.

Lemma fst_fp_sum (a : list R) : fst (fp_sum a) = sum_of a.
Proof. unfold fp_sum, sum_of. by rewrite fst_fp_sum_foldl. Qed.

Lemma fst_fp_dot_foldl (ab : list (R * R)) (acc : Fp R) :
  fst (foldl (fun acc '(u, v) => s ← acc; t ← fp_op OpMul u v; fp_op OpAdd s t) acc ab)
  = foldl num_add (fst acc) ((fun '(u, v) => num_mul u v) <$> ab).
Proof.
  revert acc. induction ab as [|[u v] ab IH]; intros acc; [done|].
  simpl. rewrite IH. f_equal. by destruct acc.
Qed.

Lemma fst_fp_dot (a b : list R) : fst (fp_dot a b) = dot_of a b.
Proof.
  unfold fp_dot, dot_of. rewrite fst_fp_dot_foldl. simpl. f_equal.
  revert b. induction a as [|u a IH]; intros [|v b]; simpl; try done. by rewrite IH.
Qed.

(** The window of innovations that step [i] reads. *)
Lemma vs_window q n i (vhist : list R) :
  length vhist = q -> i < q -> i <= n ->
  py_slice i (i + q) (vhist ++ np_zeros n) = drop i vhist ++ replicate i num_zero.
Proof.
  intros Hq Hi Hn. unfold py_slice, np_zeros.
  replace (i + q - i) with q by lia.
  rewrite drop_app_le by lia. rewrite take_app_ge by (rewrite length_drop; lia).
  f_equal. rewrite length_drop, take_replicate. f_equal. lia.
Qed.

Lemma fc_step_law p q n (y_diff vs : list R) mu ma ar prev :
  q <= length vs -> length prev <= n ->
  fc_step p q n y_diff vs mu ma ar prev = forecast_law p q y_diff vs mu ar ma prev.
Proof.
  intros Hv Hn. unfold fc_step, forecast_law. cbv zeta.
  rewrite fst_fp_sum. rewrite !fst_fp_dot.
  destruct (decide (0 < q /\ length prev < q)) as [[Hq Hi]|Hq]; [|done].
  rewrite vs_window; [done | by apply length_py_last | done | done].
Qed.

(** A list each of whose entries is the law of the entries before it. *)
Lemma forecasts_from_take (law : list R -> R) (fcast : list R) k j :
  j + k <= length fcast ->
  (forall i, i < length fcast -> fcast !! i = Some (law (take i fcast))) ->
  forecasts_from law k (take j fcast) = take (j + k) fcast.
Proof.
  revert j. induction k as [|k IH]; intros j Hjk Hlaw; simpl.
  - by rewrite Nat.add_0_r.
  - rewrite <- (take_S_r fcast j (law (take j fcast))) by (apply Hlaw; lia).
    rewrite IH by (done || lia). f_equal. lia.
Qed.

Lemma forecasts_from_prefix (law : list R -> R) n prev :
  exists ext, forecasts_from law n prev = prev ++ ext /\ length ext = n.
Proof.
  revert prev. induction n as [|n IH]; intros prev; simpl.
  - exists []. by rewrite app_nil_r.
  - destruct (IH (prev ++ [law prev])) as (ext & -> & Hlen).
    exists (law prev :: ext). rewrite <- app_assoc. simpl. by rewrite Hlen.
Qed.

Lemma forecasts_from_lookup (law : list R -> R) n prev k :
  k < n ->
  forecasts_from law n prev !! (length prev + k)
  = Some (law (take (length prev + k) (forecasts_from law n prev))).
Proof.
  revert prev k. induction n as [|n IH]; intros prev k Hk; [lia|]. simpl.
  destruct k as [|k].
  - destruct (forecasts_from_prefix law n (prev ++ [law prev])) as (ext & -> & _).
    rewrite Nat.add_0_r, <- !app_assoc. simpl.
    rewrite lookup_app_r, Nat.sub_diag by lia. simpl.
    by rewrite take_app_length.
  - specialize (IH (prev ++ [law prev]) k ltac:(lia)).
    rewrite length_app in IH. simpl in IH.
    by replace (length prev + S k) with (length prev + 1 + k) by lia.
Qed.

Lemma forecast_values_lookup n p q (y_diff vs : list R) mu ar ma i :
  i < n ->
  forecast_values n p q y_diff vs mu ar ma !! i
  = Some (forecast_law p q y_diff vs mu ar ma
            (take i (forecast_values n p q y_diff vs mu ar ma))).
Proof. intros Hi. by apply (forecasts_from_lookup _ n [] i). Qed.

Lemma length_forecast_values n p q (y_diff vs : list R) mu ar ma :
  length (forecast_values n p q y_diff vs mu ar ma) = n.
Proof.
  unfold forecast_values.
  by destruct (forecasts_from_prefix (forecast_law p q y_diff vs mu ar ma) n [])
    as (ext & -> & ?).
Qed.

Lemma fc_single_law n p d q (y_diff vs : list R) mu ma ar (w : World R) :
  length ar = p -> length ma = q -> p <= length y_diff -> q <= length vs ->
  fp_mode w = FpWarn ->
  fc_single n (OrderTuple p d q) y_diff vs mu ma ar w
  = (Ok (forecast_values n p q y_diff vs mu ar ma), w).
Proof.
  intros Har Hma Hy Hv Hw.
  destruct (fc_single_spec n p d q y_diff vs mu ma ar w Har Hma Hy Hv Hw)
    as (fcast & Hrun & Hlen & Hlaw).
  rewrite Hrun. do 2 f_equal. unfold forecast_values.
  pose proof (forecasts_from_take (forecast_law p q y_diff vs mu ar ma) fcast n 0) as Hf.
  rewrite take_0 in Hf. rewrite Hf; [by rewrite take_ge by lia | lia |].
  intros i Hi. rewrite Hlaw by lia. f_equal. apply fc_step_law; [done|].
  rewrite length_take. lia.
Qed.

Lemma fc_single_any_mode n p d q (y_diff vs : list R) mu ma ar (w : World R) :
  length ar = p -> length ma = q -> p <= length y_diff -> q <= length vs ->
  match fc_single n (OrderTuple p d q) y_diff vs mu ma ar w with
  | (Ok fcast, w') => w' = w /\ fcast = forecast_values n p q y_diff vs mu ar ma
  | (Err e, w') => w' = w /\ e = FloatingPointError /\ fp_mode w = FpRaise
  end.
Proof.
  intros Har Hma Hy Hv.
  pose proof (trap_only_fc_single n (OrderTuple p d q) y_diff vs mu ma ar w) as Ht.
  pose proof (fc_single_law n p d q y_diff vs mu ma ar (warned w) Har Hma Hy Hv eq_refl)
    as Hwarn.
  destruct (fc_single n (OrderTuple p d q) y_diff vs mu ma ar w) as [[fcast|e] w'].
  - destruct Ht as [-> Ht]. split; [done|]. rewrite Hwarn in Ht. by injection Ht as <-.
  - destruct Ht as [-> [Ht|Ht]]; [done|]. by rewrite Hwarn in Ht.
Qed.
End ForecastLawFacts.

(** C3: with coefficient vectors of lengths [p] and [q] and at least that
    much history, [fc_single] computes the forecasts of [forecast_values]:
    the one of step [i] is [mu * (1 - sum(ar))], plus the dot product of
    [ar] with the trailing [p] values of the history and the earlier
    forecasts, plus, while [i < q], the dot product of [ma] with the
    trailing innovations; each forecast is appended to the values the AR
    term reads.  Under permissive trapping it returns them; under strict
    trapping it returns them or raises [FloatingPointError].  Forecasting
    the all-mean model ([p = d = q = 0], [mu = 5]) for 5 steps returns
    [5,5,5,5,5] for every batch member. *)
Theorem fc_single_forecast_spec {R} {NR : Numeric R} {FR : FpFlags R} {ER : Externals R}
    (n p : nat) (d : Z) (q : nat) (y_diff vs : list R) (mu0 : R) (ma ar : list R)
    (w : World R) :
  length ar = p -> length ma = q -> p <= length y_diff -> q <= length vs ->
  match fc_single n (OrderTuple p d q) y_diff vs mu0 ma ar w with
  | (Ok fcast, w') => w' = w /\ fcast = forecast_values n p q y_diff vs mu0 ar ma
  | (Err e, w') => w' = w /\ e = FloatingPointError /\ fp_mode w = FpRaise
  end /\
  (fp_mode w = FpWarn ->
   fc_single n (OrderTuple p d q) y_diff vs mu0 ma ar w
   = (Ok (forecast_values n p q y_diff vs mu0 ar ma), w)) /\
  (forall i, i < n ->
     forecast_values n p q y_diff vs mu0 ar ma !! i
     = Some (forecast_law p q y_diff vs mu0 ar ma
               (take i (forecast_values n p q y_diff vs mu0 ar ma)))) /\
  length (forecast_values n p q y_diff vs mu0 ar ma) = n /\
  (forall (ref : ModelRef) (m : ARIMAModel R) (nb : nat) (ll : list R) (vsb : Matrix R)
          (w' : World R),
     fp_mode w = FpWarn ->
     num_mul (num_of_Z 5) (num_sub num_one num_zero) = num_of_Z 5 ->
     heap w !! ref = Some m ->
     order m = replicate nb (OrderTuple 0 0 0) ->
     mu m = replicate nb (num_of_Z 5) ->
     ar_params m = replicate nb [] -> ma_params m = replicate nb [] ->
     num_batches m = nb -> n_cols (y m) = nb -> n_cols vsb = nb ->
     run_kalman ref true false w = (Ok (ll, vsb), w') ->
     forecast ref 5 w
     = (Ok (mkMatrix 5 (replicate nb (replicate 5 (num_of_Z 5)))), w')).
Proof.
  intros Har Hma Hy Hv.
  split; [by apply fc_single_any_mode|].
  split; [by apply fc_single_law|].
  split; [|split].
  - intros i Hi. by apply forecast_values_lookup.
  - apply length_forecast_values.
  - intros ref m nb ll vsb w' Hw H5 Hm Ho Hmu Har0 Hma0 Hnb Hcols Hvsb Hk.
    rewrite (forecast_all_mean w ref m nb 5 ll vsb w'); try done.
    + by rewrite Hmu, fmap_replicate, H5.
    + by rewrite Hmu, length_replicate.
Qed.

Section LoopPost.
Context {S : Type}.

Lemma for_each_seq_post (P : nat -> S -> Prop) (body : nat -> S -> res S) k a s s' :
  for_each body (seq a k) s = Ok s' ->
  P a s ->
  (forall i s s1, a <= i < a + k -> P i s -> body i s = Ok s1 -> P (1 + i) s1) ->
  P (a + k) s'.
Proof.
  revert a s. induction k as [|k IH]; intros a s Hrun HP Hstep; simpl in Hrun.
  - injection Hrun as <-. by rewrite Nat.add_0_r.
  - destruct (body a s) as [s1|e] eqn:Hb; [|done].
    replace (a + Datatypes.S k) with (1 + a + k) by lia.
    apply (IH (1 + a) s1 Hrun).
    + apply (Hstep a s s1); [lia | done | done].
    + intros i s0 s2 Hi. apply Hstep. lia.
Qed.
End LoopPost.

Section KalmanFacts.
Context {R : Type} {NR : Numeric R} {FR : FpFlags R} {ER : Externals R}.

Lemma run_call {A} r (f : FpMode -> res A) (w : World R) :
  call r f w = (f (fp_mode w), logged r w).
Proof. done. Qed.

(** What [assert_same_d] accepts. *)
Lemma assert_same_d_ok os : assert_same_d os = Ok tt <-> exists d, uniform_d os d.
Proof.
  unfold assert_same_d.
  set (body := fun (i : nat) (acc : list Z) =>
                 o ← py_index os i; '(_, d, _) ← order_tuple o; Ok (acc ++ [d])).
  pose (P := fun (i : nat) (acc : list Z) =>
               length acc = i /\
               forall j, j < i -> exists p d q, os !! j = Some (OrderTuple p d q) /\ acc !! j = Some d).
  assert (Hstep : forall i acc acc', P i acc -> body i acc = Ok acc' -> P (1 + i) acc').
  { intros i acc acc' [Hlen Hall] Hb. unfold body, py_index in Hb.
    destruct (os !! i) as [[|p d q]|] eqn:Hoi; try done. simpl in Hb. injection Hb as <-.
    split; [rewrite length_app; simpl; lia|].
    intros j Hj. destruct (decide (j = i)) as [->|Hne].
    - exists p, d, q. split; [done|]. by rewrite lookup_app_r, Hlen, Nat.sub_diag by lia.
    - destruct (Hall j) as (p' & d' & q' & ? & ?); [lia|].
      exists p', d', q'. split; [done|]. by rewrite lookup_app_l by lia. }
  split.
  - destruct (for_each body (seq 0 (length os)) []) as [b_d|e] eqn:Hrun; [|done].
    apply (for_each_seq_post P) in Hrun as [Hlen Hall];
      [| split; [done | intros; lia] | by intros i s s1 _; apply Hstep].
    rewrite res_bind_ok. unfold py_index.
    destruct (b_d !! 0) as [d0|] eqn:Hd0; [|done]. rewrite res_bind_ok.
    unfold py_assert. destruct (forallb _ b_d) eqn:Hfa; [|done]. intros _.
    exists d0. split.
    + intros ->. simpl in Hlen. by destruct b_d.
    + apply Forall_lookup. intros j o Hj.
      destruct (Hall j) as (p & d & q & Ho & Hd); [by apply lookup_lt_Some in Hj|].
      rewrite Ho in Hj. injection Hj as <-. exists p, q. f_equal.
      rewrite forallb_forall in Hfa.
      specialize (Hfa d). rewrite bool_decide_eq_true in Hfa. apply Hfa.
      apply list_elem_of_In, list_elem_of_lookup. by exists j.
  - intros (d & Hne & Hall).
    destruct (for_each_seq_inv
      (fun i acc => acc = replicate i d) body (length os) 0 []) as (b_d & -> & ->); [done| |].
    + intros i acc Hi ->. unfold body.
      destruct (py_index_lt os i) as (o & Ho & ->); [lia|]. rewrite res_bind_ok.
      destruct (Forall_lookup_1 _ _ _ _ Hall Ho) as (p & q & ->). simpl.
      eexists. split; [done|]. symmetry. apply replicate_S_end.
    + rewrite res_bind_ok. simpl. destruct os as [|o os]; [done|]. simpl.
      rewrite bool_decide_true by done. simpl.
      induction (length os); simpl; [done|]. by rewrite bool_decide_true by done.
Qed.

Lemma uniform_d_lookup os d i p d' q :
  uniform_d os d -> os !! i = Some (OrderTuple p d' q) -> d' = d.
Proof.
  intros [_ Hall] Hi. destruct (Forall_lookup_1 _ _ _ _ Hall Hi) as (? & ? & [= _ -> _]). done.
Qed.

Lemma uniform_d_head os d :
  uniform_d os d -> exists p q, py_index os 0 = Ok (OrderTuple p d q).
Proof.
  intros [Hne Hall]. destruct os as [|o os]; [done|].
  apply Forall_cons in Hall as [(p & q & ->) _]. by exists p, q.
Qed.

(** [run_kalman] raises when some member's [d] is neither 0 nor 1. *)
Lemma run_kalman_bad_d ref (m : ARIMAModel R) gpu ip (w : World R) i p d q :
  heap w !! ref = Some m ->
  order m !! i = Some (OrderTuple p d q) -> d <> 0%Z -> d <> 1%Z ->
  fails (run_kalman ref gpu ip) w.
Proof.
  intros Hm Hi Hd0 Hd1. unfold fails, run_kalman.
  rewrite (run_bind_ok _ _ _ _ _ (run_get_model _ _ _ Hm)).
  rewrite M_bind_unfold, run_call.
  destruct (init_batched_kalman_matrices _ _ _) as [km|e]; [|by eauto].
  destruct (assert_same_d (order m)) as [[]|e] eqn:Ha; [|by repeat eexists].
  apply assert_same_d_ok in Ha as [d0 Hu].
  rewrite (uniform_d_lookup _ _ _ _ _ _ Hu Hi) in Hd0, Hd1.
  destruct (uniform_d_head _ _ Hu) as (p0 & q0 & Hh).
  change ((lift (Ok ()) ≫= ?f) ?w) with (f tt w). cbv beta.
  rewrite Hh.
  change ((lift (Ok ?a) ≫= ?f) ?w) with (f a w). cbv beta.
  change (order_tuple (OrderTuple p0 d0 q0)) with (Ok (p0, d0, q0)).
  change ((lift (Ok ?a) ≫= ?f) ?w) with (f a w). cbv beta iota.
  rewrite !decide_False by done. by repeat eexists.
Qed.

(** [run_kalman] raises when two members differ in [d]. *)
Lemma run_kalman_mixed_d ref (m : ARIMAModel R) gpu ip (w : World R) i j p d q p' d' q' :
  heap w !! ref = Some m ->
  order m !! i = Some (OrderTuple p d q) ->
  order m !! j = Some (OrderTuple p' d' q') -> d <> d' ->
  fails (run_kalman ref gpu ip) w.
Proof.
  intros Hm Hi Hj Hd. unfold fails, run_kalman.
  rewrite (run_bind_ok _ _ _ _ _ (run_get_model _ _ _ Hm)).
  rewrite M_bind_unfold, run_call.
  destruct (init_batched_kalman_matrices _ _ _) as [km|e]; [|by eauto].
  destruct (assert_same_d (order m)) as [[]|e] eqn:Ha; [|by repeat eexists].
  apply assert_same_d_ok in Ha as [d0 Hu]. exfalso. apply Hd.
  by rewrite (uniform_d_lookup _ _ _ _ _ _ Hu Hi), (uniform_d_lookup _ _ _ _ _ _ Hu Hj).
Qed.

(** With a uniform [d] of 0 or 1 the outcome is the collaborators'. *)
Lemma run_kalman_uniform ref (m : ARIMAModel R) gpu ip (w : World R) d km :
  heap w !! ref = Some m -> uniform_d (order m) d ->
  init_batched_kalman_matrices (fp_mode w) (ar_params m) (ma_params m) = Ok km ->
  let w1 := logged CallKalmanInit w in
  (d = 0%Z ->
     run_kalman ref gpu ip w
     = (batched_kfilter (fp_mode w) (y m) km gpu ip, logged CallKalmanFilter w1)) /\
  (d = 1%Z -> forall ydc,
     diffAndCenter (y m) (num_batches m) (mu m) (ar_params m) w1 = (Ok ydc, w1) ->
     run_kalman ref gpu ip w
     = (batched_kfilter (fp_mode w) ydc km gpu ip, logged CallKalmanFilter w1)).
Proof.
  intros Hm Hu Hinit w1.
  assert (Ha : assert_same_d (order m) = Ok tt) by (apply assert_same_d_ok; eauto).
  destruct (uniform_d_head _ _ Hu) as (p0 & q0 & Hh).
  assert (Hpre :
    run_kalman ref gpu ip w =
    (if decide (d = 0%Z) then
       call CallKalmanFilter (fun fm => batched_kfilter fm (y m) km gpu ip)
     else if decide (d = 1%Z) then
       y_diff_centered ← diffAndCenter (y m) (num_batches m) (mu m) (ar_params m);
       call CallKalmanFilter (fun fm => batched_kfilter fm y_diff_centered km gpu ip)
     else raise NotImplementedError) w1).
  { unfold run_kalman.
    rewrite (run_bind_ok _ _ _ _ _ (run_get_model _ _ _ Hm)).
    rewrite M_bind_unfold, run_call, Hinit. fold w1. rewrite Ha.
    change ((lift (Ok ()) ≫= ?f) ?w) with (f tt w). cbv beta.
    rewrite Hh.
    change ((lift (Ok ?a) ≫= ?f) ?w) with (f a w). cbv beta.
    change (order_tuple (OrderTuple p0 d q0)) with (Ok (p0, d, q0)).
    change ((lift (Ok ?a) ≫= ?f) ?w) with (f a w). cbv beta iota. done. }
  split.
  - intros ->. rewrite Hpre. by rewrite decide_True.
  - intros -> ydc Hdc. rewrite Hpre.
    rewrite decide_False, decide_True by done.
    by rewrite (run_bind_ok _ _ _ _ _ Hdc).
Qed.

(** The readers of the model raise when [run_kalman] does. *)
Lemma fails_loglike ref gpu (w : World R) :
  fails (run_kalman ref gpu false) w -> fails (loglike ref gpu) w.
Proof.
  intros (e & w' & Hk). exists e, w'. unfold loglike. by rewrite (run_bind_err _ _ _ _ _ Hk).
Qed.

Lemma fails_predict_in_sample ref gpu (w : World R) :
  fails (run_kalman ref gpu false) w -> fails (predict_in_sample ref gpu) w.
Proof.
  intros (e & w' & Hk). exists e, w'. unfold predict_in_sample.
  by rewrite (run_bind_err _ _ _ _ _ Hk).
Qed.

Lemma fails_forecast ref n (w : World R) :
  fails (run_kalman ref true false) w -> fails (forecast ref n) w.
Proof.
  intros (e & w' & Hk). unfold fails, forecast, get_model.
  rewrite M_bind_unfold. destruct (heap w !! ref) as [m|]; [|by eauto].
  exists e, w'. by rewrite (run_bind_err _ _ _ _ _ Hk).
Qed.
End KalmanFacts.



Section ReaderFacts.
Context {R : Type} {NR : Numeric R} {FR : FpFlags R} {ER : Externals R}.

Lemma hoare_bind_pres {A B} (I : World R -> Prop) (m : M R A) (f : A -> M R B)
    (Q : B -> World R -> Prop) (E : exn -> World R -> Prop) :
  preserves I m -> (forall e w, I w -> E e w) -> (forall a, hoare I (f a) Q E) ->
  hoare I (m ≫= f) Q E.
Proof.
  intros Hm HE Hf. eapply hoare_bind; [|exact Hf].
  eapply hoare_conseq; [exact Hm | done | done | done].
Qed.

Lemma preserves_snd {A} (I : World R -> Prop) (m : M R A) w :
  preserves I m -> I w -> I (snd (m w)).
Proof. intros Hm HI. specialize (Hm w HI). by destruct (m w) as [[a|e] w']. Qed.

Lemma frame_heap (w0 w : World R) : frame w0 w -> heap w = heap w0.
Proof. by intros (_ & _ & ?). Qed.

Lemma loglike_frame ref gpu (w : World R) : frame w (snd (loglike ref gpu w)).
Proof.
  apply preserves_snd; [|done]. apply preserves_loglike, preserves_frame_observe.
Qed.

Lemma aic_frame ref (w : World R) : frame w (snd (aic ref w)).
Proof.
  apply preserves_snd; [|done]. apply preserves_aic, preserves_frame_observe.
Qed.

Lemma bic_frame ref (w : World R) : frame w (snd (bic ref w)).
Proof.
  apply preserves_snd; [|done]. apply preserves_bic, preserves_frame_observe.
Qed.

Lemma forecast_frame ref n (w : World R) : frame w (snd (forecast ref n w)).
Proof.
  apply preserves_snd; [|done]. apply preserves_forecast, preserves_frame_observe.
Qed.

(** [predict_in_sample] writes the prediction it returns into [yp], and
    nothing else; when it raises, no object has changed. *)
Lemma predict_in_sample_heap ref gpu (w0 : World R) :
  hoare (frame w0) (predict_in_sample ref gpu)
    (fun y_p w' => exists m, heap w0 !! ref = Some m /\
                             heap w' = <[ref:=set_yp (Some y_p) m]> (heap w0))
    (fun _ w' => heap w' = heap w0).
Proof.
  pose proof (preserves_frame_observe (R:=R) w0) as Hobs.
  assert (HE : forall (e : exn) w, frame w0 w -> heap w = heap w0)
    by (intros _ w; apply frame_heap).
  unfold predict_in_sample.
  apply hoare_bind_pres; [by apply preserves_run_kalman | done | intros [ll vs]].
  eapply hoare_bind with
    (Q := fun m w => frame w0 w /\ heap w0 !! ref = Some m).
  { intros w Hw. unfold get_model. rewrite (frame_heap _ _ Hw).
    destruct (heap w0 !! ref); [done | by apply frame_heap]. }
  intros m.
  assert (Hpure : forall {A} (c : M R A) Q,
    (heap w0 !! ref = Some m -> hoare (frame w0) c Q (fun _ w' => heap w' = heap w0)) ->
    hoare (fun w => frame w0 w /\ heap w0 !! ref = Some m) c Q (fun _ w' => heap w' = heap w0)).
  { intros A c Q Hc w [Hw Hm]. by apply Hc. }
  apply Hpure. intros Hm.
  apply hoare_bind_pres; [preserves_auto | done | intros []].
  apply hoare_bind_pres; [preserves_auto | done | intros o].
  apply hoare_bind_pres; [preserves_auto | done | intros [[p d] q]].
  apply hoare_bind_pres; [preserves_auto | done | intros [y_p y_diff]].
  apply hoare_bind_pres; [preserves_auto | done | intros y_p'].
  intros w Hw. rewrite M_bind_unfold. unfold update_model.
  rewrite (frame_heap _ _ Hw), Hm. simpl. by exists m.
Qed.
End ReaderFacts.

(** C9 (as stated): [predict_in_sample] does change the model: the field
    [yp], empty before the call, holds the prediction afterwards. *)
Lemma predict_in_sample_writes_yp :
  yp <$> heap (demo_world 0) !! 0 = Some None /\
  yp <$> heap (snd (predict_in_sample (ER:=demo_externals 0) 0 true (demo_world 0))) !! 0
    = Some (Some demo_y).
Proof. split; reflexivity. Qed.

(** C9 (amended): [loglike], [aic], [bic] and [forecast] leave every model
    object as it was.  [predict_in_sample] changes one thing: when it
    returns, the field [yp] of its model holds the returned prediction, all
    other fields and all other objects being unchanged; when it raises,
    nothing has changed. *)
Theorem readers_leave_model {R} {NR : Numeric R} {FR : FpFlags R} {ER : Externals R}
    (w : World R) (ref : ModelRef) (gpu : bool) (nsteps : nat) :
  heap (snd (loglike ref gpu w)) = heap w /\
  heap (snd (aic ref w)) = heap w /\
  heap (snd (bic ref w)) = heap w /\
  heap (snd (forecast ref nsteps w)) = heap w /\
  match predict_in_sample ref gpu w with
  | (Ok y_p, w') =>
      exists m, heap w !! ref = Some m /\
                heap w' = <[ref:=set_yp (Some y_p) m]> (heap w) /\
                same_but_yp m (set_yp (Some y_p) m) /\
                yp (set_yp (Some y_p) m) = Some y_p
  | (Err _, w') => heap w' = heap w
  end.
Proof.
  split; [apply frame_heap, loglike_frame|].
  split; [apply frame_heap, aic_frame|].
  split; [apply frame_heap, bic_frame|].
  split; [apply frame_heap, forecast_frame|].
  pose proof (predict_in_sample_heap ref gpu w w (frame_refl w)) as Hp.
  destruct (predict_in_sample ref gpu w) as [[y_p|e] w']; [|done].
  destruct Hp as (m & Hm & Hh). exists m. repeat split; done.
Qed.

Lemma fc_single_forecast_spec_witness :
  fc_single (FR:=float64_flags) 3 (OrderTuple 1 0 1) [1; 2]%float [0.5; 0.25]%float
            2%float [0.5]%float [0.5]%float (demo_world 0)
  = (Ok [2.125; 2.0625; 2.03125]%float, demo_world 0) /\
  forecast (ER:=demo_externals 0) 0 5 (demo_world 0)
  = (Ok (mkMatrix 5 [[5; 5; 5; 5; 5]; [5; 5; 5; 5; 5]]%float),
     logged CallKalmanFilter (logged CallKalmanInit (demo_world 0))).
Proof.
  destruct (fc_single_forecast_spec (ER:=demo_externals 0) 3 1 0 1 [1; 2]%float
              [0.5; 0.25]%float 2%float [0.5]%float [0.5]%float (demo_world 0))
    as (_ & Hwarn & _ & _ & Hmean); [reflexivity | reflexivity | simpl; lia | simpl; lia |].
  split.
  - rewrite (Hwarn eq_refl). vm_compute. reflexivity.
  - rewrite (Hmean 0 (demo_model 0) 2 [0; 0]%float (mat_zeros 3 2)
               (logged CallKalmanFilter (logged CallKalmanInit (demo_world 0))));
      reflexivity.
Defined.

Section ModeFacts.
Context {R : Type} {NR : Numeric R} {FR : FpFlags R} {ER : Externals R}.
Variable w0 : World R.

Local Abbreviation I := (extends_coded w0).
Local Abbreviation J := (extends_coded_in w0).
Local Abbreviation E := (fun (_ : exn) (w : World R) => extends_coded w0 w).

Lemma extends_coded_refl : I w0.
Proof. exists []. by rewrite app_nil_r. Qed.

(** Steps that touch neither the mode nor the log. *)
Lemma I_new_model m : preserves I (new_model m).
Proof. intros w Hw. exact Hw. Qed.
Lemma I_update_model r f : preserves I (update_model r f).
Proof. intros w Hw. unfold update_model. by destruct (heap w !! r). Qed.
Lemma I_print s : preserves I (print s).
Proof. intros w Hw. exact Hw. Qed.
Lemma J_new_model fm m : preserves (J fm) (new_model m).
Proof. intros w Hw. exact Hw. Qed.
Lemma J_update_model fm r f : preserves (J fm) (update_model r f).
Proof. intros w Hw. unfold update_model. by destruct (heap w !! r). Qed.
Lemma J_print fm s : preserves (J fm) (print s).
Proof. intros w Hw. exact Hw. Qed.

Lemma hoare_of_preserves {A} (K : World R -> Prop) (c : M R A) Q (E' : exn -> World R -> Prop) :
  preserves K c -> (forall a w, K w -> Q a w) -> (forall e w, K w -> E' e w) ->
  hoare K c Q E'.
Proof. intros Hc HQ HE. eapply hoare_conseq; [exact Hc | done | done | done]. Qed.

Lemma J_I fm w : J fm w -> I w.
Proof. by intros [? _]. Qed.

Lemma J_E fm (e : exn) w : J fm w -> I w.
Proof. by intros [? _]. Qed.

Lemma hoare_seterr fm : hoare I (np_seterr fm) (fun _ => J fm) E.
Proof. intros w Hw. split; [exact Hw | done]. Qed.

Lemma hoare_observe fm r :
  observed_as_coded (r, fm) -> hoare (J fm) (observe r) (fun _ => J fm) E.
Proof.
  intros Hr w [(t & Ht & Hall) Hm]. split; [|done].
  exists (t ++ [(r, fm)]). simpl. rewrite Ht, Hm, <- app_assoc. split; [done|].
  apply Forall_app. split; [done|]. by apply Forall_singleton.
Qed.

Lemma hoare_call {A} fm r (f : FpMode -> res A) :
  observed_as_coded (r, fm) -> hoare (J fm) (call r f) (fun _ => J fm) E.
Proof.
  intros Hr. unfold call.
  eapply hoare_bind; [by apply hoare_observe|]. intros ?.
  apply hoare_of_preserves; [|done|apply J_E]. preserves_auto.
Qed.

(** A silent step inside a triple. *)
Lemma hoare_bind_silent {A B} fm (c : M R A) (f : A -> M R B) Q :
  preserves (J fm) c -> (forall a, hoare (J fm) (f a) Q E) -> hoare (J fm) (c ≫= f) Q E.
Proof. intros Hc Hf. apply hoare_bind_pres; [done | apply J_E | done]. Qed.

Lemma hoare_bind_silent_I {A B} (c : M R A) (f : A -> M R B) Q :
  preserves I c -> (forall a, hoare I (f a) Q E) -> hoare I (c ≫= f) Q E.
Proof. intros Hc Hf. apply hoare_bind_pres; [done | done | done]. Qed.

Lemma hoare_weaken_pre {A} fm (c : M R A) Q :
  hoare I c Q E -> hoare (J fm) c Q E.
Proof. intros Hc. eapply hoare_conseq; [exact Hc | apply J_I | done | done]. Qed.

Lemma hoare_batch_trans p q nb x :
  hoare I (batch_trans p q nb x) (fun _ => J FpWarn) E.
Proof.
  unfold batch_trans.
  apply hoare_bind_silent_I; [preserves_auto | intros [[mu ar] ma]].
  eapply hoare_bind; [apply hoare_seterr | intros ?].
  eapply hoare_bind with (Q := fun _ => J FpRaise).
  { apply hoare_for_rangeM with (Inv := fun _ _ => J FpRaise); [by intros | | by intros].
    intros i [ar2 ma2] _.
    apply hoare_bind_silent; [preserves_auto | intros ?].
    eapply hoare_bind; [by apply hoare_call | intros ?].
    apply hoare_bind_silent; [preserves_auto | intros ?].
    eapply hoare_bind; [by apply hoare_call | intros ?].
    apply hoare_ret. done. }
  intros [ar2 ma2].
  eapply hoare_bind; [apply hoare_weaken_pre, hoare_seterr | intros ?].
  apply hoare_of_preserves; [preserves_auto | done | apply J_E].
Qed.

Lemma hoare_batch_invtrans p q nb x :
  hoare (J FpRaise) (batch_invtrans p q nb x) (fun _ => J FpRaise) E.
Proof.
  unfold batch_invtrans.
  apply hoare_bind_silent; [preserves_auto | intros [[mu ar] ma]].
  eapply hoare_bind with (Q := fun _ => J FpRaise).
  { apply hoare_for_rangeM with (Inv := fun _ _ => J FpRaise); [by intros | | by intros].
    intros i [ar2 ma2] _.
    apply hoare_bind_silent; [preserves_auto | intros ?].
    eapply hoare_bind; [by apply hoare_call | intros ?].
    apply hoare_bind_silent; [preserves_auto | intros ?].
    eapply hoare_bind; [by apply hoare_call | intros ?].
    apply hoare_bind_silent; [preserves_auto | intros ?].
    apply hoare_bind_silent; [preserves_auto | intros ?].
    apply hoare_ret. done. }
  intros [ar2 ma2].
  apply hoare_of_preserves; [preserves_auto | done | apply J_E].
Qed.

Lemma hoare_run_kalman model gpu ip :
  hoare (J FpWarn) (run_kalman model gpu ip) (fun _ => J FpWarn) E.
Proof.
  unfold run_kalman.
  apply hoare_bind_silent; [preserves_auto | intros ?].
  eapply hoare_bind; [by apply hoare_call | intros ?].
  apply hoare_bind_silent; [preserves_auto | intros ?].
  apply hoare_bind_silent; [preserves_auto | intros ?].
  apply hoare_bind_silent; [preserves_auto | intros [[p d] q]].
  destruct (decide (d = 0%Z)); [by apply hoare_call|].
  destruct (decide (d = 1%Z)); [|by apply hoare_raise; intros w; apply J_I].
  apply hoare_bind_silent; [preserves_auto | intros ?]. by apply hoare_call.
Qed.

Lemma hoare_loglike model gpu :
  hoare (J FpWarn) (loglike model gpu) (fun _ => J FpWarn) E.
Proof.
  unfold loglike. eapply hoare_bind; [apply hoare_run_kalman | intros [ll vs]].
  by apply hoare_ret.
Qed.

Lemma hoare_ll_f nb np o y x gpu :
  hoare I (ll_f nb np o y x gpu true) (fun _ => J FpWarn) E.
Proof.
  unfold ll_f. destruct o as [[p d] q].
  eapply hoare_bind; [apply hoare_batch_trans | intros ?].
  apply hoare_bind_silent; [preserves_auto | intros [[mu ar] ma]].
  apply hoare_bind_silent; [apply J_new_model | intros ?].
  apply hoare_loglike.
Qed.

Lemma hoare_ll_gf nb np o y x h gpu :
  hoare I (ll_gf nb np o y x h gpu true) (fun _ _ => True%type) E
  /\ preserves I (ll_gf nb np o y x h gpu true).
Proof.
  assert (Hp : preserves I (ll_gf nb np o y x h gpu true)).
  { unfold ll_gf.
    apply preserves_bind; [preserves_auto | intros ?].
    apply preserves_bind; [|intros [fd grad]; apply preserves_ret].
    apply preserves_for_rangeM. intros i [fd grad].
    apply preserves_bind; [preserves_auto | intros ?].
    apply preserves_bind; [preserves_auto | intros ?].
    apply preserves_bind; [preserves_auto | intros ?].
    apply preserves_bind; [|intros ?].
    { eapply hoare_conseq; [apply hoare_ll_f | done | by intros ? ? [? _] | done]. }
    apply preserves_bind; [preserves_auto | intros ?].
    apply preserves_bind; [|intros ?].
    { eapply hoare_conseq; [apply hoare_ll_f | done | by intros ? ? [? _] | done]. }
    eapply hoare_bind; [apply hoare_seterr | intros ?].
    eapply hoare_bind; [by apply hoare_observe | intros ?].
    apply hoare_of_preserves; [|intros ? ?; apply J_I | apply J_E].
    preserves_auto. }
  split; [|done]. eapply hoare_conseq; [exact Hp | done | done | done].
Qed.

Lemma preserves_I_fit_f y o gpu nb np ns x : preserves I (fit_f y o gpu nb np ns x).
Proof.
  unfold fit_f. apply preserves_bind; [|intros ?; preserves_auto].
  eapply hoare_conseq; [apply hoare_ll_f | done | by intros ? ? [? _] | done].
Qed.

Lemma preserves_I_fit_gf y o h gpu nb np ns x : preserves I (fit_gf y o h gpu nb np ns x).
Proof.
  unfold fit_gf. apply preserves_bind; [|intros ?; preserves_auto].
  apply hoare_ll_gf.
Qed.

Lemma hoare_fit_x0 p q nb init :
  hoare (J FpRaise) (fit_x0 p q nb init) (fun _ => J FpRaise) E.
Proof.
  unfold fit_x0. eapply hoare_bind with (Q := fun _ => J FpRaise).
  - destruct init as [mu0 ar0 ma0|mu0 ar0 ma0].
    + eapply hoare_bind; [by apply hoare_call | intros ?].
      eapply hoare_bind; [by apply hoare_call | intros ?]. by apply hoare_ret.
    + apply hoare_bind_silent; [preserves_auto | intros ?]. apply hoare_batch_invtrans.
  - intros x0. apply hoare_of_preserves; [preserves_auto | done | apply J_E].
Qed.

(** Throughout [fit] every observed call is made as coded, and [fit]
    returns in permissive mode. *)
Lemma hoare_fit y o init disp h gpu :
  hoare I (fit y o init disp h gpu) (fun _ => J FpWarn) E.
Proof.
  unfold fit.
  eapply hoare_bind; [apply hoare_seterr | intros ?]. destruct o as [[p d] q].
  eapply hoare_bind; [apply hoare_fit_x0 | intros ?].
  eapply hoare_bind; [by apply hoare_observe | intros ?].
  apply hoare_bind_silent; [preserves_auto | intros ?].
  eapply hoare_bind with (Q := fun _ => I).
  { apply hoare_weaken_pre. apply hoare_of_preserves; [|done|done].
    apply preserves_run_opt; intros x; [apply preserves_I_fit_f | apply preserves_I_fit_gf]. }
  intros [[x n] flags].
  apply hoare_bind_silent_I.
  { destruct (existsb _ flags); [apply I_print | apply preserves_ret]. }
  intros ?.
  eapply hoare_bind; [apply hoare_batch_trans | intros ?].
  apply hoare_bind_silent; [preserves_auto | intros [[mu ar] ma]].
  apply hoare_bind_silent; [apply J_new_model | intros ?].
  apply hoare_bind_silent; [apply J_update_model | intros ?].
  by apply hoare_ret.
Qed.
End ModeFacts.

(** C7 (as stated): in a run of [fit] the forward transform is called under
    [FpRaise], not in permissive mode, and the Kalman kernel, called by the
    objective during the optimization, under [FpWarn], not in strict mode. *)
Lemma fit_trap_mode_not_as_claimed :
  let t := calls (snd (fit (ER:=demo_externals 0) demo_y (1, 0%Z, 0)
                           (InitScalar 0%float [0.5%float] []) (-1) num_1e_9 true world0)) in
  t !! 3 = Some (CallArTrans, FpRaise) /\
  t !! 8 = Some (CallKalmanFilter, FpWarn) /\
  ~ Forall observed_as_claimed t.
Proof.
  cbv zeta.
  split; [vm_compute; reflexivity|]. split; [vm_compute; reflexivity|].
  intros Hall.
  assert (H3 : calls (snd (fit (ER:=demo_externals 0) demo_y (1, 0%Z, 0)
                  (InitScalar 0%float [0.5%float] []) (-1) num_1e_9 true world0)) !! 3
               = Some (CallArTrans, FpRaise)) by (vm_compute; reflexivity).
  pose proof (Forall_lookup_1 _ _ _ _ Hall H3) as Hc.
  unfold observed_as_claimed in Hc. simpl in Hc. discriminate Hc.
Qed.

(** C7 (amended): in every run of [fit], from any world, each observed call
    is made under the trap mode the code sets for it: the coefficient
    transforms (forward and inverse), the minimizer and the central
    difference under [FpRaise], the Kalman routines under [FpWarn]; and
    when [fit] returns the mode is [FpWarn]. *)
Theorem fit_trap_modes {R} {NR : Numeric R} {FR : FpFlags R} {ER : Externals R}
    (y : Matrix R) (o : Order) (init : InitParams) (disp : Z) (h : R) (gpu : bool)
    (w : World R) :
  (exists t, calls (snd (fit y o init disp h gpu w)) = calls w ++ t /\
             Forall observed_as_coded t) /\
  match fst (fit y o init disp h gpu w) with
  | Ok _ => fp_mode (snd (fit y o init disp h gpu w)) = FpWarn
  | Err _ => True
  end.
Proof.
  pose proof (hoare_fit w y o init disp h gpu w (extends_coded_refl w)) as H.
  destruct (fit y o init disp h gpu w) as [[ref|e] w']; simpl.
  - destruct H as [H Hm]. done.
  - done.
Qed.

Section FitFacts.
Context {R : Type} {NR : Numeric R} {FR : FpFlags R} {ER : Externals R}.

(** Only [print] writes to the standard output. *)
Lemma stdout_observe s r : preserves (fun w : World R => stdout w = s) (observe r).
Proof. intros w Hw. exact Hw. Qed.

Lemma stdout_seterr s m : preserves (fun w : World R => stdout w = s) (np_seterr m).
Proof. intros w Hw. exact Hw. Qed.

Lemma stdout_new_model s m : preserves (fun w : World R => stdout w = s) (new_model m).
Proof. intros w Hw. exact Hw. Qed.

Lemma stdout_fit_x0 p q nb init (w : World R) r w' :
  fit_x0 p q nb init w = (r, w') -> stdout w' = stdout w.
Proof.
  apply (preserves_run (fun w' => stdout w' = stdout w)); [|done].
  apply preserves_fit_x0. apply stdout_observe.
Qed.

Lemma stdout_batch_trans p q nb x (w : World R) r w' :
  batch_trans p q nb x w = (r, w') -> stdout w' = stdout w.
Proof.
  apply (preserves_run (fun w' => stdout w' = stdout w)); [|done].
  apply preserves_batch_trans; [apply stdout_observe | apply stdout_seterr].
Qed.

Lemma stdout_run_opt t y o h gpu nb np ns (w : World R) r w' :
  run_opt t (fit_f y o gpu nb np ns) (fit_gf y o h gpu nb np ns) w = (r, w') ->
  stdout w' = stdout w.
Proof.
  apply (preserves_run (fun w' => stdout w' = stdout w)); [|done].
  apply preserves_run_opt; intros x.
  - apply preserves_fit_f; [apply stdout_observe | apply stdout_seterr | apply stdout_new_model].
  - apply preserves_fit_gf; [apply stdout_observe | apply stdout_seterr | apply stdout_new_model].
Qed.

(** Whatever [batch_trans] returns has the packed length. *)
Lemma batch_trans_length p q nb x (w : World R) Tx w' :
  batch_trans p q nb x w = (Ok Tx, w') -> length Tx = nb * (1 + p + q).
Proof.
  intros H.
  assert (Hh : hoare (fun _ => True) (batch_trans p q nb x)
                 (fun Tx _ => length Tx = nb * (1 + p + q)) (fun _ _ => True)).
  { unfold batch_trans.
    eapply hoare_bind with (Q := fun _ _ => True); [by apply hoare_lift | intros [[mu ar] ma]].
    eapply hoare_bind with (Q := fun _ _ => True); [by intros ? ? | intros ?].
    eapply hoare_bind with (Q := fun _ _ => True).
    { intros w1 _. by destruct (for_rangeM _ _ _ w1) as [[?|?] ?]. }
    intros [ar2 ma2].
    eapply hoare_bind with (Q := fun _ _ => True); [by intros ? ? | intros ?].
    apply hoare_lift; [|done]. intros Tx0 w1 Hp _. by apply length_pack in Hp. }
  specialize (Hh w I). by rewrite H in Hh.
Qed.

Lemma unpack_full p q nb (x : list R) :
  length x = nb * (1 + p + q) -> exists r, unpack p q nb x = Ok r.
Proof.
  intros Hx. apply unpack_returns. intros i Hi. rewrite Hx.
  apply Nat.mul_lt_mono_pos_r; lia.
Qed.
End FitFacts.

Lemma fit_flagged_returns {R} {NR : Numeric R} {FR : FpFlags R} {ER : Externals R}
    (y : Matrix R) (p : nat) (d : Z) (q : nat) (init : InitParams) (disp : Z) (h : R)
    (gpu : bool) (w w1 w2 w3 : World R) (x0 x : list R) (n : Z) (flags : list Z)
    (Tx : list R) :
  let nb := n_cols y in
  let np := 1 + p + q in
  fit_x0 p q nb init (snd (np_seterr FpRaise w)) = (Ok x0, w1) ->
  run_opt (batched_fmin_lbfgs_b (fp_mode w1) x0 nb disp)
          (fit_f y (p, d, q) gpu nb np (n_rows y))
          (fit_gf y (p, d, q) h gpu nb np (n_rows y))
          (logged CallOptimizer w1) = (Ok (x, n, flags), w2) ->
  Exists (fun fl => fl <> 0%Z) flags ->
  batch_trans p q nb x (snd (print fit_warning w2)) = (Ok Tx, w3) ->
  exists mu ar ma ref w',
    unpack p q nb Tx = Ok (mu, ar, ma) /\
    fit y (p, d, q) init disp h gpu w = (Ok ref, w') /\
    heap w' !! ref
    = Some (mkARIMAModel (replicate nb (OrderTuple p d q)) mu ar ma y
                         (n_rows y) nb None (Some n)) /\
    stdout w' = stdout w ++ [fit_warning].
Proof.
  intros nb np H0 H1 Hfl H3.
  destruct (unpack_full p q nb Tx (batch_trans_length _ _ _ _ _ _ _ H3)) as [[[mu ar] ma] Hu].
  exists mu, ar, ma, (length (heap w3)).
  eexists. split; [exact Hu|].
  assert (Hex : existsb (fun fl => negb (bool_decide (fl = 0%Z))) flags = true).
  { apply existsb_exists. apply Exists_exists in Hfl as (fl & Hin & Hne).
    exists fl. split; [by apply list_elem_of_In|]. by rewrite bool_decide_eq_false_2. }
  assert (Hrun : fit y (p, d, q) init disp h gpu w
    = (Ok (length (heap w3)),
       mkWorld (fp_mode w3) (calls w3) (stdout w3)
         (heap w3 ++ [mkARIMAModel (replicate nb (OrderTuple p d q)) mu ar ma y
                         (n_rows y) nb None (Some n)]))).
  { unfold fit. rewrite M_bind_unfold.
    change (np_seterr FpRaise w) with (Ok tt, snd (np_seterr (R:=R) FpRaise w)).
    cbv beta iota zeta. fold nb.
    rewrite (run_bind_ok _ _ _ _ _ H0).
    rewrite M_bind_unfold. change (observe CallOptimizer w1) with (Ok tt, logged CallOptimizer w1).
    cbv beta iota. rewrite M_bind_unfold.
    change (get_mode (logged CallOptimizer w1)) with (Ok (fp_mode w1), logged CallOptimizer w1).
    cbv beta iota. fold np.
    rewrite (run_bind_ok _ _ _ _ _ H1). cbv beta iota.
    rewrite Hex. rewrite M_bind_unfold.
    change (print fit_warning w2) with (Ok tt, snd (print (R:=R) fit_warning w2)).
    cbv beta iota.
    rewrite (run_bind_ok _ _ _ _ _ H3).
    rewrite M_bind_unfold. unfold lift at 1. rewrite Hu. cbv beta iota.
    rewrite M_bind_unfold. unfold ARIMAModel_init, new_model. cbv beta iota.
    rewrite M_bind_unfold. unfold update_model. cbn [heap].
    rewrite lookup_app_r by lia. rewrite Nat.sub_diag. cbn [lookup list_lookup].
    cbv beta iota. unfold mret, M_ret. cbn [fp_mode calls stdout heap].
    rewrite insert_app_r_alt by lia. rewrite Nat.sub_diag. reflexivity. }
  split; [exact Hrun|]. cbn [heap stdout]. split.
  - rewrite lookup_app_r by lia. by rewrite Nat.sub_diag.
  - rewrite (stdout_batch_trans _ _ _ _ _ _ _ H3). cbn [stdout snd print].
    rewrite (stdout_run_opt _ _ _ _ _ _ _ _ _ _ _ H1). cbn [stdout logged].
    by rewrite (stdout_fit_x0 _ _ _ _ _ _ _ H0).
Qed.

(** When the forward transform of the minimizer's result raises, [fit]
    raises with it, the warning printed. *)
Lemma fit_flagged_raises {R} {NR : Numeric R} {FR : FpFlags R} {ER : Externals R}
    (y : Matrix R) (p : nat) (d : Z) (q : nat) (init : InitParams) (disp : Z) (h : R)
    (gpu : bool) (w w1 w2 w3 : World R) (x0 x : list R) (n : Z) (flags : list Z)
    (e : exn) :
  let nb := n_cols y in
  let np := 1 + p + q in
  fit_x0 p q nb init (snd (np_seterr FpRaise w)) = (Ok x0, w1) ->
  run_opt (batched_fmin_lbfgs_b (fp_mode w1) x0 nb disp)
          (fit_f y (p, d, q) gpu nb np (n_rows y))
          (fit_gf y (p, d, q) h gpu nb np (n_rows y))
          (logged CallOptimizer w1) = (Ok (x, n, flags), w2) ->
  Exists (fun fl => fl <> 0%Z) flags ->
  batch_trans p q nb x (snd (print fit_warning w2)) = (Err e, w3) ->
  fit y (p, d, q) init disp h gpu w = (Err e, w3) /\
  stdout w3 = stdout w ++ [fit_warning].
Proof.
  intros nb np H0 H1 Hfl H3.
  assert (Hex : existsb (fun fl => negb (bool_decide (fl = 0%Z))) flags = true).
  { apply existsb_exists. apply Exists_exists in Hfl as (fl & Hin & Hne).
    exists fl. split; [by apply list_elem_of_In|]. by rewrite bool_decide_eq_false_2. }
  split.
  - unfold fit. rewrite M_bind_unfold.
    change (np_seterr FpRaise w) with (Ok tt, snd (np_seterr (R:=R) FpRaise w)).
    cbv beta iota zeta. fold nb.
    rewrite (run_bind_ok _ _ _ _ _ H0).
    rewrite M_bind_unfold. change (observe CallOptimizer w1) with (Ok tt, logged CallOptimizer w1).
    cbv beta iota. rewrite M_bind_unfold.
    change (get_mode (logged CallOptimizer w1)) with (Ok (fp_mode w1), logged CallOptimizer w1).
    cbv beta iota. fold np.
    rewrite (run_bind_ok _ _ _ _ _ H1). cbv beta iota.
    rewrite Hex. rewrite M_bind_unfold.
    change (print fit_warning w2) with (Ok tt, snd (print (R:=R) fit_warning w2)).
    cbv beta iota.
    by rewrite (run_bind_err _ _ _ _ _ H3).
  - rewrite (stdout_batch_trans _ _ _ _ _ _ _ H3). cbn [stdout snd print].
    rewrite (stdout_run_opt _ _ _ _ _ _ _ _ _ _ _ H1). cbn [stdout logged].
    by rewrite (stdout_fit_x0 _ _ _ _ _ _ _ H0).
Qed.




Section StridedFacts.

Lemma filter_none {A} (P : A -> Prop) `{!forall a, Decision (P a)} (l : list A) :
  Forall (fun a => ~ P a) l -> filter P l = [].
Proof.
  induction 1 as [|a l Ha _ IH]; [done|]. by rewrite filter_cons_False.
Qed.

Lemma strided_residue i step c j :
  i < step -> j < step ->
  (i <= c * step + j /\ (c * step + j - i) `mod` step = 0) <-> j = i.
Proof.
  intros Hi Hj. split.
  - intros [Hle Hmod].
    apply Nat.Div0.mod_divides in Hmod as [e He].
    assert (c * step + j = e * step + i) by lia.
    assert (e = c) by nia. lia.
  - intros ->. split; [lia|].
    replace (c * step + i - i) with (c * step) by lia. apply Nat.Div0.mod_mul.
Qed.

Lemma strided_block i step c :
  i < step ->
  filter (fun k => i <= k /\ (k - i) `mod` step = 0) (seq (c * step) step) = [i + c * step].
Proof.
  intros Hi.
  assert (Hs : seq (c * step) step
               = seq (c * step) i ++ [c * step + i] ++ seq (c * step + i + 1) (step - i - 1)).
  { transitivity (seq (c * step) (i + (1 + (step - i - 1)))); [f_equal; lia|].
    rewrite !seq_app. simpl. do 2 f_equal. }
  rewrite Hs, !filter_app.
  rewrite filter_none, filter_cons_True, filter_nil, filter_none; simpl.
  - f_equal. lia.
  - apply Forall_forall. intros k Hk%elem_of_seq Hp.
    replace k with (c * step + (k - c * step)) in Hp by lia.
    apply strided_residue in Hp; lia.
  - replace (c * step + i) with (c * step + i) by lia. apply strided_residue; lia.
  - apply Forall_forall. intros k Hk%elem_of_seq Hp.
    replace k with (c * step + (k - c * step)) in Hp by lia.
    apply strided_residue in Hp; lia.
Qed.

(** The slots of [l[i::step]] in an array of [n] blocks of [step]. *)
Lemma strided_slots_blocks i step n :
  i < step -> strided_slots i step (n * step) = (fun b => i + b * step) <$> seq 0 n.
Proof.
  intros Hi. unfold strided_slots. induction n as [|n IH]; [done|].
  replace (S n * step) with (n * step + step) by lia.
  rewrite seq_app, filter_app, IH. simpl "+".
  rewrite strided_block by done.
  replace (S n) with (n + 1) by lia. by rewrite seq_app, fmap_app.
Qed.

Lemma strided_slots_disjoint i j step len k :
  i < step -> j < step -> i <> j ->
  k ∈ strided_slots i step len -> k ∉ strided_slots j step len.
Proof.
  intros Hi Hj Hij [[H1 H2] _]%list_elem_of_filter [[H3 H4] _]%list_elem_of_filter.
  apply Nat.Div0.mod_divides in H2 as [e He].
  apply Nat.Div0.mod_divides in H4 as [e' He'].
  assert (e * step + i = e' * step + j) by lia.
  assert (e = e') by nia. subst. lia.
Qed.
End StridedFacts.

Section ScatterFacts.
Context {R : Type} {NR : Numeric R}.

Lemma scatter_length (ps : list (nat * R)) (l : list R) :
  length (foldl (fun acc '(k, c) => <[k:=c]> acc) l ps) = length l.
Proof.
  revert l. induction ps as [|[k c] ps IH]; intros l; simpl; [done|].
  by rewrite IH, length_insert.
Qed.

Lemma scatter_other (ps : list (nat * R)) (l : list R) k :
  k ∉ ps.*1 -> foldl (fun acc '(k, c) => <[k:=c]> acc) l ps !! k = l !! k.
Proof.
  revert l. induction ps as [|[k' c] ps IH]; intros l Hk; simpl; [done|].
  rewrite fmap_cons in Hk. apply not_elem_of_cons in Hk as [Hne Hk].
  rewrite IH by done. by apply list_lookup_insert_ne.
Qed.

Lemma scatter_written (ps : list (nat * R)) (l : list R) k c :
  NoDup ps.*1 -> Forall (fun kc => kc.1 < length l) ps -> (k, c) ∈ ps ->
  foldl (fun acc '(k, c) => <[k:=c]> acc) l ps !! k = Some c.
Proof.
  revert l. induction ps as [|[k' c'] ps IH]; intros l Hnd Hlt Hin; simpl.
  - by apply elem_of_nil in Hin.
  - rewrite fmap_cons in Hnd. apply NoDup_cons in Hnd as [Hk' Hnd].
    apply Forall_cons in Hlt as [Hk'l Hlt]. simpl in *.
    apply elem_of_cons in Hin as [Heq|Hin].
    + injection Heq as -> ->. rewrite scatter_other by done.
      by apply list_lookup_insert_eq.
    + apply IH; [done | | done].
      eapply Forall_impl; [exact Hlt|]. intros kc ?. by rewrite length_insert.
Qed.

Lemma length_np_set_strided i step (v l : list R) :
  length (np_set_strided i step v l) = length l.
Proof. apply scatter_length. Qed.

Lemma np_set_strided_written i step n (v l : list R) b c :
  i < step -> length l = n * step -> length v = n -> v !! b = Some c ->
  np_set_strided i step v l !! (i + b * step) = Some c.
Proof.
  intros Hi Hl Hv Hb. unfold np_set_strided. rewrite Hl, strided_slots_blocks by done.
  assert (Hbn : b < n) by (rewrite <- Hv; by eapply lookup_lt_Some).
  apply scatter_written.
  - rewrite fst_zip by (rewrite length_fmap, length_seq; lia).
    apply NoDup_fmap_2; [|apply NoDup_seq]. intros b1 b2 ?. nia.
  - apply Forall_forall. intros [k c'] Hin. simpl.
    apply elem_of_zip_l in Hin. apply list_elem_of_fmap in Hin as (b' & -> & Hb'%elem_of_seq).
    rewrite Hl. nia.
  - apply list_elem_of_lookup. exists b. apply lookup_zip_with_Some.
    exists (i + b * step), c. split; [done|]. split; [|done].
    rewrite list_lookup_fmap, lookup_seq_lt by done. done.
Qed.

Lemma np_set_strided_other i j step n (v l : list R) b :
  i < step -> j < step -> j <> i -> length l = n * step ->
  np_set_strided i step v l !! (j + b * step) = l !! (j + b * step).
Proof.
  intros Hi Hj Hne Hl. unfold np_set_strided. rewrite Hl, strided_slots_blocks by done.
  apply scatter_other. intros Hin.
  apply list_elem_of_fmap in Hin as ([k c] & Hk & Hin). simpl in Hk. subst k.
  apply elem_of_zip_l in Hin. apply list_elem_of_fmap in Hin as (b' & Heq & _).
  assert (b = b') by nia. subst. lia.
Qed.

Lemma length_np_tile (a : list R) n : length (np_tile a n) = n * length a.
Proof.
  unfold np_tile. induction n as [|n IH]; simpl; [done|].
  by rewrite length_app, IH.
Qed.

Lemma np_tile_lookup (a : list R) n j b :
  j < length a -> b < n -> np_tile a n !! (j + b * length a) = a !! j.
Proof.
  unfold np_tile. revert b. induction n as [|n IH]; intros b Hj Hb; [lia|].
  simpl. destruct b as [|b].
  - rewrite Nat.add_0_r. by apply lookup_app_l.
  - rewrite lookup_app_r by (simpl; lia).
    replace (j + S b * length a - length a) with (j + b * length a) by (simpl; lia).
    apply IH; lia.
Qed.

Lemma length_perturbation np nb i (h : R) : length (perturbation np nb i h) = nb * np.
Proof.
  unfold perturbation. by rewrite length_np_tile, length_insert, length_np_zeros.
Qed.

(** One position per member is perturbed, by [h]; the others by zero. *)
Lemma perturbation_lookup np nb i (h : R) j b :
  i < np -> j < np -> b < nb ->
  perturbation np nb i h !! (j + b * np)
  = Some (if decide (j = i) then h else num_zero).
Proof.
  intros Hi Hj Hb. unfold perturbation.
  pose proof (np_tile_lookup (<[i:=h]> (np_zeros np)) nb j b) as Ht.
  rewrite length_insert, length_np_zeros in Ht. rewrite Ht by done.
  destruct (decide (j = i)) as [->|Hne].
  - apply list_lookup_insert_eq. by rewrite length_np_zeros.
  - rewrite list_lookup_insert_ne by done. by apply lookup_replicate_2.
Qed.
End ScatterFacts.

Section VectorRuns.
Context {R : Type} {NR : Numeric R} {FR : FpFlags R}.

Lemma fst_fp_map {A B} (f : A -> Fp B) (l : list A) :
  fst (fp_map f l) = (fun a => fst (f a)) <$> l.
Proof.
  induction l as [|a l IH]; [done|]. simpl.
  unfold mbind, Fp_bind. destruct (f a) as [b s1]. destruct (fp_map f l) as [bs s2].
  simpl in *. by rewrite IH.
Qed.

Lemma snd_fp_map {A B} (f : A -> Fp B) (l : list A) :
  Forall (fun a => snd (f a) = false) l -> snd (fp_map f l) = false.
Proof.
  induction 1 as [|a l Ha _ IH]; [done|]. simpl.
  unfold mbind, Fp_bind. destruct (f a) as [b s1]. destruct (fp_map f l) as [bs s2].
  simpl in *. by subst.
Qed.

(** An elementwise operation none of whose steps signals returns in either
    trap mode. *)
Lemma run_np_vec_op op (a b : list R) (w : World R) :
  length a = length b ->
  (forall k u v, a !! k = Some u -> b !! k = Some v -> signals op u v = false) ->
  np_vec_op op a b w = (Ok (zip_with (apply_op op) a b), w).
Proof.
  intros Hl Hq. unfold np_vec_op. rewrite decide_True by done.
  rewrite run_fp_run.
  - rewrite fst_fp_map. do 2 f_equal.
    clear. revert b. induction a as [|u a IH]; intros [|v b]; simpl; try done.
    by rewrite <- IH.
  - right. apply snd_fp_map. apply Forall_forall. intros [u v] Hin.
    apply list_elem_of_lookup in Hin as [k Hk].
    apply lookup_zip_with_Some in Hk as (u' & v' & Heq & Hu & Hv).
    injection Heq as -> ->. simpl. by eapply Hq.
Qed.

Lemma run_np_vec_op_mode op (a b : list R) (w : World R) :
  length a = length b ->
  (fp_mode w = FpRaise -> flagless op a b) ->
  np_vec_op op a b w = (Ok (zip_with (apply_op op) a b), w).
Proof.
  intros Hl Hq. destruct (fp_mode w) eqn:Hm.
  - apply run_np_vec_op; [done | by apply Hq].
  - unfold np_vec_op. rewrite decide_True by done.
    rewrite (run_fp_run_warn _ _ Hm), fst_fp_map. do 2 f_equal.
    clear. revert b. induction a as [|u a IH]; intros [|v b]; simpl; try done.
    by rewrite <- IH.
Qed.

Lemma run_np_vec_scalar op (a : list R) s (w : World R) :
  Forall (fun u => signals op u s = false) a ->
  np_vec_scalar op a s w = (Ok ((fun u => apply_op op u s) <$> a), w).
Proof.
  intros Hq. unfold np_vec_scalar. rewrite run_fp_run.
  - by rewrite fst_fp_map.
  - right. by apply snd_fp_map.
Qed.
End VectorRuns.

Ltac step_lift :=
  lazymatch goal with
  | |- context [(lift (Ok ?a) ≫= ?f) ?w] =>
      change ((lift (Ok a) ≫= f) w) with (f a w); cbv beta
  end.

Section GradientFacts.
Context {R : Type} {NR : Numeric R} {FR : FpFlags R} {ER : Externals R}.
Variables (nb np : nat) (o : Order) (y : Matrix R) (x : list R) (h : R) (gpu trans : bool).
Variables ph mh : nat -> list R.
Variable w : World R.

Let W := gradient_world nb np o y x h gpu trans w.
Let Wp (i : nat) : World R :=
  snd (ll_f nb np o y (zip_with num_add x (perturbation np nb i h)) gpu trans (W i)).

Hypothesis Hnp : 0 < np.
Hypothesis Hx : length x = nb * np.
Hypothesis Heval : forall i, i < np ->
  fst (ll_f nb np o y (zip_with num_add x (perturbation np nb i h)) gpu trans (W i))
  = Ok (ph i) /\
  fst (ll_f nb np o y (zip_with num_sub x (perturbation np nb i h)) gpu trans (Wp i))
  = Ok (mh i) /\
  length (ph i) = nb /\ length (mh i) = nb.
Hypothesis Hflags : forall i, i < np ->
  (fp_mode (W i) = FpRaise -> flagless OpAdd x (perturbation np nb i h)) /\
  (fp_mode (Wp i) = FpRaise -> flagless OpSub x (perturbation np nb i h)) /\
  flagless OpSub (ph i) (mh i) /\
  (forall b u v, ph i !! b = Some u -> mh i !! b = Some v ->
     signals OpDiv (num_sub u v) (num_mul (num_of_Z 2) h) = false).

(** The central differences of the members for parameter [i]. *)
Let cd (i : nat) : list R :=
  (fun u => num_div u (num_mul (num_of_Z 2) h)) <$> zip_with num_sub (ph i) (mh i).

Lemma length_cd i : i < np -> length (cd i) = nb.
Proof.
  intros Hi. destruct (Heval i Hi) as (_ & _ & Hp & Hm).
  unfold cd. rewrite length_fmap, length_zip_with. lia.
Qed.

Lemma cd_div_quiet i :
  i < np ->
  Forall (fun u => signals OpDiv u (num_mul (num_of_Z 2) h) = false)
         (zip_with num_sub (ph i) (mh i)).
Proof.
  intros Hi. apply Forall_forall. intros u Hin.
  apply list_elem_of_lookup in Hin as [k Hk].
  apply lookup_zip_with_Some in Hk as (a & b & -> & Ha & Hb).
  destruct (Hflags i Hi) as (_ & _ & _ & Hd). by apply (Hd k).
Qed.

Lemma ll_gf_runs :
  exists grad, ll_gf nb np o y x h gpu trans w = (Ok grad, W np) /\
    length grad = length x /\
    forall i b, i < np -> b < nb -> grad !! (i + b * np) = cd i !! b.
Proof.
  assert (Hh : hoare (fun w' => w' = w) (ll_gf nb np o y x h gpu trans)
                 (fun grad w' => w' = W np /\ length grad = length x /\
                    forall i b, i < np -> b < nb -> grad !! (i + b * np) = cd i !! b)
                 (fun _ _ => False)).
  { unfold ll_gf. rewrite decide_False by lia. rewrite bool_decide_eq_true_2 by done.
    eapply hoare_bind with (Q := fun _ w' => w' = w); [by intros ? ?|]. intros _.
    eapply hoare_bind with
      (Q := fun s w' => w' = W np /\ length s.2 = length x /\
                       forall i b, i < np -> b < nb -> s.2 !! (i + b * np) = cd i !! b).
    2:{ intros [fd grad]. by apply hoare_ret. }
    apply hoare_for_rangeM with
      (Inv := fun k (s : list R * list R) (w' : World R) =>
                w' = W k /\ s.1 = np_zeros np /\ length s.2 = length x /\
                forall i b, i < k -> b < nb -> s.2 !! (i + b * np) = cd i !! b).
    - intros w0 ->. simpl. split; [done|]. split; [done|].
      split; [apply length_np_zeros|]. intros; lia.
    - intros i [fd grad] Hi w0 (-> & Hfd & Hlen & Hinv). simpl in Hfd, Hlen, Hinv. subst fd.
      destruct (Heval i Hi) as (Hph & Hmh & Hlp & Hlm).
      destruct (Hflags i Hi) as (Hfa & Hfs & Hfd & _).
      set (d := perturbation np nb i h) in *.
      assert (Hld : length d = length x) by (unfold d; rewrite length_perturbation; lia).
      assert (Hset1 : np_setitem i h (np_zeros np) = Ok (<[i:=h]> (np_zeros np))).
      { unfold np_setitem. rewrite decide_True; [done | rewrite length_np_zeros; lia]. }
      assert (Hset2 : np_setitem i num_zero (<[i:=h]> (np_zeros np)) = Ok (np_zeros np)).
      { unfold np_setitem.
        rewrite decide_True by (rewrite length_insert, length_np_zeros; lia).
        rewrite list_insert_insert_eq. f_equal. apply list_insert_id.
        apply lookup_replicate_2. lia. }
      rewrite Hset1. step_lift. rewrite Hset2. step_lift.
      change (np_tile (<[i:=h]> (np_zeros np)) nb) with d.
      rewrite (run_bind_ok _ _ _ _ _ (run_np_vec_op_mode OpAdd x d (W i) (eq_sym Hld) Hfa)).
      change (apply_op OpAdd) with (num_add (R:=R)).
      set (xp := zip_with num_add x d) in *.
      assert (H1 : ll_f nb np o y xp gpu trans (W i) = (Ok (ph i), Wp i)).
      { rewrite (surjective_pairing (ll_f nb np o y xp gpu trans (W i))). by rewrite Hph. }
      rewrite (run_bind_ok _ _ _ _ _ H1).
      rewrite (run_bind_ok _ _ _ _ _ (run_np_vec_op_mode OpSub x d (Wp i) (eq_sym Hld) Hfs)).
      change (apply_op OpSub) with (num_sub (R:=R)).
      set (xm := zip_with num_sub x d) in *.
      set (wm := snd (ll_f nb np o y xm gpu trans (Wp i))).
      assert (H2 : ll_f nb np o y xm gpu trans (Wp i) = (Ok (mh i), wm)).
      { rewrite (surjective_pairing (ll_f nb np o y xm gpu trans (Wp i))). by rewrite Hmh. }
      rewrite (run_bind_ok _ _ _ _ _ H2).
      rewrite (run_bind_ok (np_seterr FpRaise) _ wm tt _ eq_refl).
      rewrite (run_bind_ok (observe CallCentralDiff) _ _ tt (W (S i)) eq_refl).
      rewrite (run_bind_ok _ _ _ _ _ (run_np_vec_op OpSub (ph i) (mh i) _
                 (eq_trans Hlp (eq_sym Hlm)) Hfd)).
      change (apply_op OpSub) with (num_sub (R:=R)).
      rewrite (run_bind_ok _ _ _ _ _ (run_np_vec_scalar OpDiv _ (num_mul (num_of_Z 2) h) _
                 (cd_div_quiet i Hi))).
      change (apply_op OpDiv) with (num_div (R:=R)).
      pose proof (length_cd i Hi) as Hcd.
      set (gi := _ <$> zip_with num_sub (ph i) (mh i)).
      assert (Hgi : gi = cd i) by reflexivity. clearbody gi. subst gi.
      rewrite Hx in Hlen.
      destruct (decide (nb = 1)) as [Hnb1|Hnb1].
      + destruct (cd i) as [|g [|? ?]] eqn:Hcdi; simpl in Hcd; try lia.
        unfold np_setitem. rewrite decide_True by nia. step_lift.
        simpl. split; [done|]. split; [done|]. split; [by rewrite length_insert, Hx|].
        intros i0 b Hi0 Hb. assert (b = 0) by lia. subst b. rewrite Nat.add_0_r.
        destruct (decide (i0 = i)) as [->|Hne].
        * rewrite Hcdi. simpl. apply list_lookup_insert_eq. nia.
        * rewrite list_lookup_insert_ne by done.
          rewrite <- (Hinv i0 0) by lia. by rewrite Nat.add_0_r.
      + rewrite Hlen, strided_slots_blocks by done.
        rewrite length_fmap, length_seq, Hcd, bool_decide_eq_true_2 by done.
        change (py_assert true) with (Ok tt). step_lift. simpl. split; [done|].
        split; [done|]. split; [by rewrite length_np_set_strided, Hx|].
        intros i0 b Hi0 Hb.
        destruct (decide (i0 = i)) as [->|Hne].
        * destruct (lookup_lt_is_Some_2 (cd i) b) as [c Hc]; [lia|].
          rewrite Hc. by apply np_set_strided_written with (n := nb).
        * rewrite (np_set_strided_other i i0 np nb) by (done || lia).
          apply Hinv; lia.
    - intros [fd grad] w0 (-> & _ & Hlen & Hinv). done. }
  specialize (Hh w eq_refl).
  destruct (ll_gf nb np o y x h gpu trans w) as [[grad|e] w']; [|done].
  destruct Hh as (-> & Hlen & Hg). by exists grad.
Qed.
End GradientFacts.

Section EvaluatorFacts.
Context {R : Type} {NR : Numeric R} {FR : FpFlags R} {ER : Externals R}.

(** [ll_f] for [d = 0]: after the optional transform, the parameters are
    unpacked into a new model and the kernel is run on the series as it
    is. *)
Lemma ll_f_d0 nb np p q (y : Matrix R) (x : list R) (gpu trans : bool) (w w1 : World R)
    x2 mu ar ma km :
  0 < nb ->
  (if trans then batch_trans p q nb x else mret x) w = (Ok x2, w1) ->
  unpack p q nb x2 = Ok (mu, ar, ma) ->
  init_batched_kalman_matrices (fp_mode w1) ar ma = Ok km ->
  ll_f nb np (p, 0%Z, q) y x gpu trans w
  = (match batched_kfilter (fp_mode w1) y km gpu false with
     | Ok (ll_b, _) => Ok ll_b
     | Err e => Err e
     end,
     logged CallKalmanFilter (logged CallKalmanInit
       (snd (ARIMAModel_init (replicate nb (OrderTuple p 0 q)) mu ar ma y w1)))).
Proof.
  intros Hnb Ht Hu Hk. unfold ll_f.
  rewrite (run_bind_ok _ _ _ _ _ Ht). rewrite Hu. step_lift. cbv beta iota.
  set (m := mkARIMAModel (replicate nb (OrderTuple p 0 q)) mu ar ma y (n_rows y) (n_cols y)
                         None None).
  rewrite (run_bind_ok (ARIMAModel_init _ mu ar ma y) _ w1 (length (heap w1))
             (snd (ARIMAModel_init (replicate nb (OrderTuple p 0 q)) mu ar ma y w1)) eq_refl).
  unfold loglike. rewrite M_bind_unfold.
  set (w2 := snd (ARIMAModel_init (replicate nb (OrderTuple p 0 q)) mu ar ma y w1)).
  assert (Hm : heap w2 !! length (heap w1) = Some m).
  { unfold w2. simpl. rewrite lookup_app_r by lia. by rewrite Nat.sub_diag. }
  assert (Hud : uniform_d (order m) 0).
  { split.
    - simpl. destruct nb; [lia | done].
    - simpl. apply Forall_forall. intros o' [-> _]%elem_of_replicate. by exists p, q. }
  destruct (run_kalman_uniform (length (heap w1)) m gpu false w2 0%Z km Hm Hud Hk) as [H0 _].
  rewrite (H0 eq_refl). simpl.
  by destruct (batched_kfilter (fp_mode w1) y km gpu false) as [[ll_b vs]|e].
Qed.
End EvaluatorFacts.

(** C2: [ll_gf] perturbs one parameter position [i] at a time: the
    perturbation is [h] at the slots [i + b*num_parameters] of every member
    [b] and 0 elsewhere.  When the two evaluations of [ll_f] it makes for
    each [i], at [x + perturbation] and then at [x - perturbation], return
    [ph i] and [mh i] (one value per member), and no floating-point flag is
    raised where trapping is strict, [ll_gf] returns a gradient of the
    length of [x] whose slot [i + b*num_parameters] is member [b]'s central
    difference [(ph i [b] - mh i [b]) / (2*h)]; the slots written for
    distinct positions are disjoint.  [gradient_world] gives the world in
    which each iteration starts. *)
Theorem ll_gf_central_difference {R} {NR : Numeric R} {FR : FpFlags R} {ER : Externals R}
    (nb np : nat) (o : Order) (y : Matrix R) (x : list R) (h : R) (gpu trans : bool)
    (ph mh : nat -> list R) (w : World R) :
  0 < np ->
  length x = nb * np ->
  (forall i, i < np ->
     let d := perturbation np nb i h in
     let w_i := gradient_world nb np o y x h gpu trans w i in
     let w_p := snd (ll_f nb np o y (zip_with num_add x d) gpu trans w_i) in
     fst (ll_f nb np o y (zip_with num_add x d) gpu trans w_i) = Ok (ph i) /\
     fst (ll_f nb np o y (zip_with num_sub x d) gpu trans w_p) = Ok (mh i) /\
     length (ph i) = nb /\ length (mh i) = nb) ->
  (forall i, i < np ->
     let d := perturbation np nb i h in
     let w_i := gradient_world nb np o y x h gpu trans w i in
     let w_p := snd (ll_f nb np o y (zip_with num_add x d) gpu trans w_i) in
     (fp_mode w_i = FpRaise -> flagless OpAdd x d) /\
     (fp_mode w_p = FpRaise -> flagless OpSub x d) /\
     flagless OpSub (ph i) (mh i) /\
     (forall b u v, ph i !! b = Some u -> mh i !! b = Some v ->
        signals OpDiv (num_sub u v) (num_mul (num_of_Z 2) h) = false)) ->
  (exists grad,
     ll_gf nb np o y x h gpu trans w
     = (Ok grad, gradient_world nb np o y x h gpu trans w np) /\
     length grad = length x /\
     forall i b u v, i < np -> ph i !! b = Some u -> mh i !! b = Some v ->
       grad !! (i + b * np)
       = Some (num_div (num_sub u v) (num_mul (num_of_Z 2) h))) /\
  (forall i j b, i < np -> j < np -> b < nb ->
     perturbation np nb i h !! (j + b * np)
     = Some (if decide (j = i) then h else num_zero)) /\
  (forall i j len k, i < np -> j < np -> i <> j ->
     k ∈ strided_slots i np len -> k ∉ strided_slots j np len).
Proof.
  intros Hnp Hx Heval Hflags. split; [|split].
  - destruct (ll_gf_runs nb np o y x h gpu trans ph mh w Hnp Hx Heval Hflags)
      as (grad & Hrun & Hlen & Hg).
    exists grad. split; [done|]. split; [done|].
    intros i b u v Hi Hu Hv.
    assert (Hb : b < nb).
    { destruct (Heval i Hi) as (_ & _ & Hlp & _). rewrite <- Hlp. by eapply lookup_lt_Some. }
    rewrite (Hg i b Hi Hb), list_lookup_fmap.
    by rewrite (proj2 (lookup_zip_with_Some _ _ _ _ _) (ex_intro _ u (ex_intro _ v
                 (conj eq_refl (conj Hu Hv))))).
  - intros i j b Hi Hj Hb. by apply perturbation_lookup.
  - intros i j len k. apply strided_slots_disjoint.
Qed.

Lemma ll_gf_central_difference_witness :
  (exists grad,
     ll_gf (ER:=probe_externals []) 2 2 (1, 0%Z, 0) demo_y [0; 0.5; 0; 0.5]%float
           0.25%float true true world0
     = (Ok grad, gradient_world (ER:=probe_externals []) 2 2 (1, 0%Z, 0) demo_y
                   [0; 0.5; 0; 0.5]%float 0.25%float true true world0 2) /\
     length grad = length [0; 0.5; 0; 0.5]%float /\
     forall i b u v, i < 2 ->
       (match i with 0 => [0.5; 0.5] | _ => [0.75; 0.75] end)%float !! b = Some u ->
       (match i with 0 => [0.5; 0.5] | _ => [0.25; 0.25] end)%float !! b = Some v ->
       grad !! (i + b * 2)
       = Some (num_div (num_sub u v) (num_mul (num_of_Z 2) 0.25%float))) /\
  (forall i j b, i < 2 -> j < 2 -> b < 2 ->
     perturbation 2 2 i 0.25%float !! (j + b * 2)
     = Some (if decide (j = i) then 0.25%float else num_zero)) /\
  (forall i j len k, i < 2 -> j < 2 -> i <> j ->
     k ∈ strided_slots i 2 len -> k ∉ strided_slots j 2 len).
Proof.
  apply (ll_gf_central_difference (ER:=probe_externals []) 2 2 (1, 0%Z, 0) demo_y
           [0; 0.5; 0; 0.5]%float 0.25%float true true
           (fun i => match i with 0 => [0.5; 0.5] | _ => [0.75; 0.75] end)%float
           (fun i => match i with 0 => [0.5; 0.5] | _ => [0.25; 0.25] end)%float
           world0).
  - lia.
  - reflexivity.
  - intros [|[|i]] Hi; [| |lia]; cbv zeta; repeat split; vm_compute; reflexivity.
  - intros [|[|i]] Hi; [| |lia]; cbv zeta.
    + split; [intros _ [|[|[|[|k]]]] u v Hu Hv; try discriminate;
              injection Hu as <-; injection Hv as <-; reflexivity|].
      split; [intros _ [|[|[|[|k]]]] u v Hu Hv; try discriminate;
              injection Hu as <-; injection Hv as <-; reflexivity|].
      split; intros [|[|b]] u v Hu Hv; try discriminate;
        injection Hu as <-; injection Hv as <-; reflexivity.
    + split; [intros _ [|[|[|[|k]]]] u v Hu Hv; try discriminate;
              injection Hu as <-; injection Hv as <-; reflexivity|].
      split; [intros _ [|[|[|[|k]]]] u v Hu Hv; try discriminate;
              injection Hu as <-; injection Hv as <-; reflexivity|].
      split; intros [|[|b]] u v Hu Hv; try discriminate;
        injection Hu as <-; injection Hv as <-; reflexivity.
Defined.

(** The gradient of that run, in numbers: 0 for the means, 1 for the AR
    coefficients, which the kernel of [probe_externals] reports. *)
Remark ll_gf_probe_run :
  fst (ll_gf (ER:=probe_externals []) 2 2 (1, 0%Z, 0) demo_y [0; 0.5; 0; 0.5]%float
             0.25%float true true world0)
  = Ok [0; 1; 0; 1]%float.
Proof. vm_compute. reflexivity. Qed.

Section ObjectFacts.
Context {R : Type} {NR : Numeric R} {FR : FpFlags R} {ER : Externals R}.
Variable P : ARIMAModel R -> Prop.
Variable r : ModelRef.

(** The object behind [r] satisfies [P]. *)
Let holds (w : World R) : Prop := exists m, heap w !! r = Some m /\ P m.

Lemma holds_observe c : preserves holds (observe c).
Proof. intros w Hw. exact Hw. Qed.

Lemma holds_seterr fm : preserves holds (np_seterr fm).
Proof. intros w Hw. exact Hw. Qed.

Lemma holds_print s : preserves holds (print s).
Proof. intros w Hw. exact Hw. Qed.

Lemma holds_new_model m : preserves holds (new_model m).
Proof.
  intros w (m0 & Hm0 & HP). exists m0. split; [|done]. simpl.
  by apply lookup_app_l_Some.
Qed.

(** A model created and then updated leaves the older objects alone. *)
Lemma holds_new_updated {A} m (f : ARIMAModel R -> ARIMAModel R) (k : ModelRef -> M R A) :
  (forall ref, preserves holds (k ref)) ->
  preserves holds (ref ← new_model m; _ ← update_model ref f; k ref).
Proof.
  intros Hk w (m0 & Hm0 & HP).
  rewrite (run_bind_ok (new_model m) _ w (length (heap w))
             (mkWorld (fp_mode w) (calls w) (stdout w) (heap w ++ [m])) eq_refl).
  rewrite M_bind_unfold. unfold update_model at 1. cbn [heap].
  rewrite lookup_app_r by lia. rewrite Nat.sub_diag. cbn [lookup list_lookup].
  apply Hk. exists m0. split; [|done]. cbn [heap].
  pose proof (lookup_lt_Some _ _ _ Hm0) as Hlt.
  rewrite list_lookup_insert_ne by lia. by apply lookup_app_l_Some.
Qed.

(** [fit] creates its own object: those that exist are not touched. *)
Lemma holds_fit y o init disp h gpu : preserves holds (fit y o init disp h gpu).
Proof.
  unfold fit. destruct o as [[p d] q].
  apply preserves_bind; [apply holds_seterr | intros ?].
  apply preserves_bind.
  { apply preserves_fit_x0. apply holds_observe. }
  intros x0.
  apply preserves_bind; [apply holds_observe | intros ?].
  apply preserves_bind; [apply preserves_get_mode | intros fm].
  apply preserves_bind.
  { apply preserves_run_opt; intros x.
    - apply preserves_fit_f; [apply holds_observe | apply holds_seterr | apply holds_new_model].
    - apply preserves_fit_gf; [apply holds_observe | apply holds_seterr | apply holds_new_model]. }
  intros [[x n] flags].
  apply preserves_bind.
  { destruct (existsb _ flags); [apply holds_print | apply preserves_ret]. }
  intros ?.
  apply preserves_bind.
  { apply preserves_batch_trans; [apply holds_observe | apply holds_seterr]. }
  intros Tx.
  apply preserves_bind; [apply preserves_lift | intros [[mu ar] ma]].
  apply holds_new_updated. intros ref. apply preserves_ret.
Qed.

Lemma holds_criterion method b : preserves holds (grid_search_criterion method b).
Proof.
  unfold grid_search_criterion.
  destruct (decide (method = "aic")); [apply preserves_aic, holds_observe|].
  destruct (decide (method = "bic")); [apply preserves_bic, holds_observe|].
  apply preserves_raise.
Qed.
End ObjectFacts.

Section GridFacts.
Context {R : Type} {NR : Numeric R} {FR : FpFlags R} {ER : Externals R} {FC : FloatConsts R}.
Variables (y_b : Matrix R) (d : Z) (max_p max_q : nat) (method : string).
Variable i : nat.
Variable best : ModelRef.

Hypothesis Hnever : forall p q (w w1 w2 : World R) b_model ic v,
  p < max_p -> q < max_q ->
  fit y_b (p, d, q) (InitScalar num_zero (np_zeros p) (np_zeros q)) (-1) num_1e_9 true w
  = (Ok b_model, w1) ->
  grid_search_criterion method b_model w1 = (Ok ic, w2) ->
  ic !! i = Some v ->
  num_ltb v grid_search_bound = false.

(** Member [i] still has the initial score and the placeholder. *)
Let held (best_ic : list R) (w : World R) : Prop :=
  best_ic !! i = Some grid_search_bound /\
  exists m, heap w !! best = Some m /\ placeholder_at i m.

(** ... as far as the model goes. *)
Let kept (w : World R) : Prop :=
  exists m, heap w !! best = Some m /\ placeholder_at i m.

(** One assignment [best_model.field[j] = c]. *)
Lemma kept_assign {A B} (proj : ARIMAModel R -> list A)
    (set : list A -> ARIMAModel R -> ARIMAModel R) j (c : A) (k : M R B)
    (Q : B -> World R -> Prop) :
  (forall m, placeholder_at i m -> placeholder_at i (set (<[j:=c]> (proj m)) m)) ->
  hoare kept k Q (fun _ _ => True) ->
  hoare kept (bm ← get_model best; v ← lift (np_setitem j c (proj bm));
              _ ← update_model best (set v); k) Q (fun _ _ => True).
Proof.
  intros Hset Hk w (m & Hm & Hp).
  rewrite (run_bind_ok _ _ _ _ _ (run_get_model best m w Hm)).
  unfold np_setitem. destruct (decide (j < length (proj m))); [|done].
  rewrite M_bind_unfold. unfold lift at 1. cbv beta iota.
  rewrite M_bind_unfold. unfold update_model at 1. rewrite Hm.
  apply Hk. exists (set (<[j:=c]> (proj m)) m). split; [|by apply Hset].
  cbn [heap]. apply list_lookup_insert_eq. by eapply lookup_lt_Some.
Qed.

Lemma held_update b_model o ic j best_ic :
  (j = i -> forall v, ic !! i = Some v -> num_ltb v grid_search_bound = false) ->
  hoare (held best_ic) (grid_search_update best b_model o ic j best_ic)
        held (fun _ _ => True).
Proof.
  intros Hj w (Hb & m & Hm & Ho & Hmu & Har & Hma).
  unfold grid_search_update.
  rewrite M_bind_unfold. unfold lift at 1, py_index at 1.
  destruct (ic !! j) as [ic_j|] eqn:Hic; [|done].
  rewrite M_bind_unfold. unfold lift at 1, py_index at 1.
  destruct (best_ic !! j) as [b|] eqn:Hbj; [|done].
  destruct (num_ltb ic_j b) eqn:Hlt; [|by split; [|exists m]].
  assert (Hne : j <> i).
  { intros ->. rewrite Hb in Hbj. injection Hbj as <-.
    by rewrite (Hj eq_refl ic_j Hic) in Hlt. }
  assert (Hh : hoare kept
    (bm ← get_model best;
     v ← lift (np_setitem j o (order bm));
     _ ← update_model best (set_order v);
     fm ← get_model b_model;
     c ← lift (py_index (mu fm) j);
     bm ← get_model best;
     v ← lift (np_setitem j c (mu bm));
     _ ← update_model best (set_mu v);
     fm ← get_model b_model;
     c ← lift (py_index (ar_params fm) j);
     bm ← get_model best;
     v ← lift (np_setitem j c (ar_params bm));
     _ ← update_model best (set_ar_params v);
     fm ← get_model b_model;
     c ← lift (py_index (ma_params fm) j);
     bm ← get_model best;
     v ← lift (np_setitem j c (ma_params bm));
     _ ← update_model best (set_ma_params v);
     lift (np_setitem j ic_j best_ic))
    held (fun _ _ => True)).
  { apply (kept_assign order set_order).
    { intros m0 (? & ? & ? & ?). split; [|done]. simpl. by rewrite list_lookup_insert_ne. }
    apply hoare_bind_pres; [apply preserves_get_model | done | intros fm].
    apply hoare_bind_pres; [apply preserves_lift | done | intros c].
    apply (kept_assign mu set_mu).
    { intros m0 (? & ? & ? & ?). split; [done|]. split; [|done].
      simpl. by rewrite list_lookup_insert_ne. }
    apply hoare_bind_pres; [apply preserves_get_model | done | intros fm1].
    apply hoare_bind_pres; [apply preserves_lift | done | intros c1].
    apply (kept_assign ar_params set_ar_params).
    { intros m0 (? & ? & ? & ?). split; [done|]. split; [done|]. split; [|done].
      simpl. by rewrite list_lookup_insert_ne. }
    apply hoare_bind_pres; [apply preserves_get_model | done | intros fm2].
    apply hoare_bind_pres; [apply preserves_lift | done | intros c2].
    apply (kept_assign ma_params set_ma_params).
    { intros m0 (? & ? & ? & ?). split; [done|]. split; [done|]. split; [done|].
      simpl. by rewrite list_lookup_insert_ne. }
    apply hoare_lift; [|done]. intros a w1 Hset Hk. split; [|exact Hk].
    unfold np_setitem in Hset. destruct (decide (j < length best_ic)); [|done].
    injection Hset as <-. by rewrite list_lookup_insert_ne. }
  apply Hh. by exists m.
Qed.

(** One candidate leaves member [i] as it is. *)
Lemma held_cell p q best_ic :
  p < max_p -> q < max_q ->
  hoare (held best_ic) (grid_search_cell y_b d method best p q best_ic)
        held (fun _ _ => True).
Proof.
  intros Hp Hq w Hheld. unfold grid_search_cell.
  destruct (decide (p = 0 /\ q = 0)); [done|].
  rewrite M_bind_unfold.
  destruct (fit y_b (p, d, q) (InitScalar num_zero (np_zeros p) (np_zeros q)) (-1)
                num_1e_9 true w) as [[b_model|e] w1] eqn:Hfit; [|done].
  rewrite M_bind_unfold.
  change (if decide (method = "aic") then aic b_model
          else if decide (method = "bic") then bic b_model else raise NotImplementedError)
    with (grid_search_criterion method b_model).
  destruct (grid_search_criterion method b_model w1) as [[ic|e] w2] eqn:Hcrit; [|done].
  assert (Hk2 : held best_ic w2).
  { destruct Hheld as [Hb Hk]. split; [done|].
    eapply (preserves_run _ _ _ _ _ (holds_criterion (placeholder_at i) best method b_model));
      [|exact Hcrit].
    eapply (preserves_run _ _ _ _ _ (holds_fit (placeholder_at i) best _ _ _ _ _ _));
      [|exact Hfit].
    exact Hk. }
  assert (Hic : forall v, ic !! i = Some v -> num_ltb v grid_search_bound = false).
  { intros v Hv. exact (Hnever p q w w1 w2 b_model ic v Hp Hq Hfit Hcrit Hv). }
  assert (Hloop : hoare (held best_ic)
            (for_rangeM (length ic)
               (grid_search_update best b_model (OrderTuple p d q) ic) best_ic)
            held (fun _ _ => True)).
  { apply hoare_for_rangeM with (Inv := fun _ s w' => held s w'); [done | | done].
    intros j s _. apply held_update. by intros _. }
  by apply Hloop.
Qed.

(** The whole search leaves member [i] as it is. *)
Lemma held_search best_ic :
  hoare (held best_ic)
        (for_rangeM max_p
           (fun p best_ic =>
              for_rangeM max_q (grid_search_cell y_b d method best p) best_ic)
           best_ic)
        held (fun _ _ => True).
Proof.
  apply hoare_for_rangeM with (Inv := fun _ s w' => held s w'); [done | | done].
  intros p s Hp.
  apply hoare_for_rangeM with (Inv := fun _ s w' => held s w'); [done | | done].
  intros q s' Hq. by apply held_cell.
Qed.
End GridFacts.

Section CriterionFacts.
Context {R : Type} {NR : Numeric R} {FR : FpFlags R} {ER : Externals R}.

Lemma fp_run_cases {A} (c : Fp A) (w : World R) :
  fp_run c w = (Ok (fst c), w) \/ fp_run c w = (Err FloatingPointError, w).
Proof. unfold fp_run. destruct (fp_mode w), (snd c); auto. Qed.

(** The elements of a list comprehension over [llb]. *)
Lemma hoare_list_comp (P : World R -> Prop) (llb : list R) (f : nat -> R -> M R R)
    (Phi : nat -> R -> R -> Prop) :
  (forall i lli, llb !! i = Some lli ->
     hoare P (f i lli) (fun v w => Phi i lli v /\ P w) (fun _ _ => True)) ->
  hoare P (list_comp llb f)
        (fun ic _ => length ic = length llb /\
           forall i v, ic !! i = Some v -> exists lli, llb !! i = Some lli /\ Phi i lli v)
        (fun _ _ => True).
Proof.
  intros Hf. unfold list_comp.
  apply hoare_for_rangeM with
    (Inv := fun k acc w => P w /\ length acc = k /\
              forall i v, acc !! i = Some v -> exists lli, llb !! i = Some lli /\ Phi i lli v).
  - intros w Hw. split; [done|]. split; [done|]. intros i v Hv. by rewrite lookup_nil in Hv.
  - intros k acc Hk w (Hw & Hlen & Hacc).
    destruct (lookup_lt_is_Some_2 llb k Hk) as [lli Hlli].
    unfold py_index. rewrite Hlli.
    change ((lift (Ok lli) ≫= _) w) with ((f k lli ≫= fun v => mret (acc ++ [v])) w).
    rewrite M_bind_unfold. specialize (Hf k lli Hlli w Hw).
    destruct (f k lli w) as [[v|e] w1]; [|done]. destruct Hf as [Hphi Hw1].
    split; [done|]. split; [rewrite length_app; simpl; lia|].
    intros i v' Hv'. destruct (decide (i < length acc)) as [Hlt|Hge].
    + rewrite lookup_app_l in Hv' by done. by apply Hacc.
    + rewrite lookup_app_r in Hv' by lia.
      destruct (i - length acc) as [|n] eqn:Hd; [|by rewrite lookup_cons, lookup_nil in Hv'].
      injection Hv' as <-. assert (i = k) by lia. subst i. by exists lli.
  - intros ic w (_ & Hlen & Hic). done.
Qed.

Lemma hoare_call_result {A} c (f : FpMode -> res A) :
  hoare (fun _ : World R => True) (call c f) (fun a _ => exists fm, f fm = Ok a)
        (fun _ _ => True).
Proof.
  intros w _. rewrite run_call. destruct (f (fp_mode w)) as [a|e] eqn:Hf; [|done].
  by exists (fp_mode w).
Qed.

Lemma hoare_any {A} (c : M R A) :
  hoare (fun _ : World R => True) c (fun _ _ => True) (fun _ _ => True).
Proof. intros w _. by destruct (c w) as [[a|e] w']. Qed.

(** What [run_kalman] returns is what the kernel reported. *)
Lemma run_kalman_from_kernel ref gpu ip :
  hoare (fun _ : World R => True) (run_kalman ref gpu ip)
        (fun r _ => exists fm y' km, batched_kfilter fm y' km gpu ip = Ok r)
        (fun _ _ => True).
Proof.
  unfold run_kalman.
  eapply hoare_bind; [apply hoare_any | intros m; cbv beta].
  eapply hoare_bind; [apply hoare_any | intros km; cbv beta].
  eapply hoare_bind; [apply hoare_any | intros ?; cbv beta].
  eapply hoare_bind; [apply hoare_any | intros o; cbv beta].
  eapply hoare_bind; [apply hoare_any | intros [[p d] q]; cbv beta iota].
  destruct (decide (d = 0%Z)).
  - eapply hoare_conseq; [apply hoare_call_result | done | | done].
    intros r w [fm Hfm]. by exists fm, (y m), km.
  - destruct (decide (d = 1%Z)); [|by apply hoare_raise].
    eapply hoare_bind; [apply hoare_any | intros ydc; cbv beta].
    eapply hoare_conseq; [apply hoare_call_result | done | | done].
    intros r w [fm Hfm]. by exists fm, ydc, km.
Qed.

(** The log-likelihoods [loglike] returns are those the kernel reported. *)
Lemma loglike_from_kernel ref gpu (w : World R) llb w' :
  loglike ref gpu w = (Ok llb, w') ->
  exists fm y' km vs, batched_kfilter fm y' km gpu false = Ok (llb, vs).
Proof.
  unfold loglike. intros H. rewrite M_bind_unfold in H.
  pose proof (run_kalman_from_kernel ref gpu false w I) as Hk.
  destruct (run_kalman ref gpu false w) as [[[ll vs]|e] w1]; [|discriminate].
  injection H as <- <-. destruct Hk as (fm & y' & km & Hk). by exists fm, y', km, vs.
Qed.

(** The entries of [aic]: [-2 * lli + 2 * (1 + p + q)] for the member's
    log-likelihood and order. *)
Lemma aic_entries self (m : ARIMAModel R) (w : World R) ic w' :
  heap w !! self = Some m ->
  aic self w = (Ok ic, w') ->
  exists llb w1,
    loglike self true w = (Ok llb, w1) /\ length ic = length llb /\
    forall i v, ic !! i = Some v ->
      exists lli o c,
        llb !! i = Some lli /\ order m !! i = Some o /\ _model_complexity o = Ok c /\
        v = num_add (num_mul (num_of_Z (-2)) lli) (num_of_Z (2 * Z.of_nat c)).
Proof.
  intros Hm H. unfold aic in H. rewrite M_bind_unfold in H.
  destruct (loglike self true w) as [[llb|e] w1] eqn:Hll; [|discriminate].
  exists llb, w1. split; [done|].
  assert (Hm1 : heap w1 !! self = Some m).
  { pose proof (loglike_frame self true w) as Hfr. rewrite Hll in Hfr.
    apply frame_heap in Hfr. simpl in Hfr. by rewrite Hfr. }
  match type of H with
  | list_comp llb ?f w1 = _ =>
      pose proof (hoare_list_comp (fun w => heap w !! self = Some m) llb f
        (fun i lli v => exists o c, order m !! i = Some o /\ _model_complexity o = Ok c /\
           v = num_add (num_mul (num_of_Z (-2)) lli) (num_of_Z (2 * Z.of_nat c)))) as Hlc
  end.
  cbv beta in Hlc.
  assert (Hbody : forall i lli, llb !! i = Some lli ->
    hoare (fun w => heap w !! self = Some m)
      (a ← fp_run (fp_op OpMul (num_of_Z (-2)) lli);
       m0 ← get_model self;
       o ← lift (py_index (order m0) i);
       c ← lift (_model_complexity o);
       fp_run (fp_op OpAdd a (num_of_Z (2 * Z.of_nat c))))
      (fun v w0 => (exists o c, order m !! i = Some o /\ _model_complexity o = Ok c /\
           v = num_add (num_mul (num_of_Z (-2)) lli) (num_of_Z (2 * Z.of_nat c))) /\
           heap w0 !! self = Some m)
      (fun _ _ => True)).
  { intros i lli Hlli w0 Hw0.
    destruct (fp_run_cases (fp_op OpMul (num_of_Z (-2)) lli) w0) as [Hr|Hr];
      [rewrite (run_bind_ok _ _ _ _ _ Hr) | by rewrite (run_bind_err _ _ _ _ _ Hr)].
    rewrite (run_bind_ok _ _ _ _ _ (run_get_model self m w0 Hw0)).
    unfold py_index. destruct (order m !! i) as [o|] eqn:Ho; [|done]. step_lift.
    destruct (_model_complexity o) as [c|e] eqn:Hc; [|done]. step_lift.
    match goal with |- context [fp_run ?c0 w0] =>
      destruct (fp_run_cases c0 w0) as [Hr2|Hr2]; rewrite Hr2; [|done] end.
    split; [|done]. by exists o, c. }
  specialize (Hlc Hbody w1 Hm1). rewrite H in Hlc. destruct Hlc as [Hlen Hent].
  split; [done|]. intros i v Hv.
  destruct (Hent i v Hv) as (lli & Hlli & o & c & Ho & Hc & ->). by exists lli, o, c.
Qed.
End CriterionFacts.

Section FitResult.
Context {R : Type} {NR : Numeric R} {FR : FpFlags R} {ER : Externals R}.

(** What [fit] returns is a new object: the model of the unpacked
    parameters, with the order repeated for every member, no cached
    prediction and the iteration count. *)
Lemma fit_result (y : Matrix R) p d q init disp h gpu (w : World R) b_model w1 :
  fit y (p, d, q) init disp h gpu w = (Ok b_model, w1) ->
  exists mu ar ma n,
    heap w1 !! b_model
    = Some (mkARIMAModel (replicate (n_cols y) (OrderTuple p d q)) mu ar ma y
                         (n_rows y) (n_cols y) None (Some n)) /\
    length (heap w1) = S b_model.
Proof.
  intros Hfit.
  assert (Hh : hoare (fun _ => True) (fit y (p, d, q) init disp h gpu)
    (fun b w1 => exists mu ar ma n,
       heap w1 !! b
       = Some (mkARIMAModel (replicate (n_cols y) (OrderTuple p d q)) mu ar ma y
                            (n_rows y) (n_cols y) None (Some n)) /\
       length (heap w1) = S b)
    (fun _ _ => True)).
  { unfold fit.
    eapply hoare_bind; [apply hoare_any | intros ?; cbv beta].
    eapply hoare_bind; [apply hoare_any | intros x0; cbv beta].
    eapply hoare_bind; [apply hoare_any | intros ?; cbv beta].
    eapply hoare_bind; [apply hoare_any | intros fm; cbv beta].
    eapply hoare_bind; [apply hoare_any | intros [[x n] flags]; cbv beta iota].
    eapply hoare_bind; [apply hoare_any | intros ?; cbv beta].
    eapply hoare_bind; [apply hoare_any | intros Tx; cbv beta].
    eapply hoare_bind; [apply hoare_any | intros [[mu ar] ma]; cbv beta iota].
    intros w0 _. unfold ARIMAModel_init.
    rewrite (run_bind_ok (new_model _) _ w0 (length (heap w0)) _ eq_refl).
    rewrite M_bind_unfold. unfold update_model at 1. cbn [heap].
    rewrite lookup_app_r by lia. rewrite Nat.sub_diag. cbn [lookup list_lookup].
    cbn [mret M_ret heap]. exists mu, ar, ma, n. split.
    - rewrite insert_app_r_alt by lia. rewrite Nat.sub_diag. simpl.
      rewrite lookup_app_r by lia. by rewrite Nat.sub_diag.
    - rewrite length_insert, length_app. simpl. lia. }
  specialize (Hh w I). by rewrite Hfit in Hh.
Qed.
End FitResult.


(** A NaN compares below nothing, and stays a NaN under addition. *)
Lemma nan_ltb (x : float) : PrimFloat.ltb nan x = false.
Proof. rewrite ltb_spec. reflexivity. Qed.

Lemma nan_add (x : float) : PrimFloat.add nan x = nan.
Proof.
  rewrite <- (SF2Prim_Prim2SF (PrimFloat.add nan x)). rewrite add_spec. reflexivity.
Qed.

(** With a kernel that reports NaN, every [aic] score is NaN. *)
Lemma aic_demo_nan p q (w0 w1 w2 : World float) b_model ic i v :
  fit (ER:=demo_externals nan) demo_y (p, 0%Z, q)
      (InitScalar num_zero (np_zeros p) (np_zeros q)) (-1) num_1e_9 true w0
  = (Ok b_model, w1) ->
  grid_search_criterion (ER:=demo_externals nan) "aic" b_model w1 = (Ok ic, w2) ->
  ic !! i = Some v ->
  num_ltb v grid_search_bound = false.
Proof.
  intros Hfit Hcrit Hv.
  destruct (fit_result _ _ _ _ _ _ _ _ _ _ _ Hfit) as (mu & ar & ma & n & Hm & _).
  unfold grid_search_criterion in Hcrit. rewrite decide_True in Hcrit by done.
  destruct (aic_entries _ _ _ _ _ Hm Hcrit) as (llb & w1' & Hll & _ & Hent).
  destruct (Hent i v Hv) as (lli & o & c & Hlli & _ & _ & ->).
  destruct (loglike_from_kernel _ _ _ _ _ Hll) as (fm & y' & km & vs & Hk).
  simpl in Hk. injection Hk as <- _.
  apply lookup_replicate in Hlli as [-> _].
  change (num_mul (num_of_Z (-2)) nan) with nan.
  change (PrimFloat.ltb (PrimFloat.add nan (num_of_Z (2 * Z.of_nat c))) grid_search_bound
          = false).
  by rewrite nan_add, nan_ltb.
Qed.


(** ** Further properties of the module *)

Section OrderFacts.
Context {R : Type} {NR : Numeric R} {FR : FpFlags R} {ER : Externals R}.

Lemma for_each_raises_in {S} (body : nat -> S -> res S) (e : exn) l s i :
  (forall j s e', j ∈ l -> body j s = Err e' -> e' = e) ->
  i ∈ l -> (forall s, body i s = Err e) ->
  for_each body l s = Err e.
Proof.
  intros Honly Hin Hi. revert s. induction l as [|j l IH]; intros s.
  - by apply elem_of_nil in Hin.
  - simpl. destruct (body j s) as [s'|e'] eqn:Hb.
    + apply elem_of_cons in Hin as [->|Hin]; [by rewrite Hi in Hb|].
      apply IH; [|done]. intros j' s0 e0 Hj'. apply Honly. by right.
    + rewrite (Honly j s e'); [done | by left | done].
Qed.

Lemma assert_same_d_placeholder (os : list PyOrder) :
  OrderEmpty ∈ os -> assert_same_d os = Err ValueError.
Proof.
  intros Hin. unfold assert_same_d.
  apply list_elem_of_lookup in Hin as [i Hi].
  rewrite (for_each_raises_in _ ValueError _ _ i); [done | | |].
  - intros j s e' Hj%elem_of_seq. unfold py_index.
    destruct (lookup_lt_is_Some_2 os j) as [o Ho]; [lia|]. rewrite Ho.
    destruct o as [|p d q]; simpl; [by intros [= <-] | done].
  - apply elem_of_seq. split; [lia|]. simpl. by eapply lookup_lt_Some.
  - intros s. unfold py_index. by rewrite Hi.
Qed.

Lemma run_kalman_placeholder ref (m : ARIMAModel R) gpu ip (w : World R) :
  heap w !! ref = Some m -> OrderEmpty ∈ order m ->
  fails (run_kalman ref gpu ip) w.
Proof.
  intros Hm Hin. unfold fails, run_kalman.
  rewrite (run_bind_ok _ _ _ _ _ (run_get_model _ _ _ Hm)).
  rewrite M_bind_unfold, run_call.
  destruct (init_batched_kalman_matrices _ _ _) as [km|e]; [|by eauto].
  rewrite (assert_same_d_placeholder _ Hin). by repeat eexists.
Qed.

Lemma fails_bind {A B} (c : M R A) (f : A -> M R B) (w : World R) :
  fails c w -> fails (c ≫= f) w.
Proof. intros (e & w' & Hc). exists e, w'. by rewrite (run_bind_err _ _ _ _ _ Hc). Qed.
End OrderFacts.

(** [assert_same_d] returns exactly on the non-empty lists of tuples that
    share one [d]; it raises [IndexError] on the empty list and
    [ValueError] (the failed unpacking of [[]]) on a list with a placeholder
    entry. *)
Theorem assert_same_d_outcomes (os : list PyOrder) :
  (assert_same_d os = Ok tt <-> exists d, uniform_d os d) /\
  assert_same_d [] = Err IndexError /\
  (OrderEmpty ∈ os -> assert_same_d os = Err ValueError).
Proof.
  split; [apply assert_same_d_ok|]. split; [done|]. apply assert_same_d_placeholder.
Qed.

(** A model with a placeholder member, as [grid_search] returns it for a
    member no candidate improved on, cannot be evaluated: [run_kalman],
    [loglike], [aic], [bic], [predict_in_sample] and [forecast] all
    raise. *)
Theorem placeholder_member_not_evaluable {R} {NR : Numeric R} {FR : FpFlags R}
    {ER : Externals R} (w : World R) (ref : ModelRef) (m : ARIMAModel R) (i : nat)
    (gpu ip : bool) (nsteps : nat) :
  heap w !! ref = Some m ->
  order m !! i = Some OrderEmpty ->
  fails (run_kalman ref gpu ip) w /\ fails (loglike ref gpu) w /\
  fails (aic ref) w /\ fails (bic ref) w /\
  fails (predict_in_sample ref gpu) w /\ fails (forecast ref nsteps) w.
Proof.
  intros Hm Hi.
  assert (Hin : OrderEmpty ∈ order m) by (by eapply list_elem_of_lookup_2).
  assert (Hk : forall g i', fails (run_kalman ref g i') w)
    by (intros g i'; by eapply run_kalman_placeholder).
  split; [apply Hk|]. split; [apply fails_loglike, Hk|].
  split; [apply fails_bind, fails_loglike, Hk|].
  split; [apply fails_bind, fails_loglike, Hk|].
  split; [apply fails_predict_in_sample, Hk | apply fails_forecast, Hk].
Qed.

Lemma placeholder_member_not_evaluable_witness :
  fails (run_kalman (ER:=demo_externals 0) 0 true false)
        (mkWorld FpWarn [] [] [mkARIMAModel [OrderTuple 1 0 0; OrderEmpty] [0; 0]%float
                                            [[0.5%float]; []] [[]; []] demo_y 3 2 None None]) /\
  fails (loglike (ER:=demo_externals 0) 0 true)
        (mkWorld FpWarn [] [] [mkARIMAModel [OrderTuple 1 0 0; OrderEmpty] [0; 0]%float
                                            [[0.5%float]; []] [[]; []] demo_y 3 2 None None]) /\
  fails (aic (ER:=demo_externals 0) 0)
        (mkWorld FpWarn [] [] [mkARIMAModel [OrderTuple 1 0 0; OrderEmpty] [0; 0]%float
                                            [[0.5%float]; []] [[]; []] demo_y 3 2 None None]) /\
  fails (bic (ER:=demo_externals 0) 0)
        (mkWorld FpWarn [] [] [mkARIMAModel [OrderTuple 1 0 0; OrderEmpty] [0; 0]%float
                                            [[0.5%float]; []] [[]; []] demo_y 3 2 None None]) /\
  fails (predict_in_sample (ER:=demo_externals 0) 0 true)
        (mkWorld FpWarn [] [] [mkARIMAModel [OrderTuple 1 0 0; OrderEmpty] [0; 0]%float
                                            [[0.5%float]; []] [[]; []] demo_y 3 2 None None]) /\
  fails (forecast (ER:=demo_externals 0) 0 5)
        (mkWorld FpWarn [] [] [mkARIMAModel [OrderTuple 1 0 0; OrderEmpty] [0; 0]%float
                                            [[0.5%float]; []] [[]; []] demo_y 3 2 None None]).
Proof.
  apply (placeholder_member_not_evaluable (ER:=demo_externals 0) _ 0
           (mkARIMAModel [OrderTuple 1 0 0; OrderEmpty] [0; 0]%float
                         [[0.5%float]; []] [[]; []] demo_y 3 2 None None) 1 true false 5);
    reflexivity.
Defined.


Section FitStart.
Context {R : Type} {NR : Numeric R} {FR : FpFlags R} {ER : Externals R}.

Lemma existsb_np_tile (t : R -> bool) (a : list R) n :
  0 < n -> existsb t a = true -> existsb t (np_tile a n) = true.
Proof.
  intros Hn Ha. unfold np_tile. destruct n as [|n]; [lia|]. simpl.
  rewrite existsb_app, Ha. done.
Qed.
End FitStart.

(** [fit] checks the initial vector before it enters the minimizer: with a
    scalar [mu0] that is NaN (and at least one series) it raises
    [FloatingPointError] right after the two inverse transforms, the
    minimizer is not called, and strict trapping stays switched on. *)
Theorem fit_rejects_nan_start {R} {NR : Numeric R} {FR : FpFlags R} {ER : Externals R}
    (y : Matrix R) (p : nat) (d : Z) (q : nat) (mu0 : R) (ar0 ma0 a b : list R)
    (disp : Z) (h : R) (gpu : bool) (w : World R) :
  0 < n_cols y ->
  num_isnan mu0 = true ->
  sm_ar_invtransparams FpRaise ar0 = Ok a ->
  sm_ma_invtransparams FpRaise ma0 = Ok b ->
  fit y (p, d, q) (InitScalar mu0 ar0 ma0) disp h gpu w
  = (Err FloatingPointError,
     mkWorld FpRaise
             (calls w ++ [(CallArInvTrans, FpRaise); (CallMaInvTrans, FpRaise)])
             (stdout w) (heap w)).
Proof.
  intros Hnb Hnan Ha Hb. unfold fit.
  rewrite (run_bind_ok (np_seterr FpRaise) _ w tt _ eq_refl).
  rewrite M_bind_unfold. unfold fit_x0.
  rewrite M_bind_unfold. rewrite M_bind_unfold, run_call. cbn [fp_mode]. rewrite Ha.
  rewrite M_bind_unfold, run_call. cbn [fp_mode logged]. rewrite Hb.
  cbn [mret M_ret].
  rewrite (existsb_np_tile num_isnan) by (done || (simpl; by rewrite Hnan)).
  simpl. unfold logged. cbn [fp_mode calls stdout heap]. by rewrite <- app_assoc.
Qed.

Lemma fit_rejects_nan_start_witness :
  fit (ER:=demo_externals 0) demo_y (1, 0%Z, 0) (InitScalar nan [0.5%float] [])
      (-1) num_1e_9 true world0
  = (Err FloatingPointError,
     mkWorld FpRaise
             (calls (world0 (R:=float)) ++ [(CallArInvTrans, FpRaise); (CallMaInvTrans, FpRaise)])
             (stdout (world0 (R:=float))) (heap (world0 (R:=float)))).
Proof.
  apply (fit_rejects_nan_start (ER:=demo_externals 0) demo_y 1 0 0 nan [0.5%float] []
           [0.5%float] [] (-1) num_1e_9 true world0).
  - unfold n_cols, demo_y. simpl. lia.
  - reflexivity.
  - reflexivity.
  - reflexivity.
Defined.

(** On a grid that holds the candidate [(0, 0)] only, [grid_search] fits
    nothing: it returns the placeholder model and the initial score for
    every member, whatever [method] is. *)
Theorem grid_search_trivial_grid {R} {NR : Numeric R} {FR : FpFlags R} {ER : Externals R}
    {FC : FloatConsts R}
    (y_b : Matrix R) (d : Z) (max_p max_q : nat) (method : string) (w : World R) :
  max_p <= 1 -> max_q <= 1 ->
  (fp_mode w = FpRaise -> signals OpDiv num_finfo_max (num_of_Z 2) = false) ->
  grid_search y_b d max_p max_q method w
  = (Ok (length (heap w), replicate (n_cols y_b) grid_search_bound),
     mkWorld (fp_mode w) (calls w) (stdout w)
       (heap w ++ [mkARIMAModel (replicate (n_cols y_b) OrderEmpty)
                                (np_zeros (n_cols y_b))
                                (replicate (n_cols y_b) []) (replicate (n_cols y_b) [])
                                y_b (n_rows y_b) (n_cols y_b) None None])).
Proof.
  intros Hp Hq Hflag. unfold grid_search.
  rewrite (run_bind_ok _ _ _ _ _ (run_fp_run (fp_op OpDiv num_finfo_max (num_of_Z 2)) w
             ltac:(destruct (fp_mode w) eqn:Hm; [right; by apply Hflag | by left]))).
  unfold ARIMAModel_init.
  rewrite (run_bind_ok (new_model _) _ w (length (heap w)) _ eq_refl).
  destruct max_p as [|[|?]]; [| |lia]; destruct max_q as [|[|?]]; try lia; reflexivity.
Qed.

Lemma grid_search_trivial_grid_witness :
  grid_search (ER:=demo_externals 0) demo_y 1 1 1 "hqic" world0
  = (Ok (0, [0x1.fffffffffffffp+1022; 0x1.fffffffffffffp+1022]%float),
     mkWorld FpWarn [] []
       [mkARIMAModel [OrderEmpty; OrderEmpty] [0; 0]%float [[]; []] [[]; []]
                     demo_y 3 2 None None]).
Proof.
  rewrite (grid_search_trivial_grid (ER:=demo_externals 0) demo_y 1 1 1 "hqic" world0).
  - vm_compute. reflexivity.
  - lia.
  - lia.
  - discriminate.
Defined.

(** An unknown [method] is noticed only after the first candidate has been
    fitted: with at least the candidate [(0, 1)] on the grid, [grid_search]
    raises [NotImplementedError] once the fit of [(0, d, 1)] has
    returned. *)
Theorem grid_search_unknown_method {R} {NR : Numeric R} {FR : FpFlags R}
    {ER : Externals R} {FC : FloatConsts R}
    (y_b : Matrix R) (d : Z) (max_p max_q : nat) (method : string) (w w1 : World R)
    (b_model : ModelRef) :
  method <> "aic" -> method <> "bic" ->
  0 < max_p -> 1 < max_q ->
  (fp_mode w = FpRaise -> signals OpDiv num_finfo_max (num_of_Z 2) = false) ->
  fit y_b (0, d, 1) (InitScalar num_zero [] [num_zero]) (-1) num_1e_9 true
      (snd (ARIMAModel_init (replicate (n_cols y_b) OrderEmpty) (np_zeros (n_cols y_b))
                            (replicate (n_cols y_b) []) (replicate (n_cols y_b) []) y_b w))
  = (Ok b_model, w1) ->
  grid_search y_b d max_p max_q method w = (Err NotImplementedError, w1).
Proof.
  intros Ha Hb Hp Hq Hflag Hfit. unfold grid_search.
  rewrite (run_bind_ok _ _ _ _ _ (run_fp_run (fp_op OpDiv num_finfo_max (num_of_Z 2)) w
             ltac:(destruct (fp_mode w) eqn:Hm; [right; by apply Hflag | by left]))).
  rewrite (run_bind_ok (ARIMAModel_init _ _ _ _ y_b) _ w (length (heap w)) _ eq_refl).
  destruct max_p as [|max_p]; [lia|]. destruct max_q as [|[|max_q]]; [lia | lia |].
  apply run_bind_err.
  unfold for_rangeM. rewrite <- !cons_seq. cbn [forM].
  apply run_bind_err.
  rewrite M_bind_unfold. unfold grid_search_cell at 1. rewrite decide_True by done.
  cbn [mret M_ret]. apply run_bind_err.
  unfold grid_search_cell. rewrite decide_False by lia.
  change (np_zeros 0) with (@nil R). change (np_zeros 1) with [num_zero (R:=R)].
  rewrite (run_bind_ok _ _ _ _ _ Hfit).
  rewrite decide_False by done. by rewrite decide_False by done.
Qed.

Lemma grid_search_unknown_method_witness :
  grid_search (ER:=demo_externals 0) demo_y 0 1 2 "hqic" world0
  = (Err NotImplementedError,
     snd (fit (ER:=demo_externals 0) demo_y (0, 0%Z, 1)
              (InitScalar 0%float [] [0%float]) (-1) num_1e_9 true
              (mkWorld FpWarn [] []
                 [mkARIMAModel [OrderEmpty; OrderEmpty] [0; 0]%float [[]; []] [[]; []]
                               demo_y 3 2 None None]))) /\
  length (heap (snd (grid_search (ER:=demo_externals 0) demo_y 0 1 2 "hqic" world0))) = 7.
Proof.
  split; [|vm_compute; reflexivity].
  apply (grid_search_unknown_method (ER:=demo_externals 0) demo_y 0 1 2 "hqic" world0 _ 6).
  - discriminate.
  - discriminate.
  - lia.
  - lia.
  - discriminate.
  - vm_compute. reflexivity.
Defined.

Section CriteriaFacts.
Context {R : Type} {NR : Numeric R} {FR : FpFlags R} {ER : Externals R}.

Lemma loglike_returns_uniform ref gpu (m : ARIMAModel R) (w : World R) llb w1 :
  heap w !! ref = Some m ->
  loglike ref gpu w = (Ok llb, w1) ->
  exists d, uniform_d (order m) d.
Proof.
  intros Hm H. unfold loglike in H. rewrite M_bind_unfold in H.
  destruct (run_kalman ref gpu false w) as [[r|e] w2] eqn:Hk; [|discriminate].
  unfold run_kalman in Hk.
  rewrite (run_bind_ok _ _ _ _ _ (run_get_model _ _ _ Hm)) in Hk.
  rewrite M_bind_unfold, run_call in Hk.
  destruct (init_batched_kalman_matrices _ _ _) as [km|e]; [|discriminate].
  rewrite M_bind_unfold in Hk. unfold lift at 1 in Hk.
  destruct (assert_same_d (order m)) as [[]|e] eqn:Ha; [|discriminate].
  by apply assert_same_d_ok in Ha.
Qed.

(** A list comprehension whose element function returns [g i lli] and
    leaves the world alone. *)
Lemma run_list_comp (llb : list R) (f : nat -> R -> M R R) (g : nat -> R -> R)
    (w : World R) :
  (forall i lli, llb !! i = Some lli -> f i lli w = (Ok (g i lli), w)) ->
  list_comp llb f w = (Ok (imap g llb), w).
Proof.
  intros Hf. unfold list_comp.
  destruct (for_rangeM_inv (fun k acc => acc = imap g (take k llb)) (length llb)
              (fun i acc => lli ← lift (py_index llb i); v ← f i lli; mret (acc ++ [v]))
              w []) as (acc & Hrun & ->).
  - done.
  - intros i acc Hi ->.
    destruct (lookup_lt_is_Some_2 llb i Hi) as [lli Hlli].
    unfold py_index. rewrite Hlli. step_lift.
    rewrite (run_bind_ok _ _ _ _ _ (Hf i lli Hlli)).
    eexists. split; [reflexivity|].
    change (1 + i) with (S i). rewrite (take_S_r _ _ _ Hlli), imap_app. simpl.
    rewrite length_take. by replace (i `min` length llb + 0) with i by lia.
  - rewrite Hrun. by rewrite take_ge by lia.
Qed.

Lemma criteria_run self (m : ARIMAModel R) (w w1 : World R) llb :
  heap w !! self = Some m ->
  fp_mode w = FpWarn ->
  loglike self true w = (Ok llb, w1) ->
  length llb <= length (order m) ->
  exists pqs d,
    order m = (fun '(p, q) => OrderTuple p d q) <$> pqs /\
    aic self w
    = (Ok (imap (fun i lli => let '(p, q) := default (0, 0) (pqs !! i) in aic_value lli p q)
                llb), w1) /\
    bic self w
    = (Ok (imap (fun i lli => let '(p, q) := default (0, 0) (pqs !! i) in
                              bic_value (n_rows (y m)) lli p q) llb), w1).
Proof.
  intros Hm Hw Hll Hlen.
  destruct (loglike_returns_uniform _ _ _ _ _ _ Hm Hll) as [d [_ Hu]].
  assert (Hpq : exists pqs, order m = (fun '(p, q) => OrderTuple p d q) <$> pqs).
  { clear -Hu. induction Hu as [|o os (p & q & ->) _ [pqs ->]]; [by exists []|].
    by exists ((p, q) :: pqs). }
  destruct Hpq as [pqs Hpqs]. exists pqs, d. split; [done|].
  pose proof (loglike_frame self true w) as Hfr. rewrite Hll in Hfr. simpl in Hfr.
  destruct Hfr as (Hmode & _ & Hheap).
  assert (Hw1 : fp_mode w1 = FpWarn) by congruence.
  assert (Hm1 : heap w1 !! self = Some m) by (by rewrite Hheap).
  assert (Hord : forall i lli, llb !! i = Some lli ->
            exists p q, pqs !! i = Some (p, q) /\ order m !! i = Some (OrderTuple p d q)).
  { intros i lli Hi. apply lookup_lt_Some in Hi.
    assert (Hi' : i < length pqs) by (rewrite Hpqs, length_fmap in Hlen; lia).
    destruct (lookup_lt_is_Some_2 pqs i Hi') as [[p q] Hpq].
    exists p, q. split; [done|]. by rewrite Hpqs, list_lookup_fmap, Hpq. }
  split.
  - unfold aic. rewrite (run_bind_ok _ _ _ _ _ Hll).
    apply run_list_comp. intros i lli Hi.
    destruct (Hord i lli Hi) as (p & q & Hpq & Ho). rewrite Hpq. simpl.
    run_step Hw1. rewrite (run_bind_ok _ _ _ _ _ (run_get_model _ _ _ Hm1)).
    unfold py_index. rewrite Ho. step_lift.
    change (_model_complexity (OrderTuple p d q)) with (Ok (1 + p + q) : res nat).
    step_lift. by run_step Hw1.
  - unfold bic. rewrite (run_bind_ok _ _ _ _ _ Hll).
    apply run_list_comp. intros i lli Hi.
    destruct (Hord i lli Hi) as (p & q & Hpq & Ho). rewrite Hpq. simpl.
    run_step Hw1. rewrite (run_bind_ok _ _ _ _ _ (run_get_model _ _ _ Hm1)).
    run_step Hw1.
    unfold py_index. rewrite Ho. step_lift.
    change (_model_complexity (OrderTuple p d q)) with (Ok (1 + p + q) : res nat).
    step_lift. run_step Hw1. by run_step Hw1.
Qed.
End CriteriaFacts.

(** [aic] and [bic] evaluate the likelihood once and score every batch
    member by its own order.  Under permissive trapping, when [loglike]
    returns [llb] (one value per member at most), both properties return, in
    the world [loglike] leaves, a list as long as [llb] whose entry [i] is
    [-2 * llb[i] + 2 * (1 + p_i + q_i)] for [aic] and
    [-2 * llb[i] + log(len(y)) * (1 + p_i + q_i)] for [bic], where
    [(p_i, d_i, q_i)] is the order of member [i]. *)
Theorem information_criteria_scores {R} {NR : Numeric R} {FR : FpFlags R}
    {ER : Externals R} (self : ModelRef) (m : ARIMAModel R) (w w1 : World R)
    (llb : list R) :
  heap w !! self = Some m ->
  fp_mode w = FpWarn ->
  loglike self true w = (Ok llb, w1) ->
  length llb <= length (order m) ->
  exists aic_b bic_b,
    aic self w = (Ok aic_b, w1) /\ bic self w = (Ok bic_b, w1) /\
    length aic_b = length llb /\ length bic_b = length llb /\
    forall i lli p d q,
      llb !! i = Some lli -> order m !! i = Some (OrderTuple p d q) ->
      aic_b !! i = Some (aic_value lli p q) /\
      bic_b !! i = Some (bic_value (n_rows (y m)) lli p q).
Proof.
  intros Hm Hw Hll Hlen.
  destruct (criteria_run self m w w1 llb Hm Hw Hll Hlen)
    as (pqs & d0 & Hord & Ha & Hb).
  eexists _, _. split; [exact Ha|]. split; [exact Hb|].
  split; [by rewrite length_imap|]. split; [by rewrite length_imap|].
  intros i lli p d q Hi Ho.
  rewrite Hord, list_lookup_fmap in Ho.
  destruct (pqs !! i) as [[p' q']|] eqn:Hpq; [|done].
  simpl in Ho. injection Ho as -> _ ->.
  rewrite !list_lookup_imap, Hi. simpl. by rewrite Hpq.
Qed.

Lemma information_criteria_scores_witness :
  aic (FR:=float64_flags) (ER:=demo_externals 0.5) 0 (demo_world 0)
  = (Ok [1; 1]%float, logged CallKalmanFilter (logged CallKalmanInit (demo_world 0))).
Proof.
  destruct (information_criteria_scores (FR:=float64_flags) (ER:=demo_externals 0.5)
              0 (demo_model 0) (demo_world 0)
              (logged CallKalmanFilter (logged CallKalmanInit (demo_world 0)))
              [0.5; 0.5]%float)
    as (aic_b & bic_b & Ha & _ & Hla & _ & Hv);
    [reflexivity | reflexivity | vm_compute; reflexivity | simpl; lia |].
  rewrite Ha. do 2 f_equal.
  destruct (Hv 0 0.5%float 0 0%Z 0 eq_refl eq_refl) as [H0 _].
  destruct (Hv 1 0.5%float 0 0%Z 0 eq_refl eq_refl) as [H1 _].
  destruct aic_b as [|a0 [|a1 [|a2 t]]]; try discriminate Hla.
  simpl in H0, H1. injection H0 as ->. injection H1 as ->.
  vm_compute. reflexivity.
Defined.

Section TransformFacts.
Context {R : Type} {NR : Numeric R} {FR : FpFlags R} {ER : Externals R}.

(** The state at a point of a run: trap mode, log, output and objects. *)
Let at_state (fm : FpMode) (c : list (Routine * FpMode)) (w0 w : World R) : Prop :=
  fp_mode w = fm /\ calls w = calls w0 ++ c /\ stdout w = stdout w0 /\ heap w = heap w0.

Let quiet_err (w0 : World R) : exn -> World R -> Prop :=
  fun _ w => stdout w = stdout w0 /\ heap w = heap w0.

Lemma hoare_call_logged {A} r (f : FpMode -> res A) fm c (w0 : World R) :
  hoare (at_state fm c w0) (call r f)
        (fun _ => at_state fm (c ++ [(r, fm)]) w0) (quiet_err w0).
Proof.
  intros w (Hm & Hc & Hs & Hh). rewrite run_call.
  destruct (f (fp_mode w)); unfold at_state, quiet_err, logged; simpl.
  - rewrite Hc, Hm, <- app_assoc. done.
  - done.
Qed.

Lemma hoare_lift_state {A} (r : res A) fm c (w0 : World R) :
  hoare (at_state fm c w0) (lift r) (fun _ => at_state fm c w0) (quiet_err w0).
Proof. apply hoare_lift; [done|]. by intros e w _ (_ & _ & ? & ?). Qed.

Lemma transform_calls_S k :
  transform_calls (1 + k)
  = transform_calls k ++ [(CallArTrans, FpRaise); (CallMaTrans, FpRaise)].
Proof.
  unfold transform_calls. induction k as [|k IH]; [done|].
  change (1 + S k) with (S (1 + k)). rewrite replicate_S, concat_cons, IH.
  simpl. done.
Qed.

Lemma batch_trans_run p q nb (x : list R) (w : World R) :
  match batch_trans p q nb x w with
  | (Ok Tx, w') =>
      length Tx = nb * (1 + p + q) /\ at_state FpWarn (transform_calls nb) w w'
  | (Err e, w') =>
      stdout w' = stdout w /\ heap w' = heap w /\
      (forall e0, unpack p q nb x = Err e0 -> e = e0 /\ w' = w)
  end.
Proof.
  pose proof (batch_trans_length p q nb x w) as Hlen.
  destruct (unpack p q nb x) as [[[mu ar] ma]|e0] eqn:Hu.
  2:{ unfold batch_trans. rewrite M_bind_unfold. unfold lift at 1. rewrite Hu.
      split; [done|]. split; [done|]. by intros ? [= ->]. }
  pose (body := fun (ib : nat) (acc : list (list R) * list (list R)) =>
                  (let '(ar2, ma2) := acc in
                   a ← lift (py_index ar ib);
                   ari ← call CallArTrans (fun fm => sm_ar_transparams fm a);
                   b ← lift (py_index ma ib);
                   mai ← call CallMaTrans (fun fm => sm_ma_transparams fm b);
                   mret (ar2 ++ [ari], ma2 ++ [mai]))
                  : M R (list (list R) * list (list R))).
  pose (rest := (_ ← np_seterr FpRaise;
                '(ar2, ma2) ← for_rangeM nb body ([], []);
                _ ← np_seterr FpWarn;
                lift (pack p q nb mu ar2 ma2)) : M R (list R)).
  assert (Heq : batch_trans p q nb x w = rest w).
  { unfold batch_trans. rewrite M_bind_unfold. unfold lift at 1. by rewrite Hu. }
  assert (Hh : hoare (fun w1 => w1 = w) rest
                 (fun _ => at_state FpWarn (transform_calls nb) w) (quiet_err w)).
  { unfold rest.
    eapply hoare_bind with (Q := fun _ => at_state FpRaise [] w).
    { intros ? ->. unfold at_state. simpl. by rewrite app_nil_r. }
    intros _.
    eapply hoare_bind with (Q := fun _ => at_state FpRaise (transform_calls nb) w).
    { apply hoare_for_rangeM with
        (Inv := fun k _ => at_state FpRaise (transform_calls k) w); [done| |done].
      intros i [ar2 ma2] _. unfold body.
      eapply hoare_bind; [apply hoare_lift_state | intros a].
      eapply hoare_bind; [apply hoare_call_logged | intros ari].
      eapply hoare_bind; [apply hoare_lift_state | intros b].
      eapply hoare_bind; [apply hoare_call_logged | intros mai].
      apply hoare_ret. intros w1. rewrite transform_calls_S, <- app_assoc. done. }
    intros [ar2 ma2].
    eapply hoare_bind with (Q := fun _ => at_state FpWarn (transform_calls nb) w).
    { by intros w1 (_ & ? & ? & ?). }
    intros _. apply hoare_lift_state. }
  specialize (Hh w eq_refl). rewrite <- Heq in Hh.
  destruct (batch_trans p q nb x w) as [[Tx|e] w'] eqn:Hrun.
  - split; [by eapply Hlen | exact Hh].
  - destruct Hh as [? ?]. repeat split; done.
Qed.
End TransformFacts.

(** [batch_trans] switches trapping itself and does not restore the
    caller's mode.  When it returns, its result has [nb * (1 + p + q)]
    entries, trapping is permissive, and the log has grown by the two
    transform calls of each member, every one made under strict trapping;
    nothing is printed and no object is touched.  When it raises, nothing
    is printed and no object is touched either, and if the error is
    [unpack]'s the state is the caller's. *)
Theorem batch_trans_outcome {R} {NR : Numeric R} {FR : FpFlags R} {ER : Externals R}
    (p q nb : nat) (x : list R) (w : World R) :
  match batch_trans p q nb x w with
  | (Ok Tx, w') =>
      length Tx = nb * (1 + p + q) /\
      w' = mkWorld FpWarn (calls w ++ transform_calls nb) (stdout w) (heap w)
  | (Err e, w') =>
      stdout w' = stdout w /\ heap w' = heap w /\
      (forall e0, unpack p q nb x = Err e0 -> e = e0 /\ w' = w)
  end.
Proof.
  pose proof (batch_trans_run p q nb x w) as H.
  destruct (batch_trans p q nb x w) as [[Tx|e] w']; [|exact H].
  destruct H as (Hl & Hm & Hc & Hs & Hh). split; [done|].
  destruct w'. simpl in *. by subst.
Qed.

Lemma bind_raises {R A B} (m : M R A) (f : A -> M R B) (w w' : World R) e :
  m w = (Err e, w') -> (m ≫= f) w = (Err e, w').
Proof. intros H. by rewrite M_bind_unfold, H. Qed.

Lemma call_runs {R} {ER : Externals R} {A} r (f : FpMode -> res A) (w : World R) :
  call r f w = (f (fp_mode w), logged r w).
Proof. done. Qed.

(** [batch_invtrans] asserts on the truth value of whole arrays
    ([not np.isinf(ari)]).  So as soon as the inverse AR transform of the
    first member returns two coefficients or more, the call raises
    [ValueError] (the truth value of such an array is ambiguous), right
    after the two inverse transforms of that member. *)
Theorem batch_invtrans_ambiguous_truth {R} {NR : Numeric R}
    {ER : Externals R} (p q nb : nat) (x mu : list R) (ar ma : list (list R))
    (a0 b0 ari mai : list R) (w : World R) :
  unpack p q nb x = Ok (mu, ar, ma) ->
  0 < nb ->
  ar !! 0 = Some a0 -> ma !! 0 = Some b0 ->
  sm_ar_invtransparams (fp_mode w) a0 = Ok ari ->
  sm_ma_invtransparams (fp_mode w) b0 = Ok mai ->
  2 <= length ari ->
  batch_invtrans p q nb x w
  = (Err ValueError, logged CallMaInvTrans (logged CallArInvTrans w)).
Proof.
  intros Hu Hnb Ha0 Hb0 Ha Hb Hlen.
  unfold batch_invtrans. rewrite M_bind_unfold. unfold lift at 1. rewrite Hu.
  cbv beta iota. apply bind_raises.
  destruct nb as [|nb]; [lia|].
  unfold for_rangeM. rewrite <- cons_seq. cbn [forM]. apply bind_raises.
  unfold py_index. rewrite Ha0. step_lift.
  rewrite M_bind_unfold, call_runs, Ha. cbv beta iota.
  rewrite Hb0. step_lift.
  rewrite M_bind_unfold, call_runs. cbn [fp_mode logged]. rewrite Hb. cbv beta iota.
  apply bind_raises. unfold assert_neither.
  destruct ari as [|u [|v ari]]; simpl in Hlen; [lia | lia |]. reflexivity.
Qed.

Lemma batch_invtrans_ambiguous_truth_witness :
  batch_invtrans (ER:=demo_externals 0) 2 0 1
                 [0; 0.25; 0.5]%float world0
  = (Err ValueError, logged CallMaInvTrans (logged CallArInvTrans world0)).
Proof.
  apply (batch_invtrans_ambiguous_truth (ER:=demo_externals 0)
           2 0 1 [0; 0.25; 0.5]%float [0%float] [[0.25; 0.5]%float] [[]]
           [0.25; 0.5]%float [] [0.25; 0.5]%float [] world0);
    (reflexivity || (simpl; lia)).
Defined.

Section FreshFacts.
Context {R : Type} {NR : Numeric R} {FR : FpFlags R} {ER : Externals R}.
Variable n0 : nat.

(** No object has been deleted since the heap had [n0] objects. *)
Let grown (w : World R) : Prop := n0 <= length (heap w).

Lemma grown_observe c : preserves grown (observe c).
Proof. intros w Hw. exact Hw. Qed.

Lemma grown_seterr fm : preserves grown (np_seterr fm).
Proof. intros w Hw. exact Hw. Qed.

Lemma grown_print s : preserves grown (print s).
Proof. intros w Hw. exact Hw. Qed.

Lemma grown_new_model m : preserves grown (new_model m).
Proof. intros w Hw. unfold grown in *. simpl. rewrite length_app. lia. Qed.

Lemma fit_fresh_ref y p d q init disp h gpu :
  hoare grown (fit y (p, d, q) init disp h gpu)
        (fun b _ => n0 <= b) (fun _ _ => True).
Proof.
  unfold fit.
  apply hoare_bind_pres; [apply grown_seterr | done | intros ?].
  apply hoare_bind_pres; [apply preserves_fit_x0, grown_observe | done | intros x0].
  apply hoare_bind_pres; [apply grown_observe | done | intros ?].
  apply hoare_bind_pres; [apply preserves_get_mode | done | intros fm].
  apply hoare_bind_pres.
  { apply preserves_run_opt; intros x.
    - apply preserves_fit_f; [apply grown_observe | apply grown_seterr | apply grown_new_model].
    - apply preserves_fit_gf; [apply grown_observe | apply grown_seterr | apply grown_new_model]. }
  { done. }
  intros [[x n] flags].
  apply hoare_bind_pres.
  { destruct (existsb _ flags); [apply grown_print | apply preserves_ret]. }
  { done. }
  intros ?.
  apply hoare_bind_pres;
    [apply preserves_batch_trans; [apply grown_observe | apply grown_seterr] | done | intros Tx].
  apply hoare_bind_pres; [apply preserves_lift | done | intros [[mu ar] ma]].
  intros w Hw. unfold ARIMAModel_init.
  rewrite (run_bind_ok (new_model _) _ w (length (heap w)) _ eq_refl).
  rewrite M_bind_unfold. unfold update_model at 1. cbn [heap].
  rewrite lookup_app_r by lia. rewrite Nat.sub_diag. cbn [lookup list_lookup].
  cbn [mret M_ret]. exact Hw.
Qed.
End FreshFacts.

(** [fit] makes its own objects and touches no other: whatever the outcome,
    every object that existed before the call is afterwards what it was;
    and when [fit] returns, its result is a reference no object had before,
    behind which the fitted model lies. *)
Theorem fit_leaves_existing_objects {R} {NR : Numeric R} {FR : FpFlags R}
    {ER : Externals R} (y : Matrix R) (p : nat) (d : Z) (q : nat) (init : InitParams)
    (disp : Z) (h : R) (gpu : bool) (w : World R) (ref : ModelRef) (m : ARIMAModel R) :
  heap w !! ref = Some m ->
  heap (snd (fit y (p, d, q) init disp h gpu w)) !! ref = Some m /\
  forall b w1, fit y (p, d, q) init disp h gpu w = (Ok b, w1) ->
    length (heap w) <= b /\ ref <> b /\
    exists mu ar ma n,
      heap w1 !! b
      = Some (mkARIMAModel (replicate (n_cols y) (OrderTuple p d q)) mu ar ma y
                           (n_rows y) (n_cols y) None (Some n)).
Proof.
  intros Hm. split.
  - pose proof (holds_fit (fun m' => m' = m) ref y (p, d, q) init disp h gpu w) as H.
    destruct (fit y (p, d, q) init disp h gpu w) as [[b|e] w1]; simpl.
    + destruct H as (m' & Hm' & ->); [by exists m | done].
    + destruct H as (m' & Hm' & ->); [by exists m | done].
  - intros b w1 Hfit.
    pose proof (fit_fresh_ref (length (heap w)) y p d q init disp h gpu w (le_n _)) as Hb.
    rewrite Hfit in Hb.
    split; [exact Hb|]. split.
    + apply lookup_lt_Some in Hm. lia.
    + destruct (fit_result y p d q init disp h gpu w b w1 Hfit) as (mu & ar & ma & n & H & _).
      by exists mu, ar, ma, n.
Qed.

Lemma fit_leaves_existing_objects_witness :
  heap (snd (fit (FR:=float64_flags) (ER:=demo_externals 0) demo_y (1, 0%Z, 0)
                 (InitScalar 5%float [0.5%float] []) (-1) num_1e_9 true (demo_world 0))) !! 0
  = Some (demo_model 0) /\
  length (heap (demo_world 0)) <= 6 /\ 0 <> 6 /\
  exists mu ar ma n,
    heap (snd (fit (FR:=float64_flags) (ER:=demo_externals 0) demo_y (1, 0%Z, 0)
                   (InitScalar 5%float [0.5%float] []) (-1) num_1e_9 true (demo_world 0))) !! 6
    = Some (mkARIMAModel (replicate (n_cols demo_y) (OrderTuple 1 0 0)) mu ar ma demo_y
                         (n_rows demo_y) (n_cols demo_y) None (Some n)).
Proof.
  destruct (fit_leaves_existing_objects (FR:=float64_flags) (ER:=demo_externals 0)
              demo_y 1 0 0 (InitScalar 5%float [0.5%float] []) (-1) num_1e_9 true
              (demo_world 0) 0 (demo_model 0) eq_refl) as [Hold Hnew].
  split; [exact Hold|].
  apply (Hnew 6). vm_compute. reflexivity.
Defined.

Section EvaluationFacts.
Context {R : Type} {NR : Numeric R} {FR : FpFlags R} {ER : Externals R}.

Lemma run_kalman_empty_batch ref (m : ARIMAModel R) gpu ip (w : World R) :
  heap w !! ref = Some m -> order m = [] -> fails (run_kalman ref gpu ip) w.
Proof.
  intros Hm Ho. unfold fails, run_kalman.
  rewrite (run_bind_ok _ _ _ _ _ (run_get_model _ _ _ Hm)).
  rewrite M_bind_unfold, run_call.
  destruct (init_batched_kalman_matrices _ _ _) as [km|e]; [|by eauto].
  rewrite Ho. by repeat eexists.
Qed.

Lemma fails_after {A B} (c : M R A) (f : A -> M R B) (w w1 : World R) a :
  c w = (Ok a, w1) -> fails (f a) w1 -> fails (c ≫= f) w.
Proof. intros Hc (e & w' & Hf). exists e, w'. by rewrite (run_bind_ok _ _ _ _ _ Hc). Qed.

Lemma ll_f_empty_batch np p d q (y : Matrix R) (x : list R) gpu trans (w : World R) :
  fails (ll_f 0 np (p, d, q) y x gpu trans) w.
Proof.
  unfold ll_f.
  assert (Hx : exists x2 w1, (if trans then batch_trans p q 0 x else mret x) w = (Ok x2, w1)).
  { destruct trans; [|by eexists _, _]. by eexists _, _. }
  destruct Hx as (x2 & w1 & Hx).
  eapply fails_after; [exact Hx|].
  eapply fails_after; [reflexivity|]. cbv beta iota.
  eapply fails_after; [reflexivity|].
  apply fails_loglike.
  eapply run_kalman_empty_batch;
    [simpl; rewrite lookup_app_r by lia; by rewrite Nat.sub_diag | reflexivity].
Qed.
End EvaluationFacts.

(** [ll_f] is the kernel's log-likelihood of the model its vector encodes.
    For [d = 0] and at least one series: once the optional transform has
    returned [x2], [unpack] has split it and the Kalman matrices are set
    up, [ll_f] makes one model object from these parameters and returns
    what the kernel returns on the series as it is.  For an empty batch
    [ll_f] raises, whatever the arguments. *)
Theorem ll_f_evaluation {R} {NR : Numeric R} {FR : FpFlags R} {ER : Externals R}
    (nb np p q : nat) (y : Matrix R) (x : list R) (gpu trans : bool) (w : World R) :
  (forall d, fails (ll_f 0 np (p, d, q) y x gpu trans) w) /\
  (forall w1 x2 mu ar ma km,
     0 < nb ->
     (if trans then batch_trans p q nb x else mret x) w = (Ok x2, w1) ->
     unpack p q nb x2 = Ok (mu, ar, ma) ->
     init_batched_kalman_matrices (fp_mode w1) ar ma = Ok km ->
     ll_f nb np (p, 0%Z, q) y x gpu trans w
     = (match batched_kfilter (fp_mode w1) y km gpu false with
        | Ok (ll_b, _) => Ok ll_b
        | Err e => Err e
        end,
        mkWorld (fp_mode w1)
                (calls w1 ++ [(CallKalmanInit, fp_mode w1); (CallKalmanFilter, fp_mode w1)])
                (stdout w1)
                (heap w1 ++ [mkARIMAModel (replicate nb (OrderTuple p 0 q)) mu ar ma y
                                          (n_rows y) (n_cols y) None None]))).
Proof.
  split; [intros d; apply ll_f_empty_batch|].
  intros w1 x2 mu ar ma km Hnb Ht Hu Hk.
  rewrite (ll_f_d0 nb np p q y x gpu trans w w1 x2 mu ar ma km Hnb Ht Hu Hk).
  f_equal. unfold logged, ARIMAModel_init, new_model. simpl. by rewrite <- app_assoc.
Qed.

Lemma ll_f_evaluation_witness :
  ll_f (FR:=float64_flags) (ER:=demo_externals 0.5) 2 2 (1, 0%Z, 0) demo_y
       [0; 0.5; 0; 0.5]%float true true world0
  = (Ok [0.5; 0.5]%float,
     mkWorld FpWarn
       (transform_calls 2 ++ [(CallKalmanInit, FpWarn); (CallKalmanFilter, FpWarn)]) []
       [mkARIMAModel [OrderTuple 1 0 0; OrderTuple 1 0 0] [0; 0]%float
                     [[0.5]; [0.5]]%float [[]; []] demo_y 3 2 None None]).
Proof.
  destruct (ll_f_evaluation (FR:=float64_flags) (ER:=demo_externals 0.5) 2 2 1 0 demo_y
              [0; 0.5; 0; 0.5]%float true true world0) as [_ H].
  rewrite (H (mkWorld FpWarn (transform_calls 2) [] []) [0; 0.5; 0; 0.5]%float
             [0; 0]%float [[0.5]; [0.5]]%float [[]; []] tt);
    [reflexivity | lia | vm_compute; reflexivity | reflexivity | reflexivity].
Defined.

Section UpdateFacts.
Context {R : Type} {NR : Numeric R}.

Lemma bind_returns {A B} (m : M R A) (f : A -> M R B) (w w' : World R) a :
  m w = (Ok a, w') -> (m ≫= f) w = f a w'.
Proof. intros H. by rewrite M_bind_unfold, H. Qed.

Lemma get_model_at r (m : ARIMAModel R) (w : World R) :
  heap w !! r = Some m -> get_model r w = (Ok m, w).
Proof. intros H. unfold get_model. by rewrite H. Qed.

(** [best.field[j] = c] *)
Lemma run_assign {A B} (proj : ARIMAModel R -> list A)
    (set : list A -> ARIMAModel R -> ARIMAModel R) best j (c : A) (k : M R B)
    (bm : ARIMAModel R) (w : World R) :
  heap w !! best = Some bm -> j < length (proj bm) ->
  (bm' ← get_model best; v ← lift (np_setitem j c (proj bm'));
   _ ← update_model best (set v); k) w
  = k (mkWorld (fp_mode w) (calls w) (stdout w)
               (<[best:=set (<[j:=c]> (proj bm)) bm]> (heap w))).
Proof.
  intros Hm Hj.
  rewrite (bind_returns _ _ _ _ _ (get_model_at best bm w Hm)).
  unfold np_setitem. rewrite decide_True by done. step_lift.
  rewrite M_bind_unfold. unfold update_model at 1. by rewrite Hm.
Qed.

(** [c = fitted.field[i]] *)
Lemma run_read {A B} (proj : ARIMAModel R -> list A) b_model i (c : A) (k : A -> M R B)
    (fm : ARIMAModel R) (w : World R) :
  heap w !! b_model = Some fm -> proj fm !! i = Some c ->
  (fm' ← get_model b_model; c' ← lift (py_index (proj fm') i); k c') w = k c w.
Proof.
  intros Hm Hc.
  rewrite (bind_returns _ _ _ _ _ (get_model_at b_model fm w Hm)).
  unfold py_index. rewrite Hc. by step_lift.
Qed.

Lemma grid_search_update_run best b_model o (ic : list R) i best_ic (w : World R)
    bm fm ic_i b c_mu c_ar c_ma :
  best <> b_model ->
  heap w !! best = Some bm -> heap w !! b_model = Some fm ->
  ic !! i = Some ic_i -> best_ic !! i = Some b ->
  i < length (order bm) -> i < length (mu bm) ->
  i < length (ar_params bm) -> i < length (ma_params bm) ->
  mu fm !! i = Some c_mu -> ar_params fm !! i = Some c_ar ->
  ma_params fm !! i = Some c_ma ->
  grid_search_update best b_model o ic i best_ic w
  = if num_ltb ic_i b then
      (Ok (<[i:=ic_i]> best_ic),
       mkWorld (fp_mode w) (calls w) (stdout w)
         (<[best:=mkARIMAModel (<[i:=o]> (order bm)) (<[i:=c_mu]> (mu bm))
                               (<[i:=c_ar]> (ar_params bm)) (<[i:=c_ma]> (ma_params bm))
                               (y bm) (num_samples bm) (num_batches bm) (yp bm)
                               (niter bm)]> (heap w)))
    else (Ok best_ic, w).
Proof.
  intros Hne Hbm Hfm Hic Hb Ho Hmu Har Hma Hcmu Hcar Hcma.
  pose proof (lookup_lt_Some _ _ _ Hbm) as Hlt.
  unfold grid_search_update.
  assert (Hpi : py_index ic i = Ok ic_i) by (unfold py_index; by rewrite Hic).
  assert (Hpb : py_index best_ic i = Ok b) by (unfold py_index; by rewrite Hb).
  rewrite Hpi. step_lift. rewrite Hpb. step_lift.
  destruct (num_ltb ic_i b); [|done].
  rewrite (run_assign order set_order best i o _ bm w Hbm Ho).
  set (w1 := mkWorld _ _ _ _).
  assert (Hbm1 : heap w1 !! best = Some (set_order (<[i:=o]> (order bm)) bm))
    by (unfold w1; simpl; by rewrite list_lookup_insert_eq).
  assert (Hfm1 : heap w1 !! b_model = Some fm)
    by (unfold w1; simpl; by rewrite list_lookup_insert_ne).
  rewrite (run_read mu b_model i c_mu _ fm w1 Hfm1 Hcmu).
  rewrite (run_assign mu set_mu best i c_mu _ _ w1 Hbm1 Hmu).
  set (w2 := mkWorld _ _ _ _).
  assert (Hbm2 : heap w2 !! best
                 = Some (set_mu (<[i:=c_mu]> (mu bm)) (set_order (<[i:=o]> (order bm)) bm))).
  { unfold w2. cbn [heap]. rewrite list_lookup_insert_eq; [done|].
    unfold w1. cbn [heap]. by rewrite length_insert. }
  assert (Hfm2 : heap w2 !! b_model = Some fm)
    by (unfold w2; cbn [heap]; by rewrite list_lookup_insert_ne).
  rewrite (run_read ar_params b_model i c_ar _ fm w2 Hfm2 Hcar).
  rewrite (run_assign ar_params set_ar_params best i c_ar _ _ w2 Hbm2 Har).
  set (w3 := mkWorld _ _ _ _).
  assert (Hbm3 : heap w3 !! best
                 = Some (set_ar_params (<[i:=c_ar]> (ar_params bm))
                           (set_mu (<[i:=c_mu]> (mu bm))
                              (set_order (<[i:=o]> (order bm)) bm)))).
  { unfold w3. cbn [heap]. rewrite list_lookup_insert_eq; [done|].
    unfold w2, w1. cbn [heap]. by rewrite !length_insert. }
  assert (Hfm3 : heap w3 !! b_model = Some fm)
    by (unfold w3; cbn [heap]; by rewrite list_lookup_insert_ne).
  rewrite (run_read ma_params b_model i c_ma _ fm w3 Hfm3 Hcma).
  rewrite (run_assign ma_params set_ma_params best i c_ma _ _ w3 Hbm3 Hma).
  unfold np_setitem. rewrite decide_True by (by eapply lookup_lt_Some).
  unfold lift. f_equal. unfold w3, w2, w1. cbn [heap fp_mode calls stdout].
  by rewrite !list_insert_insert_eq.
Qed.
End UpdateFacts.

(** The replace-if-better step of [grid_search] for one member [i], the
    placeholder and the fitted model being two objects: when the candidate's
    score is strictly below the member's best, entry [i] of [order], [mu],
    [ar_params] and [ma_params] of the best model becomes the candidate's
    order and the fitted model's entry [i], and the score is recorded;
    nothing else changes.  Otherwise (the scores are equal, or either is
    NaN, included) nothing changes at all. *)
Theorem grid_search_update_step {R} {NR : Numeric R}
    (best b_model : ModelRef) (o : PyOrder) (ic : list R) (i : nat) (best_ic : list R)
    (w : World R) (bm fm : ARIMAModel R) (ic_i b c_mu : R) (c_ar c_ma : list R) :
  best <> b_model ->
  heap w !! best = Some bm -> heap w !! b_model = Some fm ->
  ic !! i = Some ic_i -> best_ic !! i = Some b ->
  i < length (order bm) -> i < length (mu bm) ->
  i < length (ar_params bm) -> i < length (ma_params bm) ->
  mu fm !! i = Some c_mu -> ar_params fm !! i = Some c_ar ->
  ma_params fm !! i = Some c_ma ->
  grid_search_update best b_model o ic i best_ic w
  = if num_ltb ic_i b then
      (Ok (<[i:=ic_i]> best_ic),
       mkWorld (fp_mode w) (calls w) (stdout w)
         (<[best:=mkARIMAModel (<[i:=o]> (order bm)) (<[i:=c_mu]> (mu bm))
                               (<[i:=c_ar]> (ar_params bm)) (<[i:=c_ma]> (ma_params bm))
                               (y bm) (num_samples bm) (num_batches bm) (yp bm)
                               (niter bm)]> (heap w)))
    else (Ok best_ic, w).
Proof. apply grid_search_update_run. Qed.

Lemma grid_search_update_step_witness :
  grid_search_update 0 1 (OrderTuple 1 0 0)
    [3; 1]%float 1 [2; 2]%float
    (mkWorld FpWarn [] []
       [mkARIMAModel [OrderEmpty; OrderEmpty] [0; 0]%float [[]; []] [[]; []]
                     demo_y 3 2 None None;
        mkARIMAModel [OrderTuple 1 0 0; OrderTuple 1 0 0] [4; 5]%float
                     [[0.25]; [0.5]]%float [[]; []] demo_y 3 2 None (Some 3%Z)])
  = (Ok [2; 1]%float,
     mkWorld FpWarn [] []
       [mkARIMAModel [OrderEmpty; OrderTuple 1 0 0] [0; 5]%float [[]; [0.5]]%float [[]; []]
                     demo_y 3 2 None None;
        mkARIMAModel [OrderTuple 1 0 0; OrderTuple 1 0 0] [4; 5]%float
                     [[0.25]; [0.5]]%float [[]; []] demo_y 3 2 None (Some 3%Z)]).
Proof.
  rewrite (grid_search_update_step 0 1
             (OrderTuple 1 0 0) [3; 1]%float 1 [2; 2]%float _
             (mkARIMAModel [OrderEmpty; OrderEmpty] [0; 0]%float [[]; []] [[]; []]
                           demo_y 3 2 None None)
             (mkARIMAModel [OrderTuple 1 0 0; OrderTuple 1 0 0] [4; 5]%float
                           [[0.25]; [0.5]]%float [[]; []] demo_y 3 2 None (Some 3%Z))
             1%float 2%float 5%float [0.5%float] []);
    [reflexivity | lia | reflexivity | reflexivity | reflexivity | reflexivity
    | simpl; lia | simpl; lia | simpl; lia | simpl; lia
    | reflexivity | reflexivity | reflexivity].
Defined.

Section MatrixFacts.
Context {R : Type} {NR : Numeric R} {FR : FpFlags R}.

Lemma bcast_dim_one a : bcast_dim a 1 = Ok a.
Proof. unfold bcast_dim. repeat case_decide; try done; by subst. Qed.

Lemma bcast_dim_same a : bcast_dim a a = Ok a.
Proof. unfold bcast_dim. by rewrite decide_True. Qed.

Lemma fst_fp_mat_op op (a b : Matrix R) r c :
  fst (fp_mat_op op a b r c)
  = mkMatrix r ((fun j => (fun i => apply_op op (mat_entry a i j) (mat_entry b i j))
                            <$> seq 0 r) <$> seq 0 c).
Proof.
  unfold fp_mat_op. rewrite fp_bind_fst. simpl. f_equal. rewrite fst_fp_map.
  apply list_fmap_ext. intros _ j _. by rewrite fst_fp_map.
Qed.

Lemma fst_fp_mat_diff (m : Matrix R) :
  fst (fp_mat_diff m)
  = mkMatrix (n_rows m - 1) ((fun c => fst (fp_diff c)) <$> columns m).
Proof. unfold fp_mat_diff. rewrite fp_bind_fst. simpl. by rewrite fst_fp_map. Qed.

Lemma fp_diff_lookup (c : list R) i u v :
  c !! i = Some u -> c !! S i = Some v -> fst (fp_diff c) !! i = Some (num_sub v u).
Proof.
  destruct c as [|y0 rest]; [done|]. intros Hu Hv.
  rewrite fst_fp_diff_zip. apply lookup_zip_with_Some. by exists v, u.
Qed.

Lemma mat_entry_at (m : Matrix R) i j c v :
  columns m !! j = Some c -> c !! i = Some v ->
  (n_rows m = 1 -> i = 0) -> mat_entry m i j = v.
Proof.
  intros Hc Hv Hi. unfold mat_entry.
  assert (Hj : (if decide (n_cols m = 1) then 0 else j) = j).
  { destruct (decide (n_cols m = 1)) as [H1|]; [|done].
    apply lookup_lt_Some in Hc. unfold n_cols in H1. lia. }
  assert (Hi' : (if decide (n_rows m = 1) then 0 else i) = i).
  { destruct (decide (n_rows m = 1)) as [H1|]; [|done]. by rewrite (Hi H1). }
  rewrite Hj, Hi', Hc. simpl. by rewrite Hv.
Qed.

Lemma mat_entry_row (v : list R) i j c :
  v !! j = Some c -> mat_entry (row_matrix v) i j = c.
Proof.
  intros Hc. unfold mat_entry.
  assert (Hj : (if decide (n_cols (row_matrix v) = 1) then 0 else j) = j).
  { destruct (decide (n_cols (row_matrix v) = 1)) as [H1|]; [|done].
    apply lookup_lt_Some in Hc.
    unfold n_cols, row_matrix in H1. simpl in H1. rewrite length_fmap in H1. lia. }
  rewrite Hj. unfold row_matrix. simpl. rewrite list_lookup_fmap, Hc. done.
Qed.

(** The loop that fills [B0]: with one mean and one coefficient vector per
    member, [B0] is [mu]. *)
Lemma center_vector (mu : list R) (ar : list (list R)) nb :
  length mu = nb -> length ar = nb ->
  for_each (fun i B0 => m ← py_index mu i; np_setitem i m B0)
           (seq 0 (length mu `min` length ar)) (np_zeros nb)
  = Ok mu.
Proof.
  intros Hmu Har. rewrite Hmu, Har, Nat.min_id.
  destruct (for_each_seq_inv
              (fun i (B : list R) => B = take i mu ++ np_zeros (nb - i))
              (fun i B0 => m ← py_index mu i; np_setitem i m B0) nb 0 (np_zeros nb))
    as (B & HB & ->).
  - by rewrite take_0, Nat.sub_0_r.
  - intros i B Hi ->.
    destruct (lookup_lt_is_Some_2 mu i) as [m Hm]; [lia|].
    unfold py_index. rewrite Hm. simpl. unfold np_setitem.
    rewrite decide_True.
    2:{ rewrite length_app, length_take. unfold np_zeros. rewrite length_replicate. lia. }
    eexists. split; [reflexivity|].
    rewrite insert_app_r_alt by (rewrite length_take; lia).
    rewrite length_take. replace (i - i `min` length mu) with 0 by lia.
    rewrite (take_S_r _ _ _ Hm), <- app_assoc. f_equal.
    unfold np_zeros. replace (nb - i) with (S (nb - S i)) by lia. done.
  - rewrite HB. simpl. rewrite Nat.sub_diag. unfold np_zeros. simpl.
    by rewrite app_nil_r, take_ge by lia.
Qed.

Lemma diffAndCenter_run (y : Matrix R) nb (mu : list R) (ar : list (list R)) (w : World R) :
  fp_mode w = FpWarn ->
  n_cols y = nb -> length mu = nb -> length ar = nb ->
  diffAndCenter y nb mu ar w
  = (Ok (fst (fp_mat_op OpSub (fst (fp_mat_diff y)) (row_matrix mu) (n_rows y - 1) nb)), w).
Proof.
  intros Hw Hy Hmu Har. unfold diffAndCenter.
  run_step Hw. rewrite (center_vector mu ar nb Hmu Har). step_lift.
  unfold np_mat_op.
  assert (Hr : bcast_dim (n_rows (fst (fp_mat_diff y))) (n_rows (row_matrix mu))
               = Ok (n_rows y - 1)).
  { rewrite fst_fp_mat_diff. simpl. apply bcast_dim_one. }
  assert (Hc : bcast_dim (n_cols (fst (fp_mat_diff y))) (n_cols (row_matrix mu)) = Ok nb).
  { rewrite fst_fp_mat_diff. unfold n_cols, row_matrix. simpl. rewrite !length_fmap.
    unfold n_cols in Hy. rewrite Hy, Hmu. apply bcast_dim_same. }
  rewrite Hr. step_lift. rewrite Hc. step_lift. by run_step Hw.
Qed.
End MatrixFacts.

(** [diffAndCenter] differences every series and subtracts the member's
    mean, and nothing else: with one mean and one coefficient vector per
    series and permissive trapping it returns an array with one row less
    than [y] whose entry [(i, j)] is [(y[i+1, j] - y[i, j]) - mu[j]].  The
    coefficients play no part in the result (only their number does). *)
Theorem diffAndCenter_entries {R} {NR : Numeric R} {FR : FpFlags R}
    (y : Matrix R) (nb : nat) (mu : list R) (ar : list (list R)) (w : World R) :
  fp_mode w = FpWarn -> wf_matrix y ->
  n_cols y = nb -> length mu = nb -> length ar = nb ->
  exists ydc,
    diffAndCenter y nb mu ar w = (Ok ydc, w) /\
    n_rows ydc = n_rows y - 1 /\ n_cols ydc = nb /\
    (forall ar', length ar' = nb -> diffAndCenter y nb mu ar' w = (Ok ydc, w)) /\
    forall i j c m u v,
      columns y !! j = Some c -> mu !! j = Some m ->
      c !! i = Some u -> c !! S i = Some v ->
      exists col, columns ydc !! j = Some col /\
                  col !! i = Some (num_sub (num_sub v u) m).
Proof.
  intros Hw Hwf Hy Hmu Har. eexists. split; [by apply diffAndCenter_run|].
  rewrite fst_fp_mat_op. split; [done|].
  split; [unfold n_cols; simpl; by rewrite length_fmap, length_seq|].
  split; [intros ar' Har'; rewrite diffAndCenter_run by done; by rewrite fst_fp_mat_op|].
  intros i j c m u v Hc Hm Hu Hv. cbn [columns].
  assert (Hj : j < nb) by (apply lookup_lt_Some in Hm; lia).
  assert (Hlen : length c = n_rows y).
  { unfold wf_matrix in Hwf. rewrite Forall_forall in Hwf. apply Hwf.
    by eapply list_elem_of_lookup_2. }
  assert (Hi : i < n_rows y - 1) by (apply lookup_lt_Some in Hv; lia).
  eexists. split.
  - rewrite list_lookup_fmap, lookup_seq_lt by done. reflexivity.
  - rewrite list_lookup_fmap, lookup_seq_lt by done. simpl. f_equal.
    rewrite (mat_entry_row mu i j m Hm).
    rewrite (mat_entry_at (fst (fp_mat_diff y)) i j (fst (fp_diff c)) (num_sub v u)).
    + done.
    + rewrite fst_fp_mat_diff. simpl. by rewrite list_lookup_fmap, Hc.
    + by apply fp_diff_lookup.
    + rewrite fst_fp_mat_diff. simpl. lia.
Qed.

Lemma diffAndCenter_entries_witness :
  diffAndCenter (FR:=float64_flags) (mkMatrix 3 [[1; 3; 6]; [2; 2; 5]]%float) 2
                [1; 2]%float [[0.5]; [0.25]]%float world0
  = (Ok (mkMatrix 2 [[1; 2]; [-2; 1]]%float), world0).
Proof.
  destruct (diffAndCenter_entries (FR:=float64_flags) (mkMatrix 3 [[1; 3; 6]; [2; 2; 5]]%float)
              2 [1; 2]%float [[0.5]; [0.25]]%float world0)
    as (ydc & Hrun & _);
    [reflexivity | repeat constructor | reflexivity | reflexivity | reflexivity |].
  rewrite Hrun. vm_compute in Hrun. by injection Hrun as <-.
Defined.

Section PredictionFacts.
Context {R : Type} {NR : Numeric R} {FR : FpFlags R} {ER : Externals R}.

Lemma run_np_mat_op_same op (a b : Matrix R) (w : World R) :
  fp_mode w = FpWarn -> n_rows b = n_rows a -> n_cols b = n_cols a ->
  np_mat_op op a b w = (Ok (fst (fp_mat_op op a b (n_rows a) (n_cols a))), w).
Proof.
  intros Hw Hr Hc. unfold np_mat_op. rewrite Hr, Hc, !bcast_dim_same.
  step_lift. step_lift. by run_step Hw.
Qed.

Lemma predict_in_sample_d0_run ref gpu (m : ARIMAModel R) (w w1 : World R) ll vs :
  fp_mode w = FpWarn -> heap w !! ref = Some m -> uniform_d (order m) 0 ->
  run_kalman ref gpu false w = (Ok (ll, vs), w1) ->
  n_rows vs = n_rows (y m) -> n_cols vs = n_cols (y m) ->
  predict_in_sample ref gpu w
  = (Ok (fst (fp_mat_op OpSub (y m) vs (n_rows (y m)) (n_cols (y m)))),
     mkWorld (fp_mode w1) (calls w1) (stdout w1)
       (<[ref:=set_yp (Some (fst (fp_mat_op OpSub (y m) vs (n_rows (y m)) (n_cols (y m))))) m]>
          (heap w1))).
Proof.
  intros Hw Hm Hu Hk Hr Hc.
  destruct (run_kalman_frame _ _ _ _ _ _ Hk) as (Hmode & _ & Hheap).
  assert (Hw1 : fp_mode w1 = FpWarn) by congruence.
  assert (Hm1 : heap w1 !! ref = Some m) by (by rewrite Hheap).
  unfold predict_in_sample. rewrite (run_bind_ok _ _ _ _ _ Hk). cbv beta iota.
  rewrite (run_bind_ok _ _ _ _ _ (run_get_model ref m w1 Hm1)).
  rewrite (proj2 (assert_same_d_ok (order m)) (ex_intro _ 0%Z Hu)). step_lift.
  destruct (uniform_d_head _ _ Hu) as (p & q & Ho). rewrite Ho. step_lift.
  change (order_tuple (OrderTuple p 0 q)) with (Ok (p, 0%Z, q) : res Order).
  step_lift. cbv beta iota.
  rewrite decide_True by done.
  assert (Hyp : (y_p ← np_mat_op OpSub (y m) vs; mret (y_p, mat_zeros (R:=R) 0 0)) w1
                = (Ok (fst (fp_mat_op OpSub (y m) vs (n_rows (y m)) (n_cols (y m))),
                       mat_zeros 0 0), w1)).
  { by rewrite (run_bind_ok _ _ _ _ _ (run_np_mat_op_same OpSub (y m) vs w1 Hw1 Hr Hc)). }
  rewrite (run_bind_ok _ _ _ _ _ Hyp). cbv beta iota.
  rewrite decide_False by done.
  rewrite M_bind_unfold. cbn [mret M_ret].
  rewrite M_bind_unfold. unfold update_model at 1. rewrite Hm1. done.
Qed.
End PredictionFacts.

(** [predict_in_sample] for [d = 0]: when the filter returns innovations
    [vs] of the shape of [y] (permissive trapping), the prediction is the
    series minus the innovations, entry by entry, [y[i, j] - vs[i, j]]; it
    has the shape of [y], and it is stored in [yp] of the model, all else
    being as the filter left it. *)
Theorem predict_in_sample_d0 {R} {NR : Numeric R} {FR : FpFlags R} {ER : Externals R}
    (ref : ModelRef) (gpu : bool) (m : ARIMAModel R) (w w1 : World R) (ll : list R)
    (vs : Matrix R) :
  fp_mode w = FpWarn -> heap w !! ref = Some m -> uniform_d (order m) 0 ->
  run_kalman ref gpu false w = (Ok (ll, vs), w1) ->
  n_rows vs = n_rows (y m) -> n_cols vs = n_cols (y m) ->
  exists y_p,
    predict_in_sample ref gpu w
    = (Ok y_p, mkWorld (fp_mode w1) (calls w1) (stdout w1)
                       (<[ref:=set_yp (Some y_p) m]> (heap w1))) /\
    n_rows y_p = n_rows (y m) /\ n_cols y_p = n_cols (y m) /\
    forall i j c cv u e,
      columns (y m) !! j = Some c -> columns vs !! j = Some cv ->
      c !! i = Some u -> cv !! i = Some e -> i < n_rows (y m) ->
      exists col, columns y_p !! j = Some col /\ col !! i = Some (num_sub u e).
Proof.
  intros Hw Hm Hu Hk Hr Hc. eexists. split; [by eapply predict_in_sample_d0_run|].
  rewrite fst_fp_mat_op. split; [done|].
  split; [unfold n_cols; simpl; by rewrite length_fmap, length_seq|].
  intros i j c cv u e Hcj Hcvj Hu' He Hi. cbn [columns].
  assert (Hj : j < n_cols (y m)) by (by eapply lookup_lt_Some).
  eexists. split.
  - rewrite list_lookup_fmap, lookup_seq_lt by done. reflexivity.
  - rewrite list_lookup_fmap, lookup_seq_lt by done. simpl. f_equal.
    rewrite (mat_entry_at (y m) i j c u Hcj Hu') by lia.
    rewrite (mat_entry_at vs i j cv e Hcvj He) by lia. done.
Qed.

Lemma predict_in_sample_d0_witness :
  predict_in_sample (FR:=float64_flags) (ER:=halving_externals) 0 true
    (mkWorld FpWarn [] []
       [mkARIMAModel [OrderTuple 1 0 0; OrderTuple 0 0 1] [1; 2]%float [[0.5]; []]%float
                     [[]; [0.25]]%float (mkMatrix 3 [[1; 3; 6]; [2; 2; 5]]%float)
                     3 2 None None])
  = (Ok (mkMatrix 3 [[0.5; 1.5; 3]; [1; 1; 2.5]]%float),
     mkWorld FpWarn [(CallKalmanInit, FpWarn); (CallKalmanFilter, FpWarn)] []
       [mkARIMAModel [OrderTuple 1 0 0; OrderTuple 0 0 1] [1; 2]%float [[0.5]; []]%float
                     [[]; [0.25]]%float (mkMatrix 3 [[1; 3; 6]; [2; 2; 5]]%float)
                     3 2 (Some (mkMatrix 3 [[0.5; 1.5; 3]; [1; 1; 2.5]]%float)) None]).
Proof.
  destruct (predict_in_sample_d0 (FR:=float64_flags) (ER:=halving_externals) 0 true
              (mkARIMAModel [OrderTuple 1 0 0; OrderTuple 0 0 1] [1; 2]%float [[0.5]; []]%float
                            [[]; [0.25]]%float (mkMatrix 3 [[1; 3; 6]; [2; 2; 5]]%float)
                            3 2 None None)
              (mkWorld FpWarn [] []
                 [mkARIMAModel [OrderTuple 1 0 0; OrderTuple 0 0 1] [1; 2]%float
                               [[0.5]; []]%float [[]; [0.25]]%float
                               (mkMatrix 3 [[1; 3; 6]; [2; 2; 5]]%float) 3 2 None None])
              (mkWorld FpWarn [(CallKalmanInit, FpWarn); (CallKalmanFilter, FpWarn)] []
                 [mkARIMAModel [OrderTuple 1 0 0; OrderTuple 0 0 1] [1; 2]%float
                               [[0.5]; []]%float [[]; [0.25]]%float
                               (mkMatrix 3 [[1; 3; 6]; [2; 2; 5]]%float) 3 2 None None])
              [0; 0]%float (mkMatrix 3 [[0.5; 1.5; 3]; [1; 1; 2.5]]%float))
    as (y_p & Hrun & _).
  - reflexivity.
  - reflexivity.
  - split; [done|]. repeat constructor; by eexists _, _.
  - vm_compute. reflexivity.
  - reflexivity.
  - reflexivity.
  - rewrite Hrun. vm_compute in Hrun. by injection Hrun as <-.
Defined.

Section ForecastMembers.
Context {R : Type} {NR : Numeric R} {FR : FpFlags R} {ER : Externals R}.

Lemma fst_fp_diff_differences (c : list R) : fst (fp_diff c) = differences c.
Proof. destruct c as [|y0 rest]; [done|]. by rewrite fst_fp_diff_zip. Qed.

Lemma length_differences (c : list R) : length (differences c) = length c - 1.
Proof.
  unfold differences. rewrite length_zip_with. destruct c; simpl; lia.
Qed.

Lemma length_forecast_member nsteps p d q (c cv : list R) mu_i ar ma :
  length (forecast_member nsteps (OrderTuple p d q) c cv mu_i ar ma) = nsteps.
Proof.
  unfold forecast_member. case_decide.
  - by rewrite length_running_sums, length_forecast_values.
  - by rewrite length_forecast_values.
Qed.

Lemma run_kalman_returns_uniform ref gpu ip (m : ARIMAModel R) (w : World R) r w1 :
  heap w !! ref = Some m ->
  run_kalman ref gpu ip w = (Ok r, w1) ->
  exists d, uniform_d (order m) d.
Proof.
  intros Hm Hk. unfold run_kalman in Hk.
  rewrite (run_bind_ok _ _ _ _ _ (run_get_model _ _ _ Hm)) in Hk.
  rewrite M_bind_unfold, run_call in Hk.
  destruct (init_batched_kalman_matrices _ _ _) as [km|e]; [|discriminate].
  rewrite M_bind_unfold in Hk. unfold lift at 1 in Hk.
  destruct (assert_same_d (order m)) as [[]|e] eqn:Ha; [|discriminate].
  by apply assert_same_d_ok in Ha.
Qed.

Lemma run_undifference_warn (x : list R) x0 (w : World R) :
  fp_mode w = FpWarn -> undifference x x0 w = (Ok (x0 :: running_sums x0 x), w).
Proof.
  intros Hw. unfold undifference. run_step Hw.
  by rewrite fst_fp_cumsum_cons, fst_fp_cumsum_from_running.
Qed.

Lemma forecast_run ref nsteps (m : ARIMAModel R) (w w1 : World R) ll vs nb :
  fp_mode w = FpWarn -> heap w !! ref = Some m ->
  run_kalman ref true false w = (Ok (ll, vs), w1) ->
  num_batches m = nb -> length (order m) = nb -> length (mu m) = nb ->
  length (ar_params m) = nb -> length (ma_params m) = nb ->
  n_cols (y m) = nb -> n_cols vs = nb ->
  wf_matrix (y m) -> 0 < n_rows (y m) ->
  (forall i p d q ar ma cv,
     order m !! i = Some (OrderTuple p d q) ->
     ar_params m !! i = Some ar -> ma_params m !! i = Some ma ->
     columns vs !! i = Some cv ->
     length ar = p /\ length ma = q /\ p <= n_rows (y m) - 1 /\ q <= length cv) ->
  forecast ref nsteps w
  = (Ok (mkMatrix nsteps
           ((fun i => forecast_member nsteps
                        (default OrderEmpty (order m !! i))
                        (default [] (columns (y m) !! i))
                        (default [] (columns vs !! i))
                        (default num_zero (mu m !! i))
                        (default [] (ar_params m !! i))
                        (default [] (ma_params m !! i))) <$> seq 0 nb)),
     w1).
Proof.
  intros Hw Hm Hk Hnb Ho Hmu Har Hma Hy Hvs Hwf Hrows Hmem.
  assert (Hw1 : fp_mode w1 = FpWarn).
  { destruct (run_kalman_frame _ _ _ _ _ _ Hk) as (-> & _). done. }
  destruct (run_kalman_returns_uniform _ _ _ _ _ _ _ Hm Hk) as [d0 Hu].
  unfold forecast.
  rewrite (run_bind_ok _ _ _ _ _ (run_get_model _ _ _ Hm)).
  rewrite (run_bind_ok _ _ _ _ _ Hk). cbv beta iota.
  set (tgt := fun i => forecast_member nsteps
                         (default OrderEmpty (order m !! i))
                         (default [] (columns (y m) !! i))
                         (default [] (columns vs !! i))
                         (default num_zero (mu m !! i))
                         (default [] (ar_params m !! i))
                         (default [] (ma_params m !! i))).
  set (target := tgt <$> seq 0 nb).
  assert (Htl : length target = nb) by (unfold target; by rewrite length_fmap, length_seq).
  match goal with |- for_rangeM _ ?body ?s w1 = _ =>
    destruct (for_rangeM_inv
      (fun i yfc => yfc = mkMatrix nsteps (take i target ++ replicate (nb - i) (np_zeros nsteps)))
      (num_batches m) body w1 s) as (yfc & Hrun & HP)
  end.
  - unfold mat_zeros. by rewrite Hnb, Nat.sub_0_r.
  - intros i yfc Hi ->. rewrite Hnb in Hi.
    destruct (py_index_lt (order m) i) as (o & Hoi & ->); [lia|]. run_step Hw1.
    destruct Hu as [_ Hall].
    destruct (Forall_lookup_1 _ _ _ _ Hall Hoi) as (p & q & ->).
    change (order_tuple (OrderTuple p d0 q)) with (Ok (p, d0, q) : res Order).
    run_step Hw1.
    unfold mat_column.
    destruct (py_index_lt (columns vs) i) as (vsi & Hvsi & ->); [unfold n_cols in Hvs; lia|].
    run_step Hw1.
    destruct (py_index_lt (columns (y m)) i) as (yi & Hyi & Hpy); [unfold n_cols in Hy; lia|].
    rewrite Hpy. run_step Hw1. run_step Hw1.
    destruct (py_index_lt (mu m) i) as (mu_i & Hmui & ->); [lia|]. run_step Hw1.
    destruct (py_index_lt (ma_params m) i) as (ma_i & Hmai & ->); [lia|]. run_step Hw1.
    destruct (py_index_lt (ar_params m) i) as (ar_i & Hari & ->); [lia|]. run_step Hw1.
    destruct (Hmem i p d0 q ar_i ma_i vsi Hoi Hari Hmai Hvsi) as (Hp & Hq & Hpy' & Hqv).
    assert (Hyl : length yi = n_rows (y m)).
    { unfold wf_matrix in Hwf. rewrite Forall_forall in Hwf. apply Hwf.
      by eapply list_elem_of_lookup_2. }
    rewrite fst_fp_diff_differences.
    rewrite (run_bind_ok _ _ _ _ _
               (fc_single_law nsteps p d0 q (differences yi) vsi mu_i ma_i ar_i w1 Hp Hq
                  ltac:(rewrite length_differences; lia) Hqv Hw1)).
    assert (Ht : target !! i = Some (forecast_member nsteps (OrderTuple p d0 q) yi vsi mu_i
                                                       ar_i ma_i)).
    { unfold target. rewrite list_lookup_fmap, lookup_seq_lt by done. simpl. unfold tgt.
      by rewrite Hoi, Hyi, Hvsi, Hmui, Hari, Hmai. }
    assert (Hfin : forall (fc : list R) (w' : World R),
      fc = forecast_member nsteps (OrderTuple p d0 q) yi vsi mu_i ar_i ma_i ->
      exists s',
        lift (mat_set_column i fc
                {| n_rows := nsteps;
                   columns := take i target ++ replicate (nb - i) (np_zeros nsteps) |}) w'
        = (Ok s', w') /\
        s' = {| n_rows := nsteps;
                columns := take (1 + i) target
                           ++ replicate (nb - (1 + i)) (np_zeros nsteps) |}).
    { intros fc w' ->. unfold mat_set_column, n_cols. cbn [columns n_rows].
      rewrite decide_True.
      2:{ rewrite length_app, length_take, length_replicate. lia. }
      rewrite decide_True by apply length_forecast_member.
      eexists. split; [reflexivity|]. f_equal.
      change (1 + i) with (Datatypes.S i). rewrite (take_S_r _ _ _ Ht), <- app_assoc.
      rewrite insert_app_r_alt by (rewrite length_take; lia).
      f_equal. rewrite length_take.
      replace (i - i `min` length target) with 0 by lia.
      replace (nb - i) with (Datatypes.S (nb - Datatypes.S i)) by lia. done. }
    destruct (decide (0 < d0)%Z) as [Hd|Hd].
    + destruct (last yi) as [y_last|] eqn:Hlast.
      2:{ apply last_None in Hlast. subst yi. simpl in Hyl. lia. }
      assert (Hlastat : mat_last_at (y m) i = Ok y_last).
      { unfold mat_last_at, mat_column. rewrite Hpy. simpl. by rewrite Hlast. }
      rewrite Hlastat.
      set (fv := forecast_values nsteps p q (differences yi) vsi mu_i ar_i ma_i).
      assert (Hinner : (y_last' ← lift (Ok y_last); u ← undifference fv y_last';
                        mret (py_slice_from 1 u)) w1
                       = (Ok (running_sums y_last fv), w1)).
      { run_step Hw1.
        by rewrite (run_bind_ok _ _ _ _ _ (run_undifference_warn fv y_last w1 Hw1)). }
      rewrite (run_bind_ok _ _ _ _ _ Hinner). apply Hfin.
      unfold forecast_member. rewrite decide_True by done. by rewrite Hlast.
    + run_step Hw1. apply Hfin.
      unfold forecast_member. by rewrite decide_False by done.
  - rewrite Hrun, HP. do 2 f_equal. rewrite Hnb, Nat.sub_diag. simpl.
    rewrite app_nil_r. f_equal. apply take_ge. lia.
Qed.
End ForecastMembers.

(** [forecast] composes [fc_single] and [undifference] member by member.
    Under permissive trapping, when the filter returns innovations [vs] for
    a model whose members have coefficient vectors of the lengths their
    orders say, enough history and enough innovations, [forecast] returns
    an [nsteps] by [num_batches] array whose column [i] is the forecast of
    member [i]: the values of [fc_single] on the differenced series, and,
    for a differenced member, their running sums started from the last
    observation (the seed itself dropped). *)
Theorem forecast_members {R} {NR : Numeric R} {FR : FpFlags R} {ER : Externals R}
    (ref : ModelRef) (nsteps : nat) (m : ARIMAModel R) (w w1 : World R) (ll : list R)
    (vs : Matrix R) (nb : nat) :
  fp_mode w = FpWarn -> heap w !! ref = Some m ->
  run_kalman ref true false w = (Ok (ll, vs), w1) ->
  num_batches m = nb -> length (order m) = nb -> length (mu m) = nb ->
  length (ar_params m) = nb -> length (ma_params m) = nb ->
  n_cols (y m) = nb -> n_cols vs = nb ->
  wf_matrix (y m) -> 0 < n_rows (y m) ->
  (forall i p d q ar ma cv,
     order m !! i = Some (OrderTuple p d q) ->
     ar_params m !! i = Some ar -> ma_params m !! i = Some ma ->
     columns vs !! i = Some cv ->
     length ar = p /\ length ma = q /\ p <= n_rows (y m) - 1 /\ q <= length cv) ->
  exists fc,
    forecast ref nsteps w = (Ok fc, w1) /\
    n_rows fc = nsteps /\ n_cols fc = nb /\
    forall i o c cv mu_i ar ma,
      order m !! i = Some o -> columns (y m) !! i = Some c ->
      columns vs !! i = Some cv -> mu m !! i = Some mu_i ->
      ar_params m !! i = Some ar -> ma_params m !! i = Some ma ->
      columns fc !! i = Some (forecast_member nsteps o c cv mu_i ar ma).
Proof.
  intros Hw Hm Hk Hnb Ho Hmu Har Hma Hy Hvs Hwf Hrows Hmem.
  eexists. split; [by eapply forecast_run|]. split; [done|].
  split; [unfold n_cols; simpl; by rewrite length_fmap, length_seq|].
  intros i o c cv mu_i ar ma Hoi Hci Hcvi Hmui Hari Hmai. cbn [columns].
  assert (Hi : i < nb) by (apply lookup_lt_Some in Hoi; lia).
  rewrite list_lookup_fmap, lookup_seq_lt by done. simpl.
  by rewrite Hoi, Hci, Hcvi, Hmui, Hari, Hmai.
Qed.

Lemma forecast_members_witness :
  forecast (FR:=float64_flags) (ER:=halving_externals) 0 2
    (mkWorld FpWarn [] []
       [mkARIMAModel [OrderTuple 1 1 0; OrderTuple 0 1 1] [1; 2]%float [[0.5]; []]%float
                     [[]; [0.25]]%float (mkMatrix 3 [[1; 3; 6]; [2; 2; 5]]%float)
                     3 2 None None])
  = (Ok (mkMatrix 2 [[8; 9.5]; [7.125; 9.125]]%float),
     mkWorld FpWarn [(CallKalmanInit, FpWarn); (CallKalmanFilter, FpWarn)] []
       [mkARIMAModel [OrderTuple 1 1 0; OrderTuple 0 1 1] [1; 2]%float [[0.5]; []]%float
                     [[]; [0.25]]%float (mkMatrix 3 [[1; 3; 6]; [2; 2; 5]]%float)
                     3 2 None None]).
Proof.
  destruct (forecast_members (FR:=float64_flags) (ER:=halving_externals) 0 2
              (mkARIMAModel [OrderTuple 1 1 0; OrderTuple 0 1 1] [1; 2]%float [[0.5]; []]%float
                            [[]; [0.25]]%float (mkMatrix 3 [[1; 3; 6]; [2; 2; 5]]%float)
                            3 2 None None)
              (mkWorld FpWarn [] []
                 [mkARIMAModel [OrderTuple 1 1 0; OrderTuple 0 1 1] [1; 2]%float
                               [[0.5]; []]%float [[]; [0.25]]%float
                               (mkMatrix 3 [[1; 3; 6]; [2; 2; 5]]%float) 3 2 None None])
              (mkWorld FpWarn [(CallKalmanInit, FpWarn); (CallKalmanFilter, FpWarn)] []
                 [mkARIMAModel [OrderTuple 1 1 0; OrderTuple 0 1 1] [1; 2]%float
                               [[0.5]; []]%float [[]; [0.25]]%float
                               (mkMatrix 3 [[1; 3; 6]; [2; 2; 5]]%float) 3 2 None None])
              [0; 0]%float (mkMatrix 2 [[0.5; 1]; [-1; 0.5]]%float) 2)
    as (fc & Hrun & Hr & Hc & Hcol).
  - reflexivity.
  - reflexivity.
  - vm_compute. reflexivity.
  - reflexivity.
  - reflexivity.
  - reflexivity.
  - reflexivity.
  - reflexivity.
  - reflexivity.
  - reflexivity.
  - repeat constructor.
  - simpl. lia.
  - intros [|[|i]] p d q ar ma cv Ho Har Hma Hcv; simpl in *; try discriminate.
    + injection Ho as <- <- <-. injection Har as <-. injection Hma as <-.
      injection Hcv as <-. simpl. lia.
    + injection Ho as <- <- <-. injection Har as <-. injection Hma as <-.
      injection Hcv as <-. simpl. lia.
  - rewrite Hrun. do 2 f_equal.
    destruct fc as [r cols]. simpl in Hr, Hc, Hcol. subst r.
    unfold n_cols in Hc. simpl in Hc.
    pose proof (Hcol 0 _ _ _ _ _ _ eq_refl eq_refl eq_refl eq_refl eq_refl eq_refl) as H0.
    pose proof (Hcol 1 _ _ _ _ _ _ eq_refl eq_refl eq_refl eq_refl eq_refl eq_refl) as H1.
    destruct cols as [|c0 [|c1 [|c2 cols]]]; try discriminate Hc.
    simpl in H0, H1. injection H0 as ->. injection H1 as ->.
    vm_compute. reflexivity.
Defined.
